(** * MOEX bond tools for Google Sheets: a shallow embedding of
      [gs_moex_bond_tools/script.js] and the properties of its lookups.

    The script exposes six spreadsheet functions ([GET_MOEX_PRICE],
    [GET_NEXT_COUPON], [GET_MOEX_NAME], [GET_COUPON_VALUE],
    [GET_MATURITY_DATE], [GET_NEAREST_OPTION_DATE]); each one wraps an
    internal fetch function that queries the MOEX ISS API and digs one fact
    out of the column/row JSON it answers with.

    Layout of the development:
    - [JSString], [JSNumber]: the ECMAScript string and number operations
      the script relies on ([trim], [encodeURIComponent], [parseFloat],
      number to string);
    - [Json], [JSON_parse], [JSON_stringify]: JSON values and their text;
    - [JSDate]: time values, the ISO date format, local midnight;
    - [World], [M]: the Apps Script services (UrlFetchApp, CacheService,
      SpreadsheetApp, the clock) as explicit state, and exceptions;
    - the functions of the script, in the order of the source;
    - the properties. *)

From Stdlib Require Import ZArith String Ascii List Bool Lia DecimalString.
From Stdlib Require Import DecimalFacts DecimalPos DecimalZ.
From Stdlib Require Import Sorting.Sorted Sorting.Permutation.
From stdpp Require Import gmap strings.

Open Scope string_scope.
Open Scope Z_scope.

(** ** Strings

    A JavaScript string is modelled by the bytes of its UTF-8 encoding
    (surrogate code points, which JavaScript strings may hold on their own,
    are written in the same three-byte form).  Every literal of the script
    is kept as it is written in the source. *)

Module JSString.

Definition byte (c : ascii) : Z := Z.of_nat (nat_of_ascii c).

Definition chr (z : Z) : ascii := ascii_of_nat (Z.to_nat z).

Definition is_digit (c : ascii) : bool := (48 <=? byte c) && (byte c <=? 57).

Definition digit_val (c : ascii) : Z := byte c - 48.

(** The longest prefix of decimal digits, and the rest. *)
Fixpoint span_digits (s : string) : string * string :=
  match s with
  | String c r =>
      if is_digit c then let '(d, r') := span_digits r in (String c d, r')
      else (EmptyString, s)
  | EmptyString => (EmptyString, EmptyString)
  end.

Fixpoint digits_value_from (acc : Z) (s : string) : Z :=
  match s with
  | String c r => digits_value_from (10 * acc + digit_val c) r
  | EmptyString => acc
  end.

Definition digits_value (s : string) : Z := digits_value_from 0 s.

Definition len (s : string) : Z := Z.of_nat (String.length s).

Definition of_Z (z : Z) : string := NilZero.string_of_int (Z.to_int z).
#[global] Arguments of_Z : simpl never.

Fixpoint repeat_char (c : ascii) (n : nat) : string :=
  match n with
  | O => EmptyString
  | S k => String c (repeat_char c k)
  end.

Definition take (n : Z) (s : string) : string := String.substring 0 (Z.to_nat n) s.

Definition drop (n : Z) (s : string) : string :=
  String.substring (Z.to_nat n) (String.length s - Z.to_nat n) s.

(** [s.startsWith(p)], with the rest of [s] when it does. *)
Fixpoint strip_prefix (p s : string) : option string :=
  match p, s with
  | EmptyString, _ => Some s
  | String a p', String b s' => if Ascii.eqb a b then strip_prefix p' s' else None
  | String _ _, EmptyString => None
  end.

(** White space and line terminators of ECMAScript, as UTF-8 byte
    sequences: TAB, LF, VT, FF, CR, SP, U+00A0, U+1680, U+2000..U+200A,
    U+2028, U+2029, U+202F, U+205F, U+3000, U+FEFF.  The result is the
    string after one such character, if it starts with one. *)
Definition skip_one_space (s : string) : option string :=
  match s with
  | String a r =>
      let x := byte a in
      if ((9 <=? x) && (x <=? 13)) || (x =? 32) then Some r
      else match r with
      | String b r2 =>
          let y := byte b in
          if (x =? 194) && (y =? 160) then Some r2
          else match r2 with
          | String c r3 =>
              let z := byte c in
              if (x =? 225) && (y =? 154) && (z =? 128) then Some r3
              else if (x =? 226) && (y =? 128)
                      && (((128 <=? z) && (z <=? 138)) || (z =? 168) || (z =? 169) || (z =? 175))
                   then Some r3
              else if (x =? 226) && (y =? 129) && (z =? 159) then Some r3
              else if (x =? 227) && (y =? 128) && (z =? 128) then Some r3
              else if (x =? 239) && (y =? 187) && (z =? 191) then Some r3
              else None
          | EmptyString => None
          end
      | EmptyString => None
      end
  | EmptyString => None
  end.

(** Leading white space removed; the fuel is the length of the string. *)
Fixpoint trim_start_fuel (fuel : nat) (s : string) : string :=
  match fuel with
  | O => s
  | S k => match skip_one_space s with
           | Some r => trim_start_fuel k r
           | None => s
           end
  end.

Definition trimStart (s : string) : string := trim_start_fuel (String.length s) s.

(** [s.trim() === ''] : the string holds white space only.  (The script
    uses [trim] in this test alone, so trailing white space need not be
    cut separately: a string is all white space exactly when nothing is
    left after the leading white space is removed.) *)
Definition trim_is_empty (s : string) : bool := String.eqb (trimStart s) "".

Definition hex_digit (n : Z) : ascii :=
  if n <? 10 then chr (48 + n) else chr (55 + n).

Definition is_uri_unreserved (c : ascii) : bool :=
  let x := byte c in
  ((65 <=? x) && (x <=? 90)) || ((97 <=? x) && (x <=? 122)) || ((48 <=? x) && (x <=? 57))
  || (x =? 45) || (x =? 95) || (x =? 46) || (x =? 33) || (x =? 126)
  || (x =? 42) || (x =? 39) || (x =? 40) || (x =? 41).

(** [encodeURIComponent]: every byte of the UTF-8 encoding is written
    [%XX] except the unreserved characters.  A lone surrogate (bytes
    [ED A0..BF xx]) has no UTF-8 encoding: the built-in throws URIError,
    here [None]. *)
Fixpoint encodeURIComponent (s : string) : option string :=
  match s with
  | EmptyString => Some EmptyString
  | String c r =>
      let x := byte c in
      let lone_surrogate :=
        match r with
        | String d _ => (x =? 237) && (160 <=? byte d)
        | EmptyString => false
        end in
      if lone_surrogate then None
      else match encodeURIComponent r with
           | None => None
           | Some r' =>
               if is_uri_unreserved c then Some (String c r')
               else Some (String "%" (String (hex_digit (x / 16)) (String (hex_digit (x mod 16)) r')))
           end
  end.

(** [a.indexOf(b)] on strings, for a needle of ASCII characters as the
    script passes: the index counts UTF-16 code units, so every character
    before the match counts one, or two when it lies outside the basic
    plane (a four-byte sequence). *)
Fixpoint index_of_from (units : Z) (needle s : string) : Z :=
  match strip_prefix needle s with
  | Some _ => units
  | None =>
      match s with
      | EmptyString => -1
      | String c r =>
          let x := byte c in
          let step := if (128 <=? x) && (x <? 192) then 0
                      else if 240 <=? x then 2 else 1 in
          index_of_from (units + step) needle r
      end
  end.

Definition indexOf (s needle : string) : Z := index_of_from 0 needle s.

(** The number of UTF-16 code units, [s.length]. *)
Fixpoint utf16_length (s : string) : Z :=
  match s with
  | EmptyString => 0
  | String c r =>
      let x := byte c in
      (if (128 <=? x) && (x <? 192) then 0 else if 240 <=? x then 2 else 1) + utf16_length r
  end.

End JSString.

(** ** Numbers

    The script never computes with a number: it reads numerals out of
    JSON, passes them through [parseFloat], compares them with zero and
    with NaN, and prints them back into JSON.  A finite number is therefore
    kept as the decimal [m * 10^e] its numeral denotes; [make] clamps to
    the binary64 range (a numeral beyond the largest double is Infinity,
    one below half the smallest is zero), so that [isNaN] and the tests
    against zero agree with the engine.  Rounding of the digits to 53 bits
    is not modelled, and [-0] is identified with [0] (the script cannot
    tell them apart: [-0 !== 0] is false, and both print as 0). *)

Module JSNumber.
Import JSString.

Inductive Number :=
| NaN
| Infinity (negative : bool)
| Finite (m e : Z).

Fixpoint strip_zeros (fuel : nat) (m e : Z) : Z * Z :=
  match fuel with
  | O => (m, e)
  | S k => if m mod 10 =? 0 then strip_zeros k (m / 10) (e + 1) else (m, e)
  end.

Definition normal (m e : Z) : Z * Z :=
  if m =? 0 then (0, 0) else strip_zeros (Z.to_nat (Z.log2 (Z.abs m))) m e.

(** Half-way between the largest double and [2^1024]. *)
Definition overflow_threshold : Z := 2 ^ 1024 - 2 ^ 970.

Definition overflows (a e : Z) : bool :=
  if 0 <=? e then overflow_threshold <=? a * 10 ^ e
  else overflow_threshold * 10 ^ (- e) <=? a.

(** At most half the smallest subnormal, [2^-1075]. *)
Definition underflows (a e : Z) : bool :=
  if 0 <=? e then false else a * 2 ^ 1075 <=? 10 ^ (- e).

Definition make (m e : Z) : Number :=
  if m =? 0 then Finite 0 0
  else if overflows (Z.abs m) e then Infinity (m <? 0)
  else if underflows (Z.abs m) e then Finite 0 0
  else let '(m', e') := normal m e in Finite m' e'.

Definition of_Z (z : Z) : Number := make z 0.
#[global] Arguments make : simpl never.
#[global] Arguments of_Z : simpl never.

Definition isNaN (n : Number) : bool :=
  match n with NaN => true | _ => false end.

(** [n === 0] *)
Definition is_zero (n : Number) : bool :=
  match n with Finite m _ => m =? 0 | _ => false end.

Definition is_finite (n : Number) : bool :=
  match n with Finite _ _ => true | _ => false end.

(** Number::toString, radix 10. *)
Definition toString (x : Number) : string :=
  match x with
  | NaN => "NaN"
  | Infinity false => "Infinity"
  | Infinity true => "-Infinity"
  | Finite m0 e0 =>
      let '(m, e) := normal m0 e0 in
      if m =? 0 then "0"
      else
        let s := JSString.of_Z (Z.abs m) in
        let k := len s in
        let n := k + e in
        let body :=
          if (k <=? n) && (n <=? 21) then s +:+ repeat_char "0" (Z.to_nat (n - k))
          else if (0 <? n) && (n <=? 21) then take n s +:+ "." +:+ drop n s
          else if (-6 <? n) && (n <=? 0) then "0." +:+ repeat_char "0" (Z.to_nat (- n)) +:+ s
          else
            let x := n - 1 in
            let es := (if 0 <=? x then "+" else "-") +:+ JSString.of_Z (Z.abs x) in
            if k =? 1 then s +:+ "e" +:+ es
            else take 1 s +:+ "." +:+ drop 1 s +:+ "e" +:+ es in
        (if m <? 0 then "-" else "") +:+ body
  end.

(** An optional sign, with the rest. *)
Definition read_sign (s : string) : Z * string :=
  match s with
  | String "+" r => (1, r)
  | String "-" r => (-1, r)
  | _ => (1, s)
  end.

(** An exponent part ([e] or [E], optional sign, digits) at the head of
    [s]: its value and the rest; [None] when there is no complete one. *)
Definition read_exponent (s : string) : option (Z * string) :=
  match s with
  | String c r =>
      if Ascii.eqb c "e" || Ascii.eqb c "E" then
        let '(sg, r1) := read_sign r in
        let '(d, r2) := span_digits r1 in
        if String.eqb d "" then None else Some (sg * digits_value d, r2)
      else None
  | EmptyString => None
  end.

(** The longest prefix of [s] that is a StrDecimalLiteral without sign
    (digits, an optional fraction, an optional exponent; at least one digit
    before the exponent), as mantissa and decimal exponent. *)
Definition read_decimal (s : string) : option (Z * Z) :=
  let '(ip, r1) := span_digits s in
  let '(fp, r2) :=
    match r1 with
    | String "." r => span_digits r
    | _ => (EmptyString, r1)
    end in
  if String.eqb ip "" && String.eqb fp "" then None
  else
    let ex := match read_exponent r2 with Some (x, _) => x | None => 0 end in
    Some (digits_value (ip +:+ fp), ex - len fp).

(** [parseFloat] of a string: leading white space is skipped, then the
    longest numeric prefix is read; NaN when there is none. *)
Definition parseFloat_string (s : string) : Number :=
  let '(sg, r) := read_sign (trimStart s) in
  match strip_prefix "Infinity" r with
  | Some _ => Infinity (sg <? 0)
  | None =>
      match read_decimal r with
      | Some (m, e) => make (sg * m) e
      | None => NaN
      end
  end.

End JSNumber.

(** ** JSON values and JSON text *)

Export JSNumber.

Unset Elimination Schemes.
Inductive Json :=
| JNull
| JBool (b : bool)
| JNum (n : Number)
| JStr (s : string)
| JArr (items : list Json)
| JObj (fields : list (string * Json)).
Set Elimination Schemes.

(** A value that may be [undefined] is an [option Json]: [None] is
    [undefined]. *)

Module JSON.
Import JSString.

Definition quote : ascii := "034"%char.
Definition backslash : ascii := "092"%char.

(** The UTF-8 bytes of code point [cp] (surrogates included). *)
Definition utf8_encode (cp : Z) : string :=
  if cp <? 128 then String (chr cp) EmptyString
  else if cp <? 2048 then
    String (chr (192 + cp / 64)) (String (chr (128 + cp mod 64)) EmptyString)
  else if cp <? 65536 then
    String (chr (224 + cp / 4096))
      (String (chr (128 + (cp / 64) mod 64)) (String (chr (128 + cp mod 64)) EmptyString))
  else
    String (chr (240 + cp / 262144))
      (String (chr (128 + (cp / 4096) mod 64))
         (String (chr (128 + (cp / 64) mod 64)) (String (chr (128 + cp mod 64)) EmptyString))).

(** A high surrogate directly followed by a low one is one character
    outside the basic plane. *)
Fixpoint merge_surrogates (s : string) : string :=
  match s with
  | String a (String b (String c (String d (String e (String f r) as r3)) as r2) as r1) =>
      if (byte a =? 237) && (160 <=? byte b) && (byte b <? 176)
         && (byte d =? 237) && (176 <=? byte e) && (byte e <? 192)
      then
        let hi := (byte b - 160) * 64 + (byte c - 128) in
        let lo := (byte e - 176) * 64 + (byte f - 128) in
        utf8_encode (65536 + hi * 1024 + lo) +:+ merge_surrogates r
      else String a (merge_surrogates r1)
  | String a r => String a (merge_surrogates r)
  | EmptyString => EmptyString
  end.

Definition hex_lower (n : Z) : ascii :=
  if n <? 10 then chr (48 + n) else chr (87 + n).

Definition hex_val (c : ascii) : option Z :=
  let x := byte c in
  if (48 <=? x) && (x <=? 57) then Some (x - 48)
  else if (65 <=? x) && (x <=? 70) then Some (x - 55)
  else if (97 <=? x) && (x <=? 102) then Some (x - 87)
  else None.

Definition hex4 (a b c d : ascii) : option Z :=
  match hex_val a, hex_val b, hex_val c, hex_val d with
  | Some x, Some y, Some z, Some w => Some (((x * 16 + y) * 16 + z) * 16 + w)
  | _, _, _, _ => None
  end.

Definition u_escape (cp : Z) : string :=
  String backslash (String "u"
    (String (hex_lower (cp / 4096)) (String (hex_lower ((cp / 256) mod 16))
      (String (hex_lower ((cp / 16) mod 16)) (String (hex_lower (cp mod 16)) EmptyString))))).

(** QuoteJSONString, without the surrounding quotes. *)
Fixpoint escape (s : string) : string :=
  match s with
  | EmptyString => EmptyString
  | String a r =>
      let x := byte a in
      let plain :=
        if x =? 34 then String backslash (String quote (escape r))
        else if x =? 92 then String backslash (String backslash (escape r))
        else if x =? 8 then String backslash (String "b" (escape r))
        else if x =? 12 then String backslash (String "f" (escape r))
        else if x =? 10 then String backslash (String "n" (escape r))
        else if x =? 13 then String backslash (String "r" (escape r))
        else if x =? 9 then String backslash (String "t" (escape r))
        else if x <? 32 then u_escape x +:+ escape r
        else String a (escape r) in
      match r with
      | String b (String c r2) =>
          (* a lone surrogate, bytes ED A0..BF xx *)
          if (x =? 237) && (160 <=? byte b)
          then u_escape ((13 * 16 + (byte b - 128) / 4) * 256
                         + ((byte b - 128) mod 4) * 64 + (byte c - 128)) +:+ escape r2
          else plain
      | _ => plain
      end
  end.

Definition quoted (s : string) : string :=
  String quote (escape s +:+ String quote EmptyString).

Fixpoint join (sep : string) (l : list string) : string :=
  match l with
  | [] => EmptyString
  | [x] => x
  | x :: r => x +:+ sep +:+ join sep r
  end.

(** [JSON.stringify] of a JSON value: a number that is not finite is
    written [null]. *)
Fixpoint stringify (j : Json) : string :=
  match j with
  | JNull => "null"
  | JBool true => "true"
  | JBool false => "false"
  | JNum n => if is_finite n then JSNumber.toString n else "null"
  | JStr s => quoted s
  | JArr l => "[" +:+ join "," (map stringify l) +:+ "]"
  | JObj fs =>
      "{" +:+ join "," (map (fun kv => quoted (fst kv) +:+ ":" +:+ stringify (snd kv)) fs) +:+ "}"
  end.

(** *** Parsing *)

Fixpoint skip_ws (s : string) : string :=
  match s with
  | String c r =>
      let x := byte c in
      if (x =? 32) || (x =? 9) || (x =? 10) || (x =? 13) then skip_ws r else s
  | EmptyString => s
  end.

(** The characters of a string literal after its opening quote, up to the
    closing one, with the rest of the text. *)
Fixpoint read_string_body (s : string) : option (string * string) :=
  match s with
  | EmptyString => None
  | String a r =>
      let x := byte a in
      if x =? 34 then Some (EmptyString, r)
      else if x <? 32 then None
      else if x =? 92 then
        match r with
        | String "u" (String h1 (String h2 (String h3 (String h4 r2)))) =>
            match hex4 h1 h2 h3 h4, read_string_body r2 with
            | Some cp, Some (t, rest) => Some (utf8_encode cp +:+ t, rest)
            | _, _ => None
            end
        | String e r2 =>
            let simple (c : ascii) :=
              match read_string_body r2 with
              | Some (t, rest) => Some (String c t, rest)
              | None => None
              end in
            let y := byte e in
            if (y =? 34) || (y =? 92) || (y =? 47) then simple e
            else if Ascii.eqb e "b" then simple (chr 8)
            else if Ascii.eqb e "f" then simple (chr 12)
            else if Ascii.eqb e "n" then simple (chr 10)
            else if Ascii.eqb e "r" then simple (chr 13)
            else if Ascii.eqb e "t" then simple (chr 9)
            else None
        | EmptyString => None
        end
      else
        match read_string_body r with
        | Some (t, rest) => Some (String a t, rest)
        | None => None
        end
  end.

Definition read_string (s : string) : option (string * string) :=
  match read_string_body s with
  | Some (t, rest) => Some (merge_surrogates t, rest)
  | None => None
  end.

(** A JSON number: [-]? int frac? exp?, with no leading zero in [int]
    and at least one digit in [frac] and in [exp]. *)
Definition read_number (s : string) : option (Number * string) :=
  let '(sg, r0) := match s with String "-" r => (-1, r) | _ => (1, s) end in
  let '(ip, r1) := span_digits r0 in
  let int_ok :=
    match ip with
    | EmptyString => false
    | String "0" (String _ _) => false
    | _ => true
    end in
  if negb int_ok then None
  else
    let frac :=
      match r1 with
      | String "." r =>
          let '(fp, r2) := span_digits r in
          if String.eqb fp "" then None else Some (fp, r2)
      | _ => Some (EmptyString, r1)
      end in
    match frac with
    | None => None
    | Some (fp, r2) =>
        let is_e := match r2 with
                    | String c _ => Ascii.eqb c "e" || Ascii.eqb c "E"
                    | EmptyString => false
                    end in
        if is_e then
          match read_exponent r2 with
          | Some (ex, r3) => Some (make (sg * digits_value (ip +:+ fp)) (ex - len fp), r3)
          | None => None
          end
        else Some (make (sg * digits_value (ip +:+ fp)) (- len fp), r2)
    end.

(** One JSON value at the head of the text.  [read_items] and
    [read_fields] read what follows an opening bracket or brace whose
    closing one has not been seen; every call consumes a character, so a
    fuel of twice the length of the text is never exhausted. *)
Fixpoint read_value (fuel : nat) (s : string) : option (Json * string) :=
  match fuel with
  | O => None
  | S k =>
      let s := skip_ws s in
      match s with
      | EmptyString => None
      | String c r =>
          if Ascii.eqb c quote then
            match read_string r with
            | Some (t, rest) => Some (JStr t, rest)
            | None => None
            end
          else if Ascii.eqb c "[" then
            match skip_ws r with
            | String "]" rest => Some (JArr [], rest)
            | r' =>
                match read_items k r' with
                | Some (l, rest) => Some (JArr l, rest)
                | None => None
                end
            end
          else if Ascii.eqb c "{" then
            match skip_ws r with
            | String "}" rest => Some (JObj [], rest)
            | r' =>
                match read_fields k r' with
                | Some (l, rest) => Some (JObj l, rest)
                | None => None
                end
            end
          else if Ascii.eqb c "n" then
            match strip_prefix "null" s with Some rest => Some (JNull, rest) | None => None end
          else if Ascii.eqb c "t" then
            match strip_prefix "true" s with Some rest => Some (JBool true, rest) | None => None end
          else if Ascii.eqb c "f" then
            match strip_prefix "false" s with Some rest => Some (JBool false, rest) | None => None end
          else
            match read_number s with
            | Some (n, rest) => Some (JNum n, rest)
            | None => None
            end
      end
  end
with read_items (fuel : nat) (s : string) : option (list Json * string) :=
  match fuel with
  | O => None
  | S k =>
      match read_value k s with
      | None => None
      | Some (v, r) =>
          match skip_ws r with
          | String "]" rest => Some ([v], rest)
          | String "," rest =>
              match read_items k rest with
              | Some (l, rest') => Some (v :: l, rest')
              | None => None
              end
          | _ => None
          end
      end
  end
with read_fields (fuel : nat) (s : string) : option (list (string * Json) * string) :=
  match fuel with
  | O => None
  | S k =>
      match skip_ws s with
      | String c r =>
          if Ascii.eqb c quote then
            match read_string r with
            | None => None
            | Some (key, r1) =>
                match skip_ws r1 with
                | String ":" r2 =>
                    match read_value k r2 with
                    | None => None
                    | Some (v, r3) =>
                        match skip_ws r3 with
                        | String "}" rest => Some ([(key, v)], rest)
                        | String "," rest =>
                            match read_fields k rest with
                            | Some (l, rest') => Some ((key, v) :: l, rest')
                            | None => None
                            end
                        | _ => None
                        end
                    end
                | _ => None
                end
            end
          else None
      | EmptyString => None
      end
  end.

(** [JSON.parse]: one value, then nothing but white space; [None] is the
    SyntaxError the built-in throws. *)
Definition parse (text : string) : option Json :=
  match read_value (2 * String.length text + 2) text with
  | Some (v, rest) => if String.eqb (skip_ws rest) "" then Some v else None
  | None => None
  end.

End JSON.

(** ** Dates

    A Date object is its time value: milliseconds since the epoch, or NaN
    for an Invalid Date ([None]).  The script's time zone is a fixed
    offset [tz] from UTC, in milliseconds (Moscow: [+10800000]). *)

Module JSDate.
Import JSString.

Definition msPerDay : Z := 86400000.

Definition is_leap (y : Z) : bool :=
  ((y mod 4 =? 0) && negb (y mod 100 =? 0)) || (y mod 400 =? 0).

Definition days_in_month (y m : Z) : Z :=
  if m =? 2 then (if is_leap y then 29 else 28)
  else if (m =? 4) || (m =? 6) || (m =? 9) || (m =? 11) then 30 else 31.

(** Days from the epoch to a date of the proleptic Gregorian calendar. *)
Definition days_from_civil (y m d : Z) : Z :=
  let y' := if m <=? 2 then y - 1 else y in
  let era := y' / 400 in
  let yoe := y' - era * 400 in
  let doy := (153 * (if 2 <? m then m - 3 else m + 9) + 2) / 5 + d - 1 in
  let doe := yoe * 365 + yoe / 4 - yoe / 100 + doy in
  era * 146097 + doe - 719468.

Definition civil_from_days (z0 : Z) : Z * Z * Z :=
  let z := z0 + 719468 in
  let era := z / 146097 in
  let doe := z - era * 146097 in
  let yoe := (doe - doe / 1460 + doe / 36524 - doe / 146096) / 365 in
  let doy := doe - (365 * yoe + yoe / 4 - yoe / 100) in
  let mp := (5 * doy + 2) / 153 in
  let d := doy - (153 * mp + 2) / 5 + 1 in
  let m := if mp <? 10 then mp + 3 else mp - 9 in
  ((yoe + era * 400 + (if m <=? 2 then 1 else 0)), m, d).

(** TimeClip *)
Definition time_clip (t : Z) : option Z :=
  if Z.abs t <=? 8640000000000000 then Some t else None.

Definition pad (width : nat) (n : Z) : string :=
  let s := JSString.of_Z n in
  repeat_char "0" (width - String.length s) +:+ s.

(** [Date.prototype.toISOString] of a valid time value. *)
Definition toISOString (t : Z) : string :=
  let '(y, m, d) := civil_from_days (t / msPerDay) in
  let r := t mod msPerDay in
  let year :=
    if (0 <=? y) && (y <=? 9999) then pad 4 y
    else (if y <? 0 then "-" else "+") +:+ pad 6 (Z.abs y) in
  year +:+ "-" +:+ pad 2 m +:+ "-" +:+ pad 2 d +:+ "T"
    +:+ pad 2 (r / 3600000) +:+ ":" +:+ pad 2 ((r / 60000) mod 60) +:+ ":"
    +:+ pad 2 ((r / 1000) mod 60) +:+ "." +:+ pad 3 (r mod 1000) +:+ "Z".

(** Exactly [n] digits at the head of [s]. *)
Fixpoint read_digits (n : nat) (acc : Z) (s : string) : option (Z * string) :=
  match n with
  | O => Some (acc, s)
  | S k =>
      match s with
      | String c r => if is_digit c then read_digits k (10 * acc + digit_val c) r else None
      | EmptyString => None
      end
  end.

(** What the date-time string format of ECMAScript says of a string. *)
Inductive IsoReading :=
| IsoTime (t : option Z)   (* in the format, with this time value *)
| NotIso.                  (* not a legal string of the format *)

(** The year of the format: four digits, or a sign and six. *)
Definition read_year (s : string) : option (Z * string) :=
  match s with
  | String "+" r => read_digits 6 0 r
  | String "-" r =>
      match read_digits 6 0 r with
      | Some (y, r') => if y =? 0 then None else Some (- y, r')
      | None => None
      end
  | _ => read_digits 4 0 s
  end.

(** The date part: [YYYY], [YYYY-MM] or [YYYY-MM-DD]. *)
Definition read_date (s : string) : option (Z * Z * Z * string) :=
  match read_year s with
  | None => None
  | Some (y, r) =>
      match r with
      | String "-" r1 =>
          match read_digits 2 0 r1 with
          | None => None
          | Some (m, r2) =>
              match r2 with
              | String "-" r3 =>
                  match read_digits 2 0 r3 with
                  | Some (d, r4) => Some (y, m, d, r4)
                  | None => None
                  end
              | _ => Some (y, m, 1, r2)
              end
          end
      | _ => Some (y, 1, 1, r)
      end
  end.

(** The time part after [T]: [HH:mm], [HH:mm:ss] or [HH:mm:ss.sss], in
    milliseconds, with the rest. *)
Definition read_time (s : string) : option (Z * string) :=
  match read_digits 2 0 s with
  | Some (h, String ":" r1) =>
      match read_digits 2 0 r1 with
      | None => None
      | Some (mi, r2) =>
          let '(sec, ms, r5) :=
            match r2 with
            | String ":" r3 =>
                match read_digits 2 0 r3 with
                | Some (sc, String "." r4) =>
                    match read_digits 3 0 r4 with
                    | Some (f, r5) => (sc, f, r5)
                    | None => (60, 0, r2)
                    end
                | Some (sc, r4) => (sc, 0, r4)
                | None => (60, 0, r2)
                end
            | _ => (0, 0, r2)
            end in
          let in_day := (h <=? 23) && (mi <=? 59) && (sec <=? 59) in
          let end_of_day := (h =? 24) && (mi =? 0) && (sec =? 0) && (ms =? 0) in
          if in_day || end_of_day
          then Some (((h * 60 + mi) * 60 + sec) * 1000 + ms, r5)
          else None
      end
  | _ => None
  end.

(** The offset from UTC the string names ([Z] or [+HH:mm], [-HH:mm]), in
    milliseconds; without one, a date alone is UTC and a date with a time
    is local. *)
Definition read_offset (tz : Z) (has_time : bool) (s : string) : option Z :=
  match s with
  | EmptyString => Some (if has_time then tz else 0)
  | String "Z" EmptyString => if has_time then Some 0 else None
  | String c r =>
      if has_time && (Ascii.eqb c "+" || Ascii.eqb c "-") then
        match read_digits 2 0 r with
        | Some (h, String ":" r1) =>
            match read_digits 2 0 r1 with
            | Some (mi, EmptyString) =>
                if (h <=? 23) && (mi <=? 59)
                then Some ((if Ascii.eqb c "-" then -1 else 1) * (h * 60 + mi) * 60000)
                else None
            | _ => None
            end
        | _ => None
        end
      else None
  end.

(** A string of the format with every element in range denotes a time
    value; any other string is outside the format, where an engine is free
    to recognise it or not. *)
Definition iso_parse (tz : Z) (s : string) : IsoReading :=
  match read_date s with
  | None => NotIso
  | Some (y, m, d, r) =>
      if (1 <=? m) && (m <=? 12) && (1 <=? d) && (d <=? days_in_month y m) then
        let day := days_from_civil y m d * msPerDay in
        match r with
        | String "T" r1 =>
            match read_time r1 with
            | None => NotIso
            | Some (ms, r2) =>
                match read_offset tz true r2 with
                | Some off => IsoTime (time_clip (day + ms - off))
                | None => NotIso
                end
            end
        | _ =>
            match read_offset tz false r with
            | Some off => IsoTime (time_clip (day - off))
            | None => NotIso
            end
        end
      else NotIso
  end.

(** [d.setHours(0, 0, 0, 0)]: the start of the local day of [t]. *)
Definition start_of_local_day (tz t : Z) : Z := t - (t + tz) mod msPerDay.

(** [a >= b] on Dates: both sides become their time values, and a
    comparison with NaN is false. *)
Definition ge (a b : option Z) : bool :=
  match a, b with
  | Some x, Some y => y <=? x
  | _, _ => false
  end.

(** [a - b] on Dates: NaN when either is invalid. *)
Definition sub (a b : option Z) : option Z :=
  match a, b with
  | Some x, Some y => Some (x - y)
  | _, _ => None
  end.

End JSDate.

(** ** Values, exceptions and the services of Apps Script *)

(** What a lookup returns: plain data (null, a number, a string; a cell
    of the API's answer as it is) or a Date. *)
Inductive Value :=
| VData (j : Json)
| VDate (t : option Z).

Definition VStr (s : string) : Value := VData (JStr s).
Definition VNum (n : Number) : Value := VData (JNum n).
Definition VNull : Value := VData JNull.

(** Exceptions, by the value of [e.message].  The text of an engine's own
    TypeError or SyntaxError is engine-specific; the model fixes one text
    per kind of failure. *)
Inductive Exn :=
| TypeError (msg : string)
| SyntaxError (msg : string)
| URIError (msg : string)
| ServiceError (msg : string).

Definition message (e : Exn) : string :=
  match e with
  | TypeError m | SyntaxError m | URIError m | ServiceError m => m
  end.

Inductive Outcome (A : Type) :=
| Returned (a : A)
| Thrown (e : Exn).
Arguments Returned {A} a.
Arguments Thrown {A} e.

#[export] Instance Outcome_ret : MRet Outcome := fun A a => Returned a.
#[export] Instance Outcome_bind : MBind Outcome :=
  fun A B f x => match x with Returned a => f a | Thrown e => Thrown e end.

Record HTTPResponse := { getResponseCode : Z; getContentText : string }.

(** What [UrlFetchApp.fetch(url, { muteHttpExceptions: true })] does for a
    URL: it throws (no connection, a time-out, a quota), or answers. *)
Inductive FetchBehaviour :=
| FetchThrows (msg : string)
| FetchReturns (r : HTTPResponse).

(** What SpreadsheetApp does for the calls of [GET_NEAREST_OPTION_DATE]. *)
Inductive SheetBehaviour :=
| SheetThrows (msg : string)     (* getActiveSpreadsheet or getActiveRange throws *)
| NoSpreadsheet                  (* getActiveSpreadsheet() is null *)
| NoRange                        (* getActiveRange() is null *)
| NoteForbidden (msg : string)   (* setNote throws, as inside a custom function *)
| NoteAllowed.

(** The state a call runs in.  [cache] is the script cache: the text kept
    under each key, with the expiration it was put with (the service drops
    expired entries itself: a lookup sees what the cache holds now).
    [engine_date_parse] is what the engine's [Date.parse] makes of strings
    outside the ECMAScript format (there an engine may apply heuristics of
    its own).  [requests] logs the URLs fetched, latest first. *)
Record World := {
  api : string -> FetchBehaviour;
  cache : gmap string (string * Z);
  now : Z;
  tz : Z;
  engine_date_parse : string -> option Z;
  sheet : SheetBehaviour;
  note : option string;
  requests : list string;
}.

Definition with_cache (c : gmap string (string * Z)) (w : World) : World :=
  {| api := api w; cache := c; now := now w; tz := tz w;
     engine_date_parse := engine_date_parse w; sheet := sheet w;
     note := note w; requests := requests w |}.

Definition with_note (n : option string) (w : World) : World :=
  {| api := api w; cache := cache w; now := now w; tz := tz w;
     engine_date_parse := engine_date_parse w; sheet := sheet w;
     note := n; requests := requests w |}.

Definition with_requests (r : list string) (w : World) : World :=
  {| api := api w; cache := cache w; now := now w; tz := tz w;
     engine_date_parse := engine_date_parse w; sheet := sheet w;
     note := note w; requests := r |}.

(** A computation of the script: it reads and changes the world, and
    returns or throws. *)
Definition M (A : Type) : Type := World -> Outcome A * World.

#[export] Instance M_ret : MRet M := fun A a w => (Returned a, w).
#[export] Instance M_bind : MBind M :=
  fun A B f x w =>
    match x w with
    | (Returned a, w') => f a w'
    | (Thrown e, w') => (Thrown e, w')
    end.

Definition lift {A} (x : Outcome A) : M A := fun w => (x, w).

Definition ask : M World := fun w => (Returned w, w).

(** [try { body } catch (e) { handler }]: what [body] did to the world
    before it threw stays done. *)
Definition try_catch {A} (body : M A) (handler : Exn -> M A) : M A :=
  fun w =>
    match body w with
    | (Returned a, w') => (Returned a, w')
    | (Thrown e, w') => handler e w'
    end.

Definition UrlFetchApp_fetch (url : string) : M HTTPResponse :=
  fun w =>
    let w' := with_requests (url :: requests w) w in
    match api w url with
    | FetchThrows msg => (Thrown (ServiceError msg), w')
    | FetchReturns r => (Returned r, w')
    end.

(** [cache.get(key)]: the text, or null. *)
Definition cache_get (key : string) : M (option string) :=
  fun w => (Returned (fst <$> cache w !! key), w).

(** [cache.put(key, value, expirationInSeconds)] *)
Definition cache_put (key text : string) (ttl : Z) : M unit :=
  fun w => (Returned tt, with_cache (<[key := (text, ttl)]> (cache w)) w).

(** ** The operators of JavaScript the script applies to JSON data *)

Module JS.
Import JSString.

Definition truthy (v : option Json) : bool :=
  match v with
  | None | Some JNull => false
  | Some (JBool b) => b
  | Some (JNum n) => negb (is_zero n || isNaN n)
  | Some (JStr s) => negb (String.eqb s "")
  | Some (JArr _) | Some (JObj _) => true
  end.

(** [v === null || typeof v === 'undefined'] *)
Definition is_nullish (v : option Json) : bool :=
  match v with
  | None | Some JNull => true
  | _ => false
  end.

(** [v === null] *)
Definition is_null (v : option Json) : bool :=
  match v with
  | Some JNull => true
  | _ => false
  end.

(** [v === s] for a string literal [s] *)
Definition is_string (s : string) (v : option Json) : bool :=
  match v with
  | Some (JStr t) => String.eqb t s
  | _ => false
  end.

(** [v === 0] *)
Definition is_number_zero (v : option Json) : bool :=
  match v with
  | Some (JNum n) => is_zero n
  | _ => false
  end.

#[global] Arguments truthy : simpl nomatch.
#[global] Arguments is_nullish : simpl nomatch.
#[global] Arguments is_null : simpl nomatch.
#[global] Arguments is_string : simpl nomatch.
#[global] Arguments is_number_zero : simpl nomatch.

(** The own property [name] of an object; of two fields with one name,
    [JSON.parse] keeps the later. *)
Fixpoint lookup_field (name : string) (fs : list (string * Json)) : option Json :=
  match fs with
  | [] => None
  | (k, v) :: r =>
      match lookup_field name r with
      | Some v' => Some v'
      | None => if String.eqb k name then Some v else None
      end
  end.

Definition has_field (name : string) (fs : list (string * Json)) : bool :=
  match lookup_field name fs with Some _ => true | None => false end.

Definition nth_item {A} (l : list A) (i : Z) : option A :=
  if i <? 0 then None else nth_error l (Z.to_nat i).

(** The UTF-16 code units of a string. *)
Fixpoint code_units (s : string) : list Z :=
  match s with
  | EmptyString => []
  | String a r =>
      let x := byte a in
      if x <? 192 then x :: code_units r
      else match r with
      | String b r1 =>
          if x <? 224 then ((x - 192) * 64 + (byte b - 128)) :: code_units r1
          else match r1 with
          | String c r2 =>
              if x <? 240
              then ((x - 224) * 4096 + (byte b - 128) * 64 + (byte c - 128)) :: code_units r2
              else match r2 with
              | String d r3 =>
                  let cp := (x - 240) * 262144 + (byte b - 128) * 4096
                            + (byte c - 128) * 64 + (byte d - 128) - 65536 in
                  (55296 + cp / 1024) :: (56320 + cp mod 1024) :: code_units r3
              | EmptyString => [x]
              end
          | EmptyString => [x]
          end
      | EmptyString => [x]
      end
  end.

(** [v.name], for the property names the script reads: [marketdata],
    [securities], [data], [columns], [coupons], [amortizations], [offers]
    and [length] (none of them is inherited from a prototype).  Reading a
    property of [undefined] or [null] throws. *)
Definition get (v : option Json) (name : string) : Outcome (option Json) :=
  match v with
  | None => Thrown (TypeError ("Cannot read properties of undefined (reading '" +:+ name +:+ "')"))
  | Some JNull => Thrown (TypeError ("Cannot read properties of null (reading '" +:+ name +:+ "')"))
  | Some (JObj fs) => Returned (lookup_field name fs)
  | Some (JArr l) =>
      Returned (if String.eqb name "length" then Some (JNum (JSNumber.of_Z (Z.of_nat (length l)))) else None)
  | Some (JStr s) =>
      Returned (if String.eqb name "length" then Some (JNum (JSNumber.of_Z (utf16_length s))) else None)
  | Some (JBool _) | Some (JNum _) => Returned None
  end.

(** [v[i]] for an integer [i]: an element of an array, a code unit of a
    string, the property of an object whose name is the numeral of [i]. *)
Definition index (v : option Json) (i : Z) : Outcome (option Json) :=
  match v with
  | None =>
      Thrown (TypeError ("Cannot read properties of undefined (reading '" +:+ JSString.of_Z i +:+ "')"))
  | Some JNull =>
      Thrown (TypeError ("Cannot read properties of null (reading '" +:+ JSString.of_Z i +:+ "')"))
  | Some (JArr l) => Returned (nth_item l i)
  | Some (JStr s) => Returned (JStr <$> (JSON.utf8_encode <$> nth_item (code_units s) i))
  | Some (JObj fs) => Returned (lookup_field (JSString.of_Z i) fs)
  | Some (JBool _) | Some (JNum _) => Returned None
  end.

(** [Array.prototype.indexOf] with a string literal: the first element
    strictly equal to it. *)
Fixpoint array_index_of (needle : string) (l : list Json) (from : Z) : Z :=
  match l with
  | [] => -1
  | x :: r => if is_string needle (Some x) then from else array_index_of needle r (from + 1)
  end.

(** [v.indexOf(s)]: arrays and strings have the method; on anything else
    the call throws. *)
Definition indexOf (v : option Json) (needle : string) : Outcome Z :=
  match v with
  | Some (JArr l) => Returned (array_index_of needle l 0)
  | Some (JStr s) => Returned (JSString.indexOf s needle)
  | None => Thrown (TypeError "Cannot read properties of undefined (reading 'indexOf')")
  | Some JNull => Thrown (TypeError "Cannot read properties of null (reading 'indexOf')")
  | Some _ => Thrown (TypeError "indexOf is not a function")
  end.

(** The elements of the array a [map] or [forEach] runs over; only arrays
    have these methods. *)
Definition array_items (method : string) (v : option Json) : Outcome (list Json) :=
  match v with
  | Some (JArr l) => Returned l
  | None => Thrown (TypeError ("Cannot read properties of undefined (reading '" +:+ method +:+ "')"))
  | Some JNull => Thrown (TypeError ("Cannot read properties of null (reading '" +:+ method +:+ "')"))
  | Some _ => Thrown (TypeError (method +:+ " is not a function"))
  end.

(** ToString.  An object prints as [[object Object]], unless it has a
    field named [toString]: the field shadows the method, it is not
    callable, and the conversion throws.  An array joins its elements
    with commas, null printing as nothing. *)
Fixpoint toString_json (j : Json) : Outcome string :=
  match j with
  | JNull => Returned "null"
  | JBool true => Returned "true"
  | JBool false => Returned "false"
  | JNum n => Returned (JSNumber.toString n)
  | JStr s => Returned s
  | JArr l =>
      (fix items (l : list Json) : Outcome string :=
         match l with
         | [] => Returned ""
         | x :: r =>
             match (match x with JNull => Returned "" | _ => toString_json x end) with
             | Thrown e => Thrown e
             | Returned s =>
                 match r with
                 | [] => Returned s
                 | _ => match items r with
                        | Returned t => Returned (s +:+ "," +:+ t)
                        | Thrown e => Thrown e
                        end
                 end
             end
         end) l
  | JObj fs =>
      if has_field "toString" fs
      then Thrown (TypeError "Cannot convert object to primitive value")
      else Returned "[object Object]"
  end.

Definition toString (v : option Json) : Outcome string :=
  match v with
  | None => Returned "undefined"
  | Some j => toString_json j
  end.

(** [parseFloat(v)]: the argument is converted to a string first. *)
Definition parseFloat (v : option Json) : Outcome Number :=
  s ← toString v; mret (parseFloat_string s).
#[global] Arguments parseFloat : simpl never.

(** [a || b || ...] over conditions that may throw: the first true one
    decides, and what stands after it is not evaluated. *)
Fixpoint any_of (cs : list (Outcome bool)) : Outcome bool :=
  match cs with
  | [] => Returned false
  | c :: r => b ← c; if (b : bool) then Returned true else any_of r
  end.

(** [a ?? b ?? ...]: the first operand that is neither null nor
    undefined, the last one when all are. *)
Fixpoint nullish_chain (vs : list (Outcome (option Json))) : Outcome (option Json) :=
  match vs with
  | [] => Returned None
  | [v] => v
  | v :: r => x ← v; if is_nullish x then nullish_chain r else Returned x
  end.

End JS.

(** ** Dates and JSON in a world *)

(** [Date.parse]: the ECMAScript format where the string is in it, the
    engine's own reading elsewhere. *)
Definition Date_parse (w : World) (s : string) : option Z :=
  match JSDate.iso_parse (tz w) s with
  | JSDate.IsoTime t => t
  | JSDate.NotIso => t ← engine_date_parse w s; JSDate.time_clip t
  end.

(** The time value of [new Date(n)] for a number: its integer part,
    clipped. *)
Definition time_of_number (n : Number) : option Z :=
  match n with
  | Finite m e => JSDate.time_clip (if 0 <=? e then m * 10 ^ e else Z.quot m (10 ^ (- e)))
  | _ => None
  end.

(** [new Date(v)]: a string is parsed, any other primitive is taken as a
    number of milliseconds ([null] is 0, [undefined] is NaN), an array or
    object is converted to a string first. *)
Definition new_Date (w : World) (v : option Json) : Outcome (option Z) :=
  match v with
  | None => Returned None
  | Some JNull => Returned (Some 0)
  | Some (JBool b) => Returned (Some (if b then 1 else 0))
  | Some (JNum n) => Returned (time_of_number n)
  | Some (JStr s) => Returned (Date_parse w s)
  | Some j => s ← JS.toString_json j; mret (Date_parse w s)
  end.

#[global] Arguments Date_parse : simpl never.
#[global] Arguments new_Date : simpl never.

(** [const today = new Date(); today.setHours(0, 0, 0, 0)] *)
Definition today (w : World) : option Z :=
  Some (JSDate.start_of_local_day (tz w) (now w)).
#[global] Arguments today : simpl never.

(** [JSON.parse(text)] *)
Definition JSON_parse (text : string) : Outcome Json :=
  match JSON.parse text with
  | Some j => Returned j
  | None => Thrown (SyntaxError "Unexpected token in JSON")
  end.

(** [JSON.stringify(v)]: a Date is written by its [toJSON], the ISO string
    of a valid date and [null] for an invalid one. *)
Definition JSON_stringify (v : Value) : string :=
  match v with
  | VData j => JSON.stringify j
  | VDate (Some t) => JSON.quoted (JSDate.toISOString t)
  | VDate None => "null"
  end.

(** ** The script *)

Import JS.

(** The URL of the security snapshot.  [encodeURIComponent] throws on a
    ticker that holds a lone surrogate; in every function of the script the
    URL is built before the [try] block is entered. *)
Definition securities_url (ticker : string) : Outcome string :=
  match JSString.encodeURIComponent ticker with
  | Some t =>
      Returned ("https://iss.moex.com/iss/engines/stock/markets/bonds/securities/"
                +:+ t +:+ ".json?iss.meta=off")
  | None => Thrown (URIError "URI malformed")
  end.

Definition bondization_url (ticker : string) : Outcome string :=
  match JSString.encodeURIComponent ticker with
  | Some t =>
      Returned ("https://iss.moex.com/iss/securities/" +:+ t
                +:+ "/bondization.json?iss.meta=off&limit=unlimited")
  | None => Thrown (URIError "URI malformed")
  end.

(** [!x], for an [x] whose evaluation may throw. *)
Definition not_ (x : Outcome (option Json)) : Outcome bool :=
  v ← x; mret (negb (truthy v)).

(** [x.length === 0] *)
Definition length_is_zero (x : Outcome (option Json)) : Outcome bool :=
  v ← x; n ← get v "length"; mret (is_number_zero n).

(** [x.a.b...] *)
Fixpoint get_path (v : option Json) (names : list string) : Outcome (option Json) :=
  match names with
  | [] => Returned v
  | n :: r => x ← get v n; get_path x r
  end.

(** [row[columns.indexOf(name)]] *)
Definition cell (row columns : option Json) (name : string) : Outcome (option Json) :=
  i ← indexOf columns name; index row i.

(** The test every security-snapshot lookup but the price makes:
    [!data.securities || !data.securities.columns || !data.securities.data
     || data.securities.data.length === 0] *)
Definition securities_missing (data : option Json) : Outcome bool :=
  any_of [ not_ (get_path data ["securities"]);
           not_ (get_path data ["securities"; "columns"]);
           not_ (get_path data ["securities"; "data"]);
           length_is_zero (get_path data ["securities"; "data"]) ].

(** [fetchSinglePriceInternal], script.js lines 103-147. *)
Definition fetchSinglePriceInternal (ticker : string) : M Value :=
  url ← lift (securities_url ticker);
  try_catch
    (response ← UrlFetchApp_fetch url;
     if negb (getResponseCode response =? 200) then
       mret (VStr ("Ошибка API: " +:+ JSString.of_Z (getResponseCode response)))
     else
       parsed ← lift (JSON_parse (getContentText response));
       let data := Some parsed in
       incomplete ← lift (any_of
         [ not_ (get_path data ["marketdata"]);
           not_ (get_path data ["securities"]);
           not_ (get_path data ["marketdata"; "data"]);
           not_ (get_path data ["securities"; "data"]);
           length_is_zero (get_path data ["marketdata"; "data"]);
           length_is_zero (get_path data ["securities"; "data"]) ]);
       if (incomplete : bool) then
         mret (VStr "Тикер не найден или API вернул неполные данные")
       else
         marketdataColumns ← lift (get_path data ["marketdata"; "columns"]);
         marketdataRow ← lift (x ← get_path data ["marketdata"; "data"]; index x 0);
         securitiesColumns ← lift (get_path data ["securities"; "columns"]);
         securitiesRow ← lift (x ← get_path data ["securities"; "data"]; index x 0);
         price ← lift (nullish_chain
           [ cell marketdataRow marketdataColumns "LAST";
             cell marketdataRow marketdataColumns "CLOSEPRICE";
             cell securitiesRow securitiesColumns "PREVLEGALCLOSEPRICE";
             cell securitiesRow securitiesColumns "PREVPRICE" ]);
         if is_nullish price then mret (VStr "Цена не найдена")
         else n ← lift (parseFloat price); mret (VNum n))
    (fun e => mret (VStr "Ошибка скрипта")).

(** [fetchNextCouponInternal], script.js lines 188-230. *)
Definition fetchNextCouponInternal (ticker : string) : M Value :=
  url ← lift (securities_url ticker);
  try_catch
    (response ← UrlFetchApp_fetch url;
     if negb (getResponseCode response =? 200) then
       mret (VStr ("Ошибка API: " +:+ JSString.of_Z (getResponseCode response)))
     else
       parsed ← lift (JSON_parse (getContentText response));
       let data := Some parsed in
       missing ← lift (securities_missing data);
       if (missing : bool) then mret (VStr "Тикер не найден")
       else
         columns ← lift (get_path data ["securities"; "columns"]);
         row ← lift (x ← get_path data ["securities"; "data"]; index x 0);
         nextCouponIndex ← lift (indexOf columns "NEXTCOUPON");
         if nextCouponIndex =? -1 then mret (VStr "Поле NEXTCOUPON отсутствует")
         else
           couponDateStr ← lift (index row nextCouponIndex);
           if negb (truthy couponDateStr) || is_string "0000-00-00" couponDateStr
           then mret (VStr "Нет предстоящих купонов")
           else
             w ← ask;
             d ← lift (new_Date w couponDateStr);
             mret (VDate d))
    (fun e => mret (VStr "Ошибка скрипта")).

(** [fetchBondNameInternal], script.js lines 263-306. *)
Definition fetchBondNameInternal (ticker : string) : M Json :=
  url ← lift (securities_url ticker);
  try_catch
    (response ← UrlFetchApp_fetch url;
     if negb (getResponseCode response =? 200) then
       mret (JStr ("Ошибка API: " +:+ JSString.of_Z (getResponseCode response)))
     else
       parsed ← lift (JSON_parse (getContentText response));
       let data := Some parsed in
       missing ← lift (securities_missing data);
       if (missing : bool) then mret (JStr "Тикер не найден")
       else
         columns ← lift (get_path data ["securities"; "columns"]);
         row ← lift (x ← get_path data ["securities"; "data"]; index x 0);
         secNameIndex ← lift (indexOf columns "SECNAME");
         shortNameIndex ← lift (indexOf columns "SHORTNAME");
         name ← lift (if negb (secNameIndex =? -1) then index row secNameIndex
                      else Returned (Some JNull));
         name ← lift (if negb (truthy name) && negb (shortNameIndex =? -1)
                      then index row shortNameIndex else Returned name);
         match name with
         | Some j => if truthy name then mret j else mret (JStr "Наименование не найдено")
         | None => mret (JStr "Наименование не найдено")
         end)
    (fun e => mret (JStr "Ошибка скрипта")).

(** [fetchMaturityDateInternal], script.js lines 420-459. *)
Definition fetchMaturityDateInternal (ticker : string) : M Value :=
  url ← lift (securities_url ticker);
  try_catch
    (response ← UrlFetchApp_fetch url;
     if negb (getResponseCode response =? 200) then
       mret (VStr ("Ошибка API: " +:+ JSString.of_Z (getResponseCode response)))
     else
       parsed ← lift (JSON_parse (getContentText response));
       let data := Some parsed in
       missing ← lift (securities_missing data);
       if (missing : bool) then mret (VStr "Тикер не найден")
       else
         columns ← lift (get_path data ["securities"; "columns"]);
         row ← lift (x ← get_path data ["securities"; "data"]; index x 0);
         matDateIndex ← lift (indexOf columns "MATDATE");
         if matDateIndex =? -1 then mret (VStr "Поле MATDATE отсутствует")
         else
           matDateStr ← lift (index row matDateIndex);
           if negb (truthy matDateStr) || is_string "0000-00-00" matDateStr
           then mret (VStr "Дата погашения не определена")
           else
             w ← ask;
             d ← lift (new_Date w matDateStr);
             mret (VDate d))
    (fun e => mret (VStr "Ошибка скрипта")).

(** *** The coupon schedule *)

(** An element of [coupons]: [{ date, value }]; a [value] of [None] is
    [null]. *)
Module Coupon.
Record t := { date : option Z; value : option Number }.
End Coupon.

(** [Array.prototype.sort(compare)].  The sort is stable, and a comparator
    that answers NaN counts as answering 0.  For a comparator that orders
    the elements consistently every conforming sort gives this result; the
    model is an insertion sort. *)
Section Sort.
Context {A : Type} (compare : A -> A -> option Z).

Definition comes_after (a b : A) : bool :=
  match compare a b with
  | Some d => 0 <? d
  | None => false
  end.

Fixpoint sort_insert (x : A) (l : list A) : list A :=
  match l with
  | [] => [x]
  | y :: r => if comes_after y x then x :: y :: r else y :: sort_insert x r
  end.

Definition Array_sort (l : list A) : list A :=
  fold_left (fun acc x => sort_insert x acc) l [].

End Sort.

(** [(a, b) => a.date - b.date] *)
Definition by_coupon_date (a b : Coupon.t) : option Z :=
  JSDate.sub (Coupon.date a) (Coupon.date b).

(** The callback of [rows.map] in [fetchCouponFromBondization]. *)
Definition coupon_of_row (w : World) (dateIdx valueIdx valueRubIdx : Z) (r : Json)
  : Outcome Coupon.t :=
  val ←
    (rub ← (if negb (valueRubIdx =? -1) then index (Some r) valueRubIdx else Returned None);
     if negb (valueRubIdx =? -1) && negb (is_null rub) then Returned rub
     else
       gen ← (if negb (valueIdx =? -1) then index (Some r) valueIdx else Returned None);
       if negb (valueIdx =? -1) && negb (is_null gen) then Returned gen
       else Returned (Some JNull));
  cell_date ← index (Some r) dateIdx;
  d ← new_Date w cell_date;
  value ← (if negb (is_null val) then n ← parseFloat val; mret (Some n) else Returned None);
  mret {| Coupon.date := d; Coupon.value := value |}.

(** [rows.map(f)] for a callback that may throw. *)
Fixpoint map_outcome {A B} (f : A -> Outcome B) (l : list A) : Outcome (list B) :=
  match l with
  | [] => Returned []
  | x :: r => y ← f x; ys ← map_outcome f r; mret (y :: ys)
  end.

(** [c.value !== null && !isNaN(c.value) && c.value !== 0] *)
Definition meaningful (v : option Number) : bool :=
  match v with
  | Some n => negb (isNaN n) && negb (is_zero n)
  | None => false
  end.

(** The [for] loop of [fetchCouponFromBondization], lines 512-534, from
    index [i] on with [lastKnownValue] as it stands: [inl v] when the loop
    executes [return c.value], [inr lastKnownValue] when it ends (by
    [break] or at the end of the array). *)
Fixpoint coupon_loop (today : option Z) (coupons : list Coupon.t)
    (lastKnownValue : option Number) : Number + option Number :=
  match coupons with
  | [] => inr lastKnownValue
  | c :: rest =>
      if JSDate.ge (Coupon.date c) today then
        match Coupon.value c with
        | Some v => if meaningful (Coupon.value c) then inl v else inr lastKnownValue
        | None => inr lastKnownValue
        end
      else
        coupon_loop today rest
          (if meaningful (Coupon.value c) then Coupon.value c else lastKnownValue)
  end.

(** Lines 506-540: the loop, and what follows it. *)
Definition scan_coupons (today : option Z) (coupons : list Coupon.t) : Value :=
  match coupon_loop today coupons None with
  | inl v => VNum v
  | inr (Some lastKnownValue) => VNum lastKnownValue
  | inr None => VStr "Купон не определен"
  end.

(** [fetchCouponFromBondization], script.js lines 465-544. *)
Definition fetchCouponFromBondization (ticker : string) : M Value :=
  url ← lift (bondization_url ticker);
  try_catch
    (response ← UrlFetchApp_fetch url;
     if negb (getResponseCode response =? 200) then
       mret (VStr ("Ошибка API (bondization): " +:+ JSString.of_Z (getResponseCode response)))
     else
       parsed ← lift (JSON_parse (getContentText response));
       let data := Some parsed in
       missing ← lift (any_of
         [ not_ (get_path data ["coupons"]);
           not_ (get_path data ["coupons"; "data"]);
           not_ (get_path data ["coupons"; "columns"]) ]);
       if (missing : bool) then mret (VStr "Нет данных о купонах (bondization)")
       else
         columns ← lift (get_path data ["coupons"; "columns"]);
         rows ← lift (get_path data ["coupons"; "data"]);
         dateIdx ← lift (indexOf columns "coupondate");
         valueIdx ← lift (indexOf columns "value");
         valueRubIdx ← lift (indexOf columns "value_rub");
         if dateIdx =? -1 then mret (VStr "Нет даты купона в данных")
         else
           w ← ask;
           items ← lift (array_items "map" rows);
           mapped ← lift (map_outcome (coupon_of_row w dateIdx valueIdx valueRubIdx) items);
           let coupons := Array_sort by_coupon_date mapped in
           mret (scan_coupons (today w) coupons))
    (fun e => mret (VStr ("Ошибка bondization: " +:+ message e))).

(** [fetchCouponValueInternal], script.js lines 340-383. *)
Definition fetchCouponValueInternal (ticker : string) : M Value :=
  url ← lift (securities_url ticker);
  try_catch
    (response ← UrlFetchApp_fetch url;
     if negb (getResponseCode response =? 200) then
       mret (VStr ("Ошибка API: " +:+ JSString.of_Z (getResponseCode response)))
     else
       parsed ← lift (JSON_parse (getContentText response));
       let data := Some parsed in
       missing ← lift (securities_missing data);
       if (missing : bool) then mret (VStr "Тикер не найден")
       else
         columns ← lift (get_path data ["securities"; "columns"]);
         row ← lift (x ← get_path data ["securities"; "data"]; index x 0);
         couponValueIndex ← lift (indexOf columns "COUPONVALUE");
         stage1 ← lift
           (if negb (couponValueIndex =? -1) then
              couponValue ← index row couponValueIndex;
              if negb (is_nullish couponValue) then
                val ← parseFloat couponValue;
                if negb (is_zero val) then Returned (Some val) else Returned None
              else Returned None
            else Returned None);
         match stage1 with
         | Some val => mret (VNum val)
         | None => fetchCouponFromBondization ticker
         end)
    (fun e => mret (VStr ("Ошибка скрипта: " +:+ message e))).

(** *** Offers and amortizations *)

(** An element of [events]: [{ date, type, description }]. *)
Module Event.
Record t := { date : option Z; type : Json; description : string }.
End Event.

Definition by_event_date (a b : Event.t) : option Z :=
  JSDate.sub (Event.date a) (Event.date b).

(** [l.forEach(f)] for a callback that pushes to [events] and may throw. *)
Fixpoint for_each {A S} (f : A -> S -> Outcome S) (l : list A) (s : S) : Outcome S :=
  match l with
  | [] => Returned s
  | x :: r => s' ← f x s; for_each f r s'
  end.

(** The callback of [amortizations.data.forEach], lines 615-627. *)
Definition push_amortization (w : World) (dateIdx : Z) (row : Json) (events : list Event.t)
  : Outcome (list Event.t) :=
  dStr ← index (Some row) dateIdx;
  if truthy dStr then
    d ← new_Date w dStr;
    if JSDate.ge d (today w) then
      text ← JS.toString dStr;
      mret (events ++ [ {| Event.date := d; Event.type := JStr "Амортизация";
                           Event.description := "Амортизация: " +:+ text |} ])%list
    else mret events
  else mret events.

(** The callback of [offers.data.forEach], lines 641-662. *)
Definition push_offer (w : World) (dateIdx typeIdx : Z) (row : Json) (events : list Event.t)
  : Outcome (list Event.t) :=
  dStr ← index (Some row) dateIdx;
  if truthy dStr then
    d ← new_Date w dStr;
    if JSDate.ge d (today w) then
      declared ← (if negb (typeIdx =? -1) then index (Some row) typeIdx else Returned None);
      let type :=
        match declared with
        | Some j => if negb (typeIdx =? -1) && truthy declared then j else JStr "Оферта"
        | None => JStr "Оферта"
        end in
      label ← toString_json type;
      text ← JS.toString dStr;
      mret (events ++ [ {| Event.date := d; Event.type := type;
                           Event.description := label +:+ ": " +:+ text |} ])%list
    else mret events
  else mret events.

(** [x && x.columns && x.data] *)
Definition block_present (x : option Json) : Outcome bool :=
  if truthy x then
    c ← get x "columns";
    if truthy c then d ← get x "data"; mret (truthy d) else Returned false
  else Returned false.

(** [[...new Set(l)]]: the first occurrence of every string, in order. *)
Fixpoint unique_from (seen l : list string) : list string :=
  match l with
  | [] => []
  | x :: r =>
      if existsb (String.eqb x) seen then unique_from seen r
      else x :: unique_from (x :: seen) r
  end.

Definition unique (l : list string) : list string := unique_from [] l.

Definition newline : string := String (JSString.chr 10) EmptyString.

(** What [fetchBondOptionDatesInternal] returns: an error string, or the
    object [{ date, note }]. *)
Inductive OptionDates :=
| OptionDatesError (text : string)
| OptionDatesFound (date : option Z) (note : string).

(** Lines 666-691: from the events collected to the result. *)
Definition nearest_of_events (events : list Event.t) : OptionDates :=
  match Array_sort by_event_date events with
  | [] => OptionDatesError "Нет оферт/аморт."
  | (nearest :: _) as sorted =>
      let uniqueDescriptions := unique (map Event.description sorted) in
      let noteText := JSON.join newline uniqueDescriptions
                      +:+ newline +:+ newline +:+ "Ближайшая: " +:+ Event.description nearest in
      OptionDatesFound (Event.date nearest) noteText
  end.

(** [fetchBondOptionDatesInternal], script.js lines 588-695. *)
Definition fetchBondOptionDatesInternal (ticker : string) : M OptionDates :=
  url ← lift (bondization_url ticker);
  try_catch
    (response ← UrlFetchApp_fetch url;
     if negb (getResponseCode response =? 200) then
       mret (OptionDatesError ("Ошибка API: " +:+ JSString.of_Z (getResponseCode response)))
     else
       parsed ← lift (JSON_parse (getContentText response));
       let data := Some parsed in
       amortizations ← lift (get data "amortizations");
       offers ← lift (get data "offers");
       w ← ask;
       let events := [] in
       has_amortizations ← lift (block_present amortizations);
       events ← lift
         (if (has_amortizations : bool) then
            cols ← get amortizations "columns";
            dateIdx ← indexOf cols "amortdate";
            if negb (dateIdx =? -1) then
              rows ← (x ← get amortizations "data"; array_items "forEach" x);
              for_each (push_amortization w dateIdx) rows events
            else Returned events
          else Returned events);
       has_offers ← lift (block_present offers);
       events ← lift
         (if (has_offers : bool) then
            cols ← get offers "columns";
            dateIdx ← indexOf cols "offerdate";
            typeIdx ← indexOf cols "offertype";
            if negb (dateIdx =? -1) then
              rows ← (x ← get offers "data"; array_items "forEach" x);
              for_each (push_offer w dateIdx typeIdx) rows events
            else Returned events
          else Returned events);
       mret (nearest_of_events events))
    (fun e => mret (OptionDatesError ("Ошибка скрипта: " +:+ message e))).

(** *** The functions of the spreadsheet *)

(** [!ticker || ticker.trim() === ''] *)
Definition blank (ticker : string) : bool :=
  String.eqb ticker "" || JSString.trim_is_empty ticker.

(** [GET_MOEX_PRICE], script.js lines 35-51. *)
Definition GET_MOEX_PRICE (ticker : string) : M Value :=
  if blank ticker then mret VNull
  else
    cached ← cache_get ticker;
    match cached with
    | Some text => j ← lift (JSON_parse text); mret (VData j)
    | None =>
        result ← fetchSinglePriceInternal ticker;
        _ ← cache_put ticker (JSON_stringify result) 300;
        mret result
    end.

(** [GET_NEXT_COUPON], script.js lines 155-181. *)
Definition GET_NEXT_COUPON (ticker : string) : M Value :=
  if blank ticker then mret VNull
  else
    let cacheKey := ticker +:+ "_coupon" in
    cached ← cache_get cacheKey;
    match cached with
    | Some text =>
        cachedValue ← lift (JSON_parse text);
        if truthy (Some cachedValue) then
          w ← ask; d ← lift (new_Date w (Some cachedValue)); mret (VDate d)
        else mret (VStr "Нет данных")
    | None =>
        result ← fetchNextCouponInternal ticker;
        _ ← cache_put cacheKey (JSON_stringify result) 21600;
        mret result
    end.

(** [GET_MOEX_NAME], script.js lines 238-256.  The cache keeps strings:
    [result] is stored as the string it converts to (it is a string unless
    the API gave a name that is not one). *)
Definition GET_MOEX_NAME (ticker : string) : M Value :=
  if blank ticker then mret VNull
  else
    let cacheKey := ticker +:+ "_name" in
    cached ← cache_get cacheKey;
    match cached with
    | Some text => mret (VStr text)
    | None =>
        result ← fetchBondNameInternal ticker;
        text ← lift (toString_json result);
        _ ← cache_put cacheKey text 86400;
        mret (VData result)
    end.

(** [GET_COUPON_VALUE], script.js lines 314-333. *)
Definition GET_COUPON_VALUE (ticker : string) : M Value :=
  if blank ticker then mret VNull
  else
    let cacheKey := ticker +:+ "_coupon_value_v3" in
    cached ← cache_get cacheKey;
    match cached with
    | Some text => j ← lift (JSON_parse text); mret (VData j)
    | None =>
        result ← fetchCouponValueInternal ticker;
        _ ← cache_put cacheKey (JSON_stringify result) 21600;
        mret result
    end.

(** [GET_MATURITY_DATE], script.js lines 391-413. *)
Definition GET_MATURITY_DATE (ticker : string) : M Value :=
  if blank ticker then mret VNull
  else
    let cacheKey := ticker +:+ "_maturity" in
    cached ← cache_get cacheKey;
    match cached with
    | Some text =>
        cachedValue ← lift (JSON_parse text);
        if truthy (Some cachedValue) then
          w ← ask; d ← lift (new_Date w (Some cachedValue)); mret (VDate d)
        else mret (VStr "Нет данных")
    | None =>
        result ← fetchMaturityDateInternal ticker;
        _ ← cache_put cacheKey (JSON_stringify result) 86400;
        mret result
    end.

(** [SpreadsheetApp.getActiveSpreadsheet()]: is there one? *)
Definition SpreadsheetApp_getActiveSpreadsheet : M bool :=
  fun w =>
    match sheet w with
    | SheetThrows msg => (Thrown (ServiceError msg), w)
    | NoSpreadsheet => (Returned false, w)
    | _ => (Returned true, w)
    end.

(** [SpreadsheetApp.getActiveRange()]: is there one? *)
Definition SpreadsheetApp_getActiveRange : M bool :=
  fun w =>
    match sheet w with
    | SheetThrows msg => (Thrown (ServiceError msg), w)
    | NoSpreadsheet | NoRange => (Returned false, w)
    | _ => (Returned true, w)
    end.

(** [range.setNote(text)] *)
Definition range_setNote (text : string) : M unit :=
  fun w =>
    match sheet w with
    | NoteAllowed => (Returned tt, with_note (Some text) w)
    | NoteForbidden msg | SheetThrows msg => (Thrown (ServiceError msg), w)
    | _ => (Thrown (TypeError "Cannot read properties of null (reading 'setNote')"), w)
    end.

(** [GET_NEAREST_OPTION_DATE], script.js lines 553-581. *)
Definition GET_NEAREST_OPTION_DATE (ticker : string) : M Value :=
  if String.eqb ticker "" then mret (VStr "Укажите тикер")
  else
    result ← fetchBondOptionDatesInternal ticker;
    match result with
    | OptionDatesError text => mret (VStr text)
    | OptionDatesFound date note =>
        _ ← try_catch
              (has_sheet ← SpreadsheetApp_getActiveSpreadsheet;
               if (has_sheet : bool) then
                 has_range ← SpreadsheetApp_getActiveRange;
                 if (has_range : bool) then range_setNote note else mret tt
               else mret tt)
              (fun e => mret tt);
        mret (VDate date)
    end.


(** ** The menu and the forced recalculation

    [onOpen] and [forceRecalculatePrices] run as a script bound to the
    document, not as custom functions: they talk to the user interface
    and rewrite cells.  What they do is kept as the sequence of their
    calls to the services. *)

(** [const DELAY_MS = 400] *)
Definition DELAY_MS : Z := 400.

(** [const CUSTOM_FUNCTIONS = [...]], script.js lines 10-17. *)
Definition CUSTOM_FUNCTIONS : list string :=
  [ "GET_MOEX_PRICE"; "GET_NEXT_COUPON"; "GET_MOEX_NAME"; "GET_COUPON_VALUE";
    "GET_MATURITY_DATE"; "GET_NEAREST_OPTION_DATE" ].

(** The string methods of [forceRecalculatePrices]. *)
Module JSText.
Import JSString.

(** [s.includes(needle)], for a needle of ASCII characters as the script
    passes: in UTF-8 an ASCII character is a byte of its own, so the
    needle occurs among the characters exactly where its bytes occur. *)
Fixpoint includes (s needle : string) : bool :=
  match strip_prefix needle s with
  | Some _ => true
  | None =>
      match s with
      | EmptyString => false
      | String _ r => includes r needle
      end
  end.

(** An ASCII letter in upper case; any other byte as it is. *)
Definition ascii_upper (c : ascii) : ascii :=
  let x := byte c in
  if (97 <=? x) && (x <=? 122) then chr (x - 32) else c.

(** What there is to write for the character whose bytes are [pending]:
    nothing when there is none, what the engine maps it to otherwise. *)
Definition written (upper : string -> string) (pending : string) : string :=
  if String.eqb pending "" then "" else upper pending.

(** [s.toUpperCase()].  The conversion goes character by character.  An
    ASCII character is mapped here; a character outside ASCII (a lead
    byte and the continuation bytes after it, collected in [pending]) is
    mapped by [upper], the upper-case mapping of Unicode in the engine,
    which may give several characters, ASCII ones among them. *)
Fixpoint toUpperCase_from (upper : string -> string) (pending s : string) : string :=
  match s with
  | EmptyString => written upper pending
  | String c r =>
      let x := byte c in
      if x <? 128 then
        written upper pending +:+ String (ascii_upper c) (toUpperCase_from upper "" r)
      else if x <? 192 then
        toUpperCase_from upper (pending +:+ String c "") r
      else
        written upper pending +:+ toUpperCase_from upper (String c "") r
  end.

Definition toUpperCase (upper : string -> string) (s : string) : string :=
  toUpperCase_from upper "" s.

End JSText.

(** A call to a service that shows in the document or to the user. *)
Inductive Effect :=
| Alert (text : string)                             (* ui.alert(text) *)
| AlertButtons (text buttons : string)              (* ui.alert(text, ui.ButtonSet.OK) *)
| Toast (text : string)                             (* spreadsheet.toast(text) *)
| ToastTitled (text title : string) (seconds : Z)   (* spreadsheet.toast(text, title, seconds) *)
| ClearContent (row column : Z)                     (* range.clearContent() *)
| Flush                                             (* SpreadsheetApp.flush() *)
| SetFormula (row column : Z) (formula : string)    (* range.setFormula(formula) *)
| Sleep (milliseconds : Z)                          (* Utilities.sleep(ms) *)
| AddMenu (name : string) (items : list (string * string)).
                                                    (* createMenu(name).addItem(..)...addToUi() *)

(** The document a bound script runs in.  [formula_of row column] is the
    formula of a cell of the active sheet, the empty string where there
    is none; [lastRow] and [lastColumn] are the size of the data range,
    which starts at A1.  [upper_case] is the engine's upper-case mapping
    of a character outside ASCII.  [effects] are the calls made, in
    order.  The services are taken to answer: none of the calls throws. *)
Record Document := {
  formula_of : Z -> Z -> string;
  lastRow : nat;
  lastColumn : nat;
  upper_case : string -> string;
  effects : list Effect;
}.

(** A computation of a bound script. *)
Definition Script (A : Type) : Type := Document -> A * Document.

#[export] Instance Script_ret : MRet Script := fun A a d => (a, d).
#[export] Instance Script_bind : MBind Script :=
  fun A B f x d => let '(a, d') := x d in f a d'.

Definition effect (e : Effect) : Script unit :=
  fun d => (tt, {| formula_of := formula_of d; lastRow := lastRow d;
                   lastColumn := lastColumn d; upper_case := upper_case d;
                   effects := (effects d ++ [e])%list |}).

Definition write_formula (row column : Z) (formula : string) : Script unit :=
  fun d => (tt, {| formula_of := fun r c => if (r =? row) && (c =? column) then formula
                                            else formula_of d r c;
                   lastRow := lastRow d; lastColumn := lastColumn d;
                   upper_case := upper_case d; effects := effects d |}).

(** [sheet.getDataRange().getFormulas()]: the formulas of the data range,
    row by row. *)
Definition getFormulas : Script (list (list string)) :=
  fun d =>
    (map (fun i => map (fun j => formula_of d (Z.of_nat i + 1) (Z.of_nat j + 1))
                       (seq 0 (lastColumn d)))
         (seq 0 (lastRow d)), d).

(** A Range of one cell, as [sheet.getRange(row, column)] gives it. *)
Definition Range : Type := Z * Z.

(** [cell.getFormula()] *)
Definition getFormula (cell : Range) : Script string :=
  fun d => (formula_of d (fst cell) (snd cell), d).

(** [cell.clearContent()] *)
Definition clearContent (cell : Range) : Script unit :=
  _ ← write_formula (fst cell) (snd cell) ""; effect (ClearContent (fst cell) (snd cell)).

(** [cell.setFormula(formula)] *)
Definition setFormula (cell : Range) (formula : string) : Script unit :=
  _ ← write_formula (fst cell) (snd cell) formula;
  effect (SetFormula (fst cell) (snd cell) formula).

(** [onOpen], script.js lines 22-27. *)
Definition onOpen : Script unit :=
  effect (AddMenu "MOEX" [("Обновить все данные (с задержкой)", "forceRecalculatePrices")]).

(** [CUSTOM_FUNCTIONS.some((fn) => formulaUpper.includes(fn))] on the
    upper case of a formula that is not empty, lines 67-71. *)
Definition hasCustomFunction (upper : string -> string) (formula : string) : bool :=
  negb (String.eqb formula "")
  && let formulaUpper := JSText.toUpperCase upper formula in
     existsb (fun fn => JSText.includes formulaUpper fn) CUSTOM_FUNCTIONS.

(** The loop over [j], from [j] on, and the loop over [i], lines 65-76:
    [targetCells] grows by the cells that hold a custom function. *)
Fixpoint scan_row (upper : string -> string) (i j : Z) (row : list string)
    (targetCells : list Range) : list Range :=
  match row with
  | [] => targetCells
  | formula :: rest =>
      scan_row upper i (j + 1) rest
        (if hasCustomFunction upper formula then (targetCells ++ [(i + 1, j + 1)])%list
         else targetCells)
  end.

Fixpoint scan_rows (upper : string -> string) (i : Z) (allFormulas : list (list string))
    (targetCells : list Range) : list Range :=
  match allFormulas with
  | [] => targetCells
  | row :: rest => scan_rows upper (i + 1) rest (scan_row upper i 0 row targetCells)
  end.

(** [targetCells.forEach(f)] *)
Fixpoint forEach {A} (l : list A) (f : A -> Script unit) : Script unit :=
  match l with
  | [] => mret tt
  | x :: r => _ ← f x; forEach r f
  end.

(** [forceRecalculatePrices], script.js lines 56-95.  The number of the
    cells is written in the messages in decimal digits. *)
Definition forceRecalculatePrices : Script unit :=
  allFormulas ← getFormulas;
  d ← (fun d => (d, d));
  let targetCells := scan_rows (upper_case d) 0 allFormulas [] in
  let count := JSString.of_Z (Z.of_nat (length targetCells)) in
  if (length targetCells =? 0)%nat then
    effect (Alert ("На листе не найдено ячеек с функциями: "
                   +:+ JSON.join ", " CUSTOM_FUNCTIONS))
  else
    _ ← effect (AlertButtons ("Найдено " +:+ count +:+ " ячеек. Начинаю обновление...") "OK");
    _ ← effect (Toast ("Обновление " +:+ count +:+ " ячеек..."));
    _ ← forEach targetCells
          (fun cell =>
             originalFormula ← getFormula cell;
             _ ← clearContent cell;
             _ ← effect Flush;
             _ ← setFormula cell originalFormula;
             effect (Sleep DELAY_MS));
    effect (ToastTitled "Обновление данных завершено!" "Готово" 5).
(** ** The data model of the specification *)

(** A TabularBlock: the column names and the rows. *)
Module Block.
Record t := { columns : list Json; data : list Json }.
End Block.

(** The block [name] of a parsed answer, when it has the tabular shape:
    an object with an array [columns] and an array [data]. *)
Definition block_of (body : Json) (name : string) : option Block.t :=
  match body with
  | JObj fs =>
      match lookup_field name fs with
      | Some (JObj bfs) =>
          match lookup_field "columns" bfs, lookup_field "data" bfs with
          | Some (JArr cols), Some (JArr rows) => Some {| Block.columns := cols; Block.data := rows |}
          | _, _ => None
          end
      | _ => None
      end
  | _ => None
  end.

(** The value of a row in the column called [name]: [None] when the block
    has no such column, or the row is too short. *)
Definition column_value (columns cells : list Json) (name : string) : option Json :=
  nth_item cells (array_index_of name columns 0).

(** The first value that is neither null nor undefined. *)
Fixpoint first_defined (vs : list (option Json)) : option Json :=
  match vs with
  | [] => None
  | v :: r => if is_nullish v then first_defined r else v
  end.

(** A scalar cell: null, a boolean, a number or a string. *)
Definition is_scalar (j : Json) : bool :=
  match j with
  | JArr _ | JObj _ => false
  | _ => true
  end.

(** Dates in ascending order: each is valid and at most the next. *)
Definition date_le (a b : option Z) : Prop :=
  match a, b with
  | Some x, Some y => x <= y
  | _, _ => False
  end.

Definition ascending (dates : list (option Z)) : Prop := StronglySorted date_le dates.

(** A record with a valid date, and a record dated [d], for records whose
    date is [key]. *)
Definition dated {A} (key : A -> option Z) (a : A) : Prop := is_Some (key a).

Definition dated_on {A} (key : A -> option Z) (d : Z) (a : A) : bool :=
  match key a with
  | Some x => x =? d
  | None => false
  end.

(** *** The coupon schedule scan, in the words of the specification *)

Module CouponSpec.

(** A record dated strictly before the reference date. *)
Definition strictly_before (today : Z) (c : Coupon.t) : bool :=
  match Coupon.date c with
  | Some d => d <? today
  | None => false
  end.

(** The records at the head of the sequence that satisfy [p], and the
    sequence from the first one that does not. *)
Fixpoint span {A} (p : A -> bool) (l : list A) : list A * list A :=
  match l with
  | [] => ([], [])
  | x :: r => if p x then let '(a, b) := span p r in (x :: a, b) else ([], l)
  end.

(** The last-known value after the records [past]: each record whose value
    is non-null, non-NaN and non-zero overwrites what was remembered. *)
Definition remembered (past : list Coupon.t) : option Number :=
  fold_left (fun known c => if meaningful (Coupon.value c) then Coupon.value c else known)
            past None.

(** The result of the scan: the value of the first record on or after
    today when it is non-null, non-NaN and non-zero; otherwise, whatever
    the later records hold, the last-known value of the records before
    today, or "coupon undetermined". *)
Definition expected (today : Z) (coupons : list Coupon.t) : Value :=
  let '(past, rest) := span (strictly_before today) coupons in
  let fallback :=
    match remembered past with
    | Some v => VNum v
    | None => VStr "Купон не определен"
    end in
  match rest with
  | next :: _ =>
      match Coupon.value next with
      | Some v => if meaningful (Some v) then VNum v else fallback
      | None => fallback
      end
  | [] => fallback
  end.

End CouponSpec.

(** *** The nearest event, in the words of the specification *)

Module EventSpec.

(** The cells of a row: an array of scalars. *)
Definition cells_of (row : Json) : option (list Json) :=
  match row with
  | JArr cells => if forallb is_scalar cells then Some cells else None
  | _ => None
  end.

Fixpoint rows_of (data : list Json) : option (list (list Json)) :=
  match data with
  | [] => Some []
  | row :: rest =>
      match cells_of row, rows_of rest with
      | Some cells, Some rows => Some (cells :: rows)
      | _, _ => None
      end
  end.

(** The columns and the rows of the block [name] of an answer: those of
    a tabular block with rows of scalar cells; none when the answer has
    no such block. *)
Definition table (body : Json) (name : string) : option (list Json * list (list Json)) :=
  match body with
  | JObj fs =>
      match lookup_field name fs with
      | None => Some ([], [])
      | Some _ =>
          match block_of body name with
          | Some b =>
              match rows_of (Block.data b) with
              | Some rows => Some (Block.columns b, rows)
              | None => None
              end
          | None => None
          end
      end
  | _ => None
  end.

(** The date a cell parses to, and the text it is printed as. *)
Definition date_of (w : World) (cell : Json) : option Z :=
  match new_Date w (Some cell) with
  | Returned d => d
  | Thrown _ => None
  end.

Definition text_of (cell : Json) : string :=
  match toString_json cell with
  | Returned s => s
  | Thrown _ => ""
  end.

(** A date cell counts when it is not empty and parses to a date on or
    after today, time zeroed. *)
Definition upcoming (w : World) (cell : Json) : bool :=
  truthy (Some cell)
  && match date_of w cell with
     | Some d => JSDate.start_of_local_day (tz w) (now w) <=? d
     | None => false
     end.

(** The rows kept, each with its date cell. *)
Definition kept_row (w : World) (columns : list Json) (datecol : string) (cells : list Json)
  : list (list Json * Json) :=
  match column_value columns cells datecol with
  | Some cell => if upcoming w cell then [(cells, cell)] else []
  | None => []
  end.

Definition kept (w : World) (columns : list Json) (datecol : string)
    (rows : list (list Json)) : list (list Json * Json) :=
  flat_map (kept_row w columns datecol) rows.

Definition amortization (w : World) (r : list Json * Json) : Event.t :=
  {| Event.date := date_of w (snd r);
     Event.type := JStr "Амортизация";
     Event.description := "Амортизация: " +:+ text_of (snd r) |}.

(** The type of an offer: what the row declares in the column offertype,
    when there is such a column and the cell is not empty. *)
Definition offer_type (columns cells : list Json) : Json :=
  match column_value columns cells "offertype" with
  | Some declared => if truthy (Some declared) then declared else JStr "Оферта"
  | None => JStr "Оферта"
  end.

Definition offer (w : World) (columns : list Json) (r : list Json * Json) : Event.t :=
  {| Event.date := date_of w (snd r);
     Event.type := offer_type columns (fst r);
     Event.description := text_of (offer_type columns (fst r)) +:+ ": " +:+ text_of (snd r) |}.

(** The merged sequence: the amortizations, then the offers. *)
Definition merged (w : World) (acols : list Json) (arows : list (list Json))
    (ocols : list Json) (orows : list (list Json)) : list Event.t :=
  (map (amortization w) (kept w acols "amortdate" arows)
   ++ map (offer w ocols) (kept w ocols "offerdate" orows))%list.

(** The events of a sequence that fall on the date [d]. *)
Definition on (d : Z) (e : Event.t) : bool := dated_on Event.date d e.

(** The note: the distinct descriptions, one per line, an empty line, and
    the line of the nearest event. *)
Definition note (descriptions : list string) (nearest : Event.t) : string :=
  JSON.join newline descriptions +:+ newline +:+ newline
  +:+ "Ближайшая: " +:+ Event.description nearest.

End EventSpec.

(** *** The lookups and their caching *)

(** The functions that go through the cache, and all six. *)
Definition cached_lookups : list (string -> M Value) :=
  [ GET_MOEX_PRICE; GET_NEXT_COUPON; GET_MOEX_NAME; GET_COUPON_VALUE; GET_MATURITY_DATE ].

Definition lookups : list (string -> M Value) :=
  (cached_lookups ++ [ GET_NEAREST_OPTION_DATE ])%list.

(** For a ticker that is empty or white space, [f] returns null and does
    nothing: the world, the log of requests included, stays as it is. *)
Definition blank_returns_null (f : string -> M Value) : Prop :=
  forall ticker w, blank ticker = true -> f ticker w = (Returned VNull, w).

(** How a cached text is read back on a hit: parsed as JSON (price,
    coupon value); parsed and, when truthy, made a Date (next coupon,
    maturity); as it is (name). *)
Definition restore_json (text : string) : M Value :=
  j ← lift (JSON_parse text); mret (VData j).

Definition restore_date (text : string) : M Value :=
  cachedValue ← lift (JSON_parse text);
  if truthy (Some cachedValue) then
    w ← ask; d ← lift (new_Date w (Some cachedValue)); mret (VDate d)
  else mret (VStr "Нет данных").

Definition restore_text (text : string) : M Value := mret (VStr text).

(** [f] caches [resolve] under [key] for [ttl] seconds: for a ticker that
    is not blank, on a hit it answers from the cached text alone; on a
    miss it runs the resolver, puts the serialised result under the key
    in the cache the resolver left, and returns the result. *)
Definition caches {R} (f : string -> M Value) (key : string -> string) (ttl : Z)
    (resolve : string -> M R) (to_value : R -> Value) (serialize : R -> Outcome string)
    (restore : string -> M Value) : Prop :=
  forall ticker w, blank ticker = false ->
    (forall text e, cache w !! key ticker = Some (text, e) -> f ticker w = restore text w)
    /\ (cache w !! key ticker = None ->
        forall r w1 text,
          resolve ticker w = (Returned r, w1) -> serialize r = Returned text ->
          f ticker w = (Returned (to_value r),
                        with_cache (<[key ticker := (text, ttl)]> (cache w1)) w1)).

(** [f] writes what it resolved back to the cache, under some key of the
    ticker: after a call that found nothing under the key, the key is in
    the cache. *)
Definition writes_back (f : string -> M Value) : Prop :=
  exists key : string -> string,
    forall ticker w, blank ticker = false -> cache w !! key ticker = None ->
      is_Some (cache (snd (f ticker w)) !! key ticker).

(** Two worlds with the same API and the same cache. *)
Record same_api_cache (w1 w2 : World) : Prop := {
  sac_api : forall url, api w1 url = api w2 url;
  sac_cache : cache w1 = cache w2;
}.

(** Two worlds that moreover agree on the current day (local midnight),
    the time zone and the engine's reading of dates.  The time of day, the
    spreadsheet and its note, and the log of requests are free. *)
Record same_inputs (w1 w2 : World) : Prop := {
  si_api : forall url, api w1 url = api w2 url;
  si_cache : cache w1 = cache w2;
  si_today : today w1 = today w2;
  si_tz : tz w1 = tz w2;
  si_engine : forall s, engine_date_parse w1 s = engine_date_parse w2 s;
}.

(** Run in worlds related by [R], [m1] and [m2] give the same outcome and
    leave related worlds. *)
Definition related (R : World -> World -> Prop) {A} (m1 m2 : M A) : Prop :=
  forall w1 w2, R w1 w2 -> fst (m1 w1) = fst (m2 w2) /\ R (snd (m1 w1)) (snd (m2 w2)).

(** The outcome of [m] is determined by what [R] fixes of the world. *)
Definition determined (R : World -> World -> Prop) {A} (m : M A) : Prop := related R m m.

(** The result of [f] is a function of the ticker and of what [R] fixes
    of the world. *)
Definition function_of (R : World -> World -> Prop) (f : string -> M Value) : Prop :=
  forall ticker w1 w2, R w1 w2 -> fst (f ticker w1) = fst (f ticker w2).

(** The strings the two date resolvers return instead of a date. *)
Definition date_resolver_messages : list string :=
  [ "Тикер не найден"; "Поле NEXTCOUPON отсутствует"; "Нет предстоящих купонов";
    "Поле MATDATE отсутствует"; "Дата погашения не определена"; "Ошибка скрипта" ].

Definition date_resolver_message (text : string) : Prop :=
  In text date_resolver_messages
  \/ exists code : Z, text = "Ошибка API: " +:+ JSString.of_Z code.

(** A value of a date resolver: when it is a string, it is one of the
    messages. *)
Definition message_or_date (v : Value) : Prop :=
  forall text, v = VStr text -> date_resolver_message text.

(** A string without control characters, quotes, backslashes or
    surrogates: JSON writes it between quotes as it is. *)
Fixpoint is_plain (s : string) : bool :=
  match s with
  | EmptyString => true
  | String c r =>
      let x := JSString.byte c in
      (32 <=? x) && negb (x =? 34) && negb (x =? 92) && negb (x =? 237) && is_plain r
  end.

(** Whatever [m] returns satisfies [P]. *)
Definition results_in {A} (P : A -> Prop) (m : M A) : Prop :=
  forall w a, fst (m w) = Returned a -> P a.

(** [m] returns: it does not throw, in any world. *)
Definition returns {A} (m : M A) : Prop := forall w, exists a, fst (m w) = Returned a.

(** [f] returns a value, whatever the ticker and the world. *)
Definition never_throws (f : string -> M Value) : Prop := forall ticker, returns (f ticker).

(** [f], cached under [key], returns a value when the cache has nothing
    under the key. *)
Definition returns_on_miss (f : string -> M Value) (key : string -> string) : Prop :=
  forall ticker w,
    is_Some (JSString.encodeURIComponent ticker) ->
    cache w !! key ticker = None ->
    exists v, fst (f ticker w) = Returned v.

(** [f] returns a value when the cache holds, under the key, the JSON
    text of a scalar. *)
Definition returns_on_json_hit (f : string -> M Value) (key : string -> string) : Prop :=
  forall ticker w text e j,
    cache w !! key ticker = Some (text, e) ->
    JSON.parse text = Some j -> is_scalar j = true ->
    exists v, fst (f ticker w) = Returned v.

(** A ticker [encodeURIComponent] accepts: one without a lone surrogate. *)
Definition encodable (ticker : string) : Prop :=
  is_Some (JSString.encodeURIComponent ticker).

(** [m] leaves the world as it is: nothing fetched, nothing cached. *)
Definition stateless {A} (m : M A) : Prop := forall w, snd (m w) = w.

(** ** Sample data

    Answers of the API and worlds the statements below are run on.  A
    block is written as the API sends it, and the text of an answer is the
    JSON text of its value. *)

Module Sample.

Definition block (columns : list string) (rows : list (list Json)) : Json :=
  JObj [("columns", JArr (map JStr columns)); ("data", JArr (map JArr rows))].

Definition ok (body : Json) : FetchBehaviour :=
  FetchReturns {| getResponseCode := 200; getContentText := JSON.stringify body |}.

Definition not_found : FetchBehaviour :=
  FetchReturns {| getResponseCode := 404; getContentText := "" |}.

Definition securities_of (ticker : string) : string :=
  "https://iss.moex.com/iss/engines/stock/markets/bonds/securities/" +:+ ticker
  +:+ ".json?iss.meta=off".

Definition bondization_of (ticker : string) : string :=
  "https://iss.moex.com/iss/securities/" +:+ ticker
  +:+ "/bondization.json?iss.meta=off&limit=unlimited".

(** An API that knows one ticker. *)
Definition api_of (ticker : string) (snapshot bondization : Json) (url : string)
  : FetchBehaviour :=
  if String.eqb url (securities_of ticker) then ok snapshot
  else if String.eqb url (bondization_of ticker) then ok bondization
  else not_found.

Definition num (m e : Z) : Json := JNum (make m e).

(** 2025-11-02, 08:00 in Moscow. *)
Definition morning : Z := 1762059600000.

Definition world (a : string -> FetchBehaviour) (time : Z) : World :=
  {| api := a; cache := ∅; now := time; tz := 10800000;
     engine_date_parse := fun _ => None; sheet := NoteForbidden "You do not have permission to call setNote";
     note := None; requests := [] |}.

(** marketdata = {LAST: null, CLOSEPRICE: 101.5}, securities = {PREVPRICE: 99} *)
Definition price_snapshot : Json :=
  JObj [ ("marketdata", block ["SECID"; "LAST"; "CLOSEPRICE"]
                              [[JStr "SU26207RMFS9"; JNull; num 1015 (-1)]]);
         ("securities", block ["SECID"; "PREVPRICE"]
                              [[JStr "SU26207RMFS9"; num 99 0]]) ].

Definition price_world : World :=
  world (api_of "SU26207RMFS9" price_snapshot JNull) morning.

Definition coupon (date value : Z) : Coupon.t :=
  {| Coupon.date := Some date; Coupon.value := Some (make value 0) |}.

(** Midnight of 2025-11-02 in Moscow, and a day in milliseconds. *)
Definition midnight : Z := 1762030800000.
Definition day : Z := 86400000.

(** Coupons as the API lists them, not in order of date. *)
Definition schedule : list Coupon.t :=
  [ coupon (midnight + day) 60; coupon (midnight - day) 50; coupon midnight 0 ].

(** The coupons block of the bondization feed for that schedule. *)
Definition coupon_rows : list Json :=
  [ JArr [JStr "2025-11-03"; num 60 0; JNull];
    JArr [JStr "2025-11-01"; JNull; num 50 0];
    JArr [JStr "2025-11-02"; num 0 0; num 0 0] ].

Definition coupon_feed : Json :=
  JObj [ ("coupons", JObj [ ("columns", JArr [JStr "coupondate"; JStr "value"; JStr "value_rub"]);
                            ("data", JArr coupon_rows) ]) ].

Definition coupon_world : World :=
  world (api_of "RU000A0JX0J2" JNull coupon_feed) morning.

(** The records [rows.map] makes of [coupon_rows]. *)
Definition coupon_records : list Coupon.t :=
  [ {| Coupon.date := Some 1762128000000; Coupon.value := Some (make 60 0) |};
    {| Coupon.date := Some 1761955200000; Coupon.value := Some (make 50 0) |};
    {| Coupon.date := Some 1762041600000; Coupon.value := Some (make 0 0) |} ].

(** An amortization on 2025-11-07 and an offer on 2025-11-12: five and
    ten days after 2025-11-02. *)
Definition event_feed : Json :=
  JObj [ ("amortizations", block ["amortdate"; "value"] [[JStr "2025-11-07"; num 250 0]]);
         ("offers", block ["offerdate"; "offertype"] [[JStr "2025-11-12"; JNull]]) ].

Definition event_world : World :=
  world (api_of "RU000A0JX0J2" JNull event_feed) morning.

(** A snapshot with every column the lookups read: a floater whose next
    coupon is not fixed yet (COUPONVALUE is 0) and whose maturity date is
    the API's "not applicable". *)
Definition full_snapshot : Json :=
  JObj [ ("marketdata", block ["SECID"; "LAST"; "CLOSEPRICE"]
                              [[JStr "SU26207RMFS9"; JNull; num 1015 (-1)]]);
         ("securities",
          block ["SECID"; "SHORTNAME"; "SECNAME"; "PREVPRICE"; "NEXTCOUPON"; "MATDATE"; "COUPONVALUE"]
                [[JStr "SU26207RMFS9"; JStr "ОФЗ 26207"; JStr "ОФЗ-ПД 26207 03/02/27";
                  num 99 0; JStr "2025-12-03"; JStr "0000-00-00"; num 0 0]]) ].

Definition bond_world : World :=
  world (api_of "SU26207RMFS9" full_snapshot coupon_feed) morning.

(** [bond_world] a day later: 2025-11-03, 08:00 in Moscow. *)
Definition next_morning : Z := morning + day.

Definition bond_world_next_day : World :=
  world (api_of "SU26207RMFS9" full_snapshot coupon_feed) next_morning.

(** [bond_world] in the afternoon of the same day, from a script that may
    set notes, after other requests. *)
Definition bond_world_afternoon : World :=
  {| api := api_of "SU26207RMFS9" full_snapshot coupon_feed; cache := ∅;
     now := morning + 7 * 3600000; tz := 10800000;
     engine_date_parse := fun _ => None; sheet := NoteAllowed;
     note := Some "old note"; requests := [securities_of "RU000A0JX0J2"] |}.

(** What the API answers for a ticker it does not know: 200, and blocks
    without rows. *)
Definition unknown_snapshot : Json :=
  JObj [ ("marketdata", block ["SECID"; "LAST"] []);
         ("securities", block ["SECID"; "NEXTCOUPON"; "MATDATE"] []) ].

Definition unknown_world : World :=
  world (api_of "NOSUCHBOND" unknown_snapshot JNull) morning.

End Sample.


(** *** Answers without data *)

(** The block [name] of an answer has no rows: the answer is an object
    without such a field, or the block is tabular and its [data] is
    empty (what the API sends for a ticker it does not know). *)
Definition no_rows (body : Json) (name : string) : bool :=
  match body with
  | JObj fs =>
      match lookup_field name fs with
      | None => true
      | Some _ =>
          match block_of body name with
          | Some b => match Block.data b with [] => true | _ :: _ => false end
          | None => false
          end
      end
  | _ => false
  end.

(** The first value that is truthy. *)
Fixpoint first_truthy (vs : list (option Json)) : option Json :=
  match vs with
  | [] => None
  | v :: r => if truthy v then v else first_truthy r
  end.

(** *** What a coupon can be *)

(** A value that, when it is a number, is not zero; and one that is
    neither zero nor NaN. *)
Definition nonzero_number (v : Value) : Prop :=
  forall n, v = VNum n -> is_zero n = false.

Definition meaningful_number (v : Value) : Prop :=
  forall n, v = VNum n -> meaningful (Some n) = true.

(** *** The kinds of results *)

(** A text that is not empty, a number or such a text, a Date or such a
    text. *)
Definition is_message (v : Value) : Prop := exists s, v = VStr s /\ s <> "".

Definition number_or_message (v : Value) : Prop := (exists n, v = VNum n) \/ is_message v.

Definition date_or_message (v : Value) : Prop := (exists d, v = VDate d) \/ is_message v.

(** *** What a lookup touches *)

(** [f] changes nothing of the world but the log of requests and the
    cache, and of the cache nothing but the entry under its own key for
    the ticker. *)
Definition touches_only (f : string -> M Value) (key : string -> string) : Prop :=
  forall ticker w,
    exists c new,
      snd (f ticker w) = with_cache c (with_requests (new ++ requests w)%list w)
      /\ (length new <= 2)%nat
      /\ forall k, k <> key ticker -> c !! k = cache w !! k.

(** What a resolver may do to the world: add at most two requests to the
    log. *)
Definition requests_only {A} (m : M A) : Prop :=
  forall w, exists new,
    snd (m w) = with_requests (new ++ requests w)%list w /\ (length new <= 2)%nat.

(** *** The characters of a URL *)

(** Every character of [s] satisfies [p]. *)
Fixpoint all_chars (p : ascii -> bool) (s : string) : bool :=
  match s with
  | EmptyString => true
  | String c r => p c && all_chars p r
  end.

(** What an encoded component is made of: unreserved characters and the
    per cent sign. *)
Definition is_uri_safe (c : ascii) : bool :=
  JSString.is_uri_unreserved c || Ascii.eqb c "%".

(** *** Numerals *)

(** The number a decimal numeral of the Standard Library denotes, read
    from the left after [acc]. *)
Fixpoint uint_value (acc : Z) (d : Decimal.uint) : Z :=
  match d with
  | Decimal.Nil => acc
  | Decimal.D0 r => uint_value (10 * acc) r
  | Decimal.D1 r => uint_value (10 * acc + 1) r
  | Decimal.D2 r => uint_value (10 * acc + 2) r
  | Decimal.D3 r => uint_value (10 * acc + 3) r
  | Decimal.D4 r => uint_value (10 * acc + 4) r
  | Decimal.D5 r => uint_value (10 * acc + 5) r
  | Decimal.D6 r => uint_value (10 * acc + 6) r
  | Decimal.D7 r => uint_value (10 * acc + 7) r
  | Decimal.D8 r => uint_value (10 * acc + 8) r
  | Decimal.D9 r => uint_value (10 * acc + 9) r
  end.

(** A value that, when it is a text, is a plain one. *)
Definition plain_text (v : Value) : Prop := forall s, v = VStr s -> is_plain s = true.

(** *** The forced recalculation *)

(** The cells of the data range, row by row. *)
Definition data_cells (d : Document) : list Range :=
  flat_map (fun i => map (fun j => (Z.of_nat i + 1, Z.of_nat j + 1)) (seq 0 (lastColumn d)))
           (seq 0 (lastRow d)).

(** The cells to recalculate: those of the data range whose formula
    holds a custom function. *)
Definition targets (d : Document) : list Range :=
  List.filter (fun cell => hasCustomFunction (upper_case d) (formula_of d (fst cell) (snd cell)))
              (data_cells d).

(** What is done to recalculate a cell: it is emptied, the sheet is
    flushed, the formula is written back, and the script waits. *)
Definition recalculation (d : Document) (cell : Range) : list Effect :=
  [ ClearContent (fst cell) (snd cell); Flush;
    SetFormula (fst cell) (snd cell) (formula_of d (fst cell) (snd cell)); Sleep DELAY_MS ].

(** Two documents with the same formulas, cell by cell, and the same
    data range. *)
Definition same_sheet (d d' : Document) : Prop :=
  (forall row column, formula_of d' row column = formula_of d row column)
  /\ lastRow d' = lastRow d /\ lastColumn d' = lastColumn d.

(** The time the script sleeps, in all. *)
Fixpoint slept (l : list Effect) : Z :=
  match l with
  | [] => 0
  | Sleep ms :: r => ms + slept r
  | _ :: r => slept r
  end.

(** A string character by character. *)
Fixpoint map_chars (f : ascii -> ascii) (s : string) : string :=
  match s with
  | EmptyString => EmptyString
  | String c r => String (f c) (map_chars f r)
  end.

Definition is_ascii (c : ascii) : bool := JSString.byte c <? 128.

(** A number as [make] gives it: zero is [Finite 0 0]; another finite
    number has no zero at the end of its digits and lies in the range of
    the doubles. *)
Definition canonical (n : Number) : Prop :=
  match n with
  | Finite m e =>
      (m = 0 /\ e = 0)
      \/ (m mod 10 <> 0 /\ overflows (Z.abs m) e = false /\ underflows (Z.abs m) e = false)
  | _ => True
  end.

Definition canonical_number (v : Value) : Prop :=
  forall n, v = VNum n -> canonical n.

Definition canonical_coupon (c : Coupon.t) : Prop :=
  forall n, Coupon.value c = Some n -> canonical n.

(** What a number reads back as out of its JSON text: NaN and the
    infinities are written [null]. *)
Definition through_json (n : Number) : Value :=
  if is_finite n then VNum n else VNull.

(** The text does not go on with a digit. *)
Definition no_digit_head (s : string) : Prop :=
  match s with
  | String c _ => JSString.is_digit c = false
  | EmptyString => True
  end.

(** [JSON.read_number] in two steps: the sign, then [read_unsigned] for
    the digits, the fraction and the exponent. *)
Definition int_ok (ip : string) : bool :=
  match ip with
  | EmptyString => false
  | String "0" (String _ _) => false
  | _ => true
  end.

Definition read_unsigned (sg : Z) (r0 : string) : option (Number * string) :=
  let '(ip, r1) := JSString.span_digits r0 in
  if negb (int_ok ip) then None
  else
    let frac :=
      match r1 with
      | String "." r =>
          let '(fp, r2) := JSString.span_digits r in
          if String.eqb fp "" then None else Some (fp, r2)
      | _ => Some (EmptyString, r1)
      end in
    match frac with
    | None => None
    | Some (fp, r2) =>
        let is_e := match r2 with
                    | String c _ => Ascii.eqb c "e" || Ascii.eqb c "E"
                    | EmptyString => false
                    end in
        if is_e then
          match read_exponent r2 with
          | Some (ex, r3) => Some (make (sg * JSString.digits_value (ip +:+ fp)) (ex - JSString.len fp), r3)
          | None => None
          end
        else Some (make (sg * JSString.digits_value (ip +:+ fp)) (- JSString.len fp), r2)
    end.

(** A snapshot whose last price is a dash, not a number. *)
Definition dash_world : World :=
  Sample.world
    (Sample.api_of "SU26207RMFS9"
       (JObj [ ("marketdata", Sample.block ["SECID"; "LAST"]
                                [[JStr "SU26207RMFS9"; JStr "-"]]);
               ("securities", Sample.block ["SECID"; "PREVPRICE"]
                                [[JStr "SU26207RMFS9"; Sample.num 99 0]]) ])
       JNull)
    Sample.morning.

(** A sheet of two rows and two columns: a price in B1, written in lower
    case, and a sum in B2. *)
Definition sample_sheet : Document :=
  {| formula_of := fun row column =>
       if (row =? 1) && (column =? 2) then "=get_moex_price(A1)"
       else if (row =? 2) && (column =? 2) then "=SUM(B1:B1)"
       else "";
     lastRow := 2; lastColumn := 2;
     upper_case := fun s => s;
     effects := [] |}.

(** *** A cached message and the engine *)

(** C10 as it is stated: a message that a call returned on a miss comes
    back from the hit that follows as an Invalid Date. *)
Definition error_comes_back_invalid (f : string -> M Value) (key : string -> string) : Prop :=
  forall ticker w message,
    blank ticker = false -> cache w !! key ticker = None ->
    fst (f ticker w) = Returned (VStr message) ->
    fst (f ticker (snd (f ticker w))) = Returned (VDate None).

(** An API that answers 404 to everything, under an engine whose own
    date parser skips the words before a number and takes the number for
    a year: it reads "Ошибка API: 404" as 1 January 404, 00:00 at
    +03:00. *)
Definition year_404 : Z := -49418218800000.

Definition legacy_world : World :=
  {| api := fun _ => Sample.not_found; cache := ∅; now := Sample.morning; tz := 10800000;
     engine_date_parse :=
       fun s => if String.eqb s "Ошибка API: 404" then Some year_404 else None;
     sheet := NoteForbidden "You do not have permission to call setNote";
     note := None; requests := [] |}.

(** *** The cells a run touches *)

(** The cells that the calls of a run empty, and the cells they write
    with the formulas written, in the order of the calls. *)
Fixpoint cells_cleared (l : list Effect) : list Range :=
  match l with
  | [] => []
  | ClearContent row column :: r => (row, column) :: cells_cleared r
  | _ :: r => cells_cleared r
  end.

Fixpoint cells_written (l : list Effect) : list (Range * string) :=
  match l with
  | [] => []
  | SetFormula row column formula :: r => ((row, column), formula) :: cells_written r
  | _ :: r => cells_written r
  end.

(** *** Numbers a double holds as they are written *)

(** A decimal of at most 15 significant digits within the range of the
    normal doubles: the double nearest to it is written back with these
    digits, so that the decimal the model keeps is the number the
    program has.  NaN and the infinities are the program's own. *)
Definition double_exact (n : Number) : Prop :=
  match n with
  | Finite m e =>
      let k := JSString.len (JSString.of_Z (Z.abs m)) in
      k <= 15 /\ -306 <= k + e <= 308
  | _ => True
  end.
(** * Properties *)

Import JSString JSNumber JSDate JS.

(** ** Numbers *)

Lemma strip_zeros_nonzero fuel m e :
  m <> 0 -> fst (strip_zeros fuel m e) <> 0.
Proof.
  revert m e. induction fuel as [|k IH]; intros m e Hm; simpl; [exact Hm|].
  destruct (m mod 10 =? 0) eqn:E; [|exact Hm].
  apply IH. apply Z.eqb_eq in E. intros H0.
  apply Hm. rewrite (Z.div_mod m 10) by lia. lia.
Qed.

(** [make] gives zero for zero and for what underflows, never else. *)
Lemma make_zero m e :
  is_zero (make m e) = true -> m = 0 \/ underflows (Z.abs m) e = true.
Proof.
  unfold make. destruct (m =? 0) eqn:E0; [apply Z.eqb_eq in E0; auto|].
  destruct (overflows (Z.abs m) e); [discriminate|].
  destruct (underflows (Z.abs m) e); [auto|].
  unfold normal. rewrite E0.
  pose proof (strip_zeros_nonzero (Z.to_nat (Z.log2 (Z.abs m))) m e) as H.
  destruct (strip_zeros _ m e) as [m' e']. simpl in *.
  intros Hz. apply Z.eqb_eq in Hz. apply Z.eqb_neq in E0. tauto.
Qed.

Lemma of_Z_is_zero z : is_zero (JSNumber.of_Z z) = (z =? 0).
Proof.
  destruct (z =? 0) eqn:E.
  - apply Z.eqb_eq in E. subst. reflexivity.
  - destruct (is_zero (JSNumber.of_Z z)) eqn:Hz; [|reflexivity].
    apply make_zero in Hz. destruct Hz as [Hz|Hz].
    + apply Z.eqb_neq in E. contradiction.
    + unfold underflows in Hz. simpl in Hz. discriminate.
Qed.

(** The [length] of an array with an element is not [0]. *)
Lemma length_nonzero n : is_zero (JSNumber.of_Z (Z.of_nat (S n))) = false.
Proof. rewrite of_Z_is_zero. apply Z.eqb_neq. lia. Qed.

(** ** Tabular blocks *)

Lemma block_of_inv body name b :
  block_of body name = Some b ->
  exists fs bfs, body = JObj fs /\ lookup_field name fs = Some (JObj bfs)
    /\ lookup_field "columns" bfs = Some (JArr (Block.columns b))
    /\ lookup_field "data" bfs = Some (JArr (Block.data b)).
Proof.
  unfold block_of. destruct body as [| | | | |fs]; try discriminate.
  destruct (lookup_field name fs) as [[| | | | |bfs]|] eqn:E1; try discriminate.
  destruct (lookup_field "columns" bfs) as [[| | | |cols|]|] eqn:E2; try discriminate.
  destruct (lookup_field "data" bfs) as [[| | | |rows|]|] eqn:E3; try discriminate.
  intros [= <-]. exists fs, bfs. auto.
Qed.

(** [row[columns.indexOf(name)]] on arrays is the value of the column. *)
Lemma cell_array cells cols name :
  cell (Some (JArr cells)) (Some (JArr cols)) name = Returned (column_value cols cells name).
Proof. reflexivity. Qed.

(** [parseFloat] of a scalar cell never throws. *)
Lemma parseFloat_scalar j :
  is_scalar j = true -> exists n, parseFloat (Some j) = Returned n.
Proof.
  unfold parseFloat.
  destruct j as [|[]| | | |]; try discriminate; intros _; cbn; eauto.
Qed.

(** Unfolds a fetch function down to the code after [JSON.parse]. *)
Ltac run_fetch Hurl Hapi Hparse :=
  unfold mbind, M_bind, lift, try_catch, UrlFetchApp_fetch;
  rewrite Hurl; simpl; rewrite Hapi; simpl;
  unfold JSON_parse; rewrite Hparse; cbn.

(** ** The price *)

(** C2: when the security snapshot answers 200 with a marketdata block and
    a securities block that each have a first row, [fetchSinglePriceInternal]
    returns [parseFloat] of the first value that is neither null nor
    undefined among marketdata.LAST, marketdata.CLOSEPRICE,
    securities.PREVLEGALCLOSEPRICE, securities.PREVPRICE (a missing column
    reads as undefined), and the string "Цена не найдена" when there is
    none.  ([parseFloat] of a scalar cell always returns, see
    [parseFloat_scalar]; where it throws, on an object cell, the [catch]
    answers "Ошибка скрипта".) *)
Theorem price_resolver_fallback ticker w url text body mb sb mcells mrest scells srest :
  securities_url ticker = Returned url ->
  api w url = FetchReturns {| getResponseCode := 200; getContentText := text |} ->
  JSON.parse text = Some body ->
  block_of body "marketdata" = Some mb -> Block.data mb = JArr mcells :: mrest ->
  block_of body "securities" = Some sb -> Block.data sb = JArr scells :: srest ->
  fst (fetchSinglePriceInternal ticker w) =
  Returned
    match first_defined
            [ column_value (Block.columns mb) mcells "LAST";
              column_value (Block.columns mb) mcells "CLOSEPRICE";
              column_value (Block.columns sb) scells "PREVLEGALCLOSEPRICE";
              column_value (Block.columns sb) scells "PREVPRICE" ] with
    | Some price =>
        match parseFloat (Some price) with
        | Returned n => VNum n
        | Thrown _ => VStr "Ошибка скрипта"
        end
    | None => VStr "Цена не найдена"
    end.
Proof.
  intros Hurl Hapi Hparse Hm Hmd Hs Hsd.
  apply block_of_inv in Hm as (fs & mfs & -> & Hm1 & Hm2 & Hm3).
  apply block_of_inv in Hs as (fs' & sfs & [= <-] & Hs1 & Hs2 & Hs3).
  rewrite Hmd in Hm3. rewrite Hsd in Hs3.
  unfold fetchSinglePriceInternal. run_fetch Hurl Hapi Hparse.
  rewrite Hm1, Hs1. cbn. rewrite Hm3, Hs3. cbn.
  rewrite !length_nonzero. rewrite Hm2, Hs2.
  change (Z.to_nat 0) with 0%nat. cbn [nth_error]. rewrite !cell_array.
  generalize (column_value (Block.columns mb) mcells "LAST") as a.
  generalize (column_value (Block.columns mb) mcells "CLOSEPRICE") as b.
  generalize (column_value (Block.columns sb) scells "PREVLEGALCLOSEPRICE") as c.
  generalize (column_value (Block.columns sb) scells "PREVPRICE") as d.
  intros d c b a. cbn.
  destruct (is_nullish a) eqn:Ea;
    [destruct (is_nullish b) eqn:Eb;
      [destruct (is_nullish c) eqn:Ec; [destruct (is_nullish d) eqn:Ed|]|]|];
  try reflexivity;
  match goal with
  | E : is_nullish ?x = false |- _ =>
      rewrite ?E; destruct x as [j|]; [|discriminate E];
      destruct (parseFloat (Some j)); reflexivity
  end.
Qed.

(** The example of C2: LAST is null, CLOSEPRICE is 101.5, PREVPRICE is 99;
    the price is 101.5. *)
Lemma price_resolver_fallback_witness :
  fst (fetchSinglePriceInternal "SU26207RMFS9" Sample.price_world)
  = Returned (VNum (Finite 1015 (-1))).
Proof.
  erewrite price_resolver_fallback; [ | vm_compute; reflexivity .. ].
  vm_compute. reflexivity.
Defined.

(** ** Sorting by date *)

Section SortByDate.
Context {A : Type} (key : A -> option Z).

Let compare (a b : A) : option Z := JSDate.sub (key a) (key b).

Lemma sort_insert_permutation x l : Permutation (x :: l) (sort_insert compare x l).
Proof.
  induction l as [|y r IH]; simpl; [reflexivity|].
  destruct (comes_after compare y x); [reflexivity|].
  rewrite perm_swap. now apply perm_skip.
Qed.

Lemma Array_sort_permutation_from l acc :
  Permutation (acc ++ l)%list (fold_left (fun acc x => sort_insert compare x acc) l acc).
Proof.
  revert acc. induction l as [|x r IH]; intros acc; simpl.
  - now rewrite app_nil_r.
  - etransitivity; [|apply IH].
    etransitivity; [symmetry; apply Permutation_middle|].
    apply (Permutation_app_tail r (sort_insert_permutation x acc)).
Qed.

(** Sorting keeps the elements. *)
Lemma Array_sort_permutation l : Permutation l (Array_sort compare l).
Proof. exact (Array_sort_permutation_from l []). Qed.

Lemma comes_after_valid a b x y :
  key a = Some x -> key b = Some y -> comes_after compare a b = (y <? x).
Proof.
  intros Ha Hb. unfold comes_after, compare. rewrite Ha, Hb. simpl.
  destruct (0 <? x - y) eqn:E1, (y <? x) eqn:E2; try reflexivity; lia.
Qed.

Lemma sort_insert_dated x l :
  dated key x -> Forall (dated key) l -> Forall (dated key) (sort_insert compare x l).
Proof.
  intros Hx Hl. eapply Permutation_Forall; [apply sort_insert_permutation|].
  now constructor.
Qed.

Lemma sort_insert_ascending x l :
  dated key x -> Forall (dated key) l ->
  ascending (map key l) -> ascending (map key (sort_insert compare x l)).
Proof.
  intros [kx Hx] Hd. unfold ascending.
  induction l as [|y r IH]; simpl; intros Hs.
  - constructor; constructor.
  - apply StronglySorted_inv in Hs as [Hr Hy].
    apply Forall_cons_iff in Hd as [[ky Hky] Hd].
    rewrite (comes_after_valid y x ky kx Hky Hx).
    destruct (kx <? ky) eqn:E.
    + simpl. constructor.
      * constructor; assumption.
      * constructor.
        -- rewrite Hx, Hky. simpl. lia.
        -- eapply List.Forall_impl; [|exact Hy].
           intros [k|]; rewrite Hx, Hky; simpl; [lia|tauto].
    + simpl. constructor; [apply IH; assumption|].
      apply List.Forall_map. eapply Permutation_Forall; [apply sort_insert_permutation|].
      constructor.
      * rewrite Hx, Hky. simpl. lia.
      * now apply (proj1 (List.Forall_map key (date_le (key y)) r)).
Qed.

Lemma Array_sort_ascending_from l acc :
  Forall (dated key) l -> Forall (dated key) acc -> ascending (map key acc) ->
  ascending (map key (fold_left (fun acc x => sort_insert compare x acc) l acc)).
Proof.
  revert acc. induction l as [|x r IH]; intros acc Hl Hacc Hs; simpl; [exact Hs|].
  apply Forall_cons_iff in Hl as [Hx Hr].
  apply IH; [exact Hr| now apply sort_insert_dated | now apply sort_insert_ascending].
Qed.

(** Sorting records that all have a valid date puts the dates in
    ascending order. *)
Lemma Array_sort_ascending l :
  Forall (dated key) l -> ascending (map key (Array_sort compare l)).
Proof.
  intros Hl. apply Array_sort_ascending_from; [exact Hl|constructor|constructor].
Qed.

End SortByDate.

(** ** The coupon schedule scan *)

Import CouponSpec.

(** On a record with a valid date, "not on or after today" is "strictly
    before today". *)
Lemma ge_strictly_before t c :
  is_Some (Coupon.date c) ->
  JSDate.ge (Coupon.date c) (Some t) = negb (strictly_before t c).
Proof.
  intros [d Hd]. unfold strictly_before. rewrite Hd. simpl.
  destruct (t <=? d) eqn:E1, (d <? t) eqn:E2; try reflexivity; lia.
Qed.

(** The loop, started with [known] remembered, against the words of the
    specification. *)
Lemma coupon_loop_spec t coupons known :
  Forall (fun c => is_Some (Coupon.date c)) coupons ->
  coupon_loop (Some t) coupons known =
  let '(past, rest) := span (strictly_before t) coupons in
  let last :=
    fold_left (fun known c => if meaningful (Coupon.value c) then Coupon.value c else known)
              past known in
  match rest with
  | next :: _ =>
      match Coupon.value next with
      | Some v => if meaningful (Some v) then inl v else inr last
      | None => inr last
      end
  | [] => inr last
  end.
Proof.
  intros Hd. revert known. induction Hd as [|c r Hc Hr IH]; intros known; [reflexivity|].
  simpl. rewrite (ge_strictly_before t c Hc).
  destruct (strictly_before t c) eqn:E; simpl.
  - rewrite IH. destruct (span (strictly_before t) r) as [past rest]. reflexivity.
  - destruct (Coupon.value c) as [v|]; reflexivity.
Qed.

Lemma scan_coupons_spec t coupons :
  Forall (fun c => is_Some (Coupon.date c)) coupons ->
  scan_coupons (Some t) coupons = expected t coupons.
Proof.
  intros Hd. unfold scan_coupons, expected, remembered.
  rewrite (coupon_loop_spec t coupons None Hd).
  destruct (span (strictly_before t) coupons) as [past rest].
  destruct rest as [|next rest']; [reflexivity|].
  destruct (Coupon.value next) as [v|]; [|reflexivity].
  destruct (meaningful (Some v)); reflexivity.
Qed.

(** From the answer of the bondization feed to the scan: with a coupons
    block that has a [coupondate] column and rows the callback of [map]
    accepts, [fetchCouponFromBondization] scans the mapped records sorted
    by date, and fetches nothing else. *)
Lemma fetchCouponFromBondization_scan ticker w url text body b mapped :
  bondization_url ticker = Returned url ->
  api w url = FetchReturns {| getResponseCode := 200; getContentText := text |} ->
  JSON.parse text = Some body ->
  block_of body "coupons" = Some b ->
  array_index_of "coupondate" (Block.columns b) 0 <> -1 ->
  map_outcome (coupon_of_row w (array_index_of "coupondate" (Block.columns b) 0)
                 (array_index_of "value" (Block.columns b) 0)
                 (array_index_of "value_rub" (Block.columns b) 0)) (Block.data b)
  = Returned mapped ->
  fetchCouponFromBondization ticker w =
  (Returned (scan_coupons (today w) (Array_sort by_coupon_date mapped)),
   with_requests (url :: requests w) w).
Proof.
  intros Hurl Hapi Hparse Hb Hidx Hmap.
  apply block_of_inv in Hb as (fs & bfs & -> & Hb1 & Hb2 & Hb3).
  unfold fetchCouponFromBondization. run_fetch Hurl Hapi Hparse.
  rewrite Hb1. cbn. rewrite Hb2, Hb3. cbn.
  apply Z.eqb_neq in Hidx. rewrite Hidx. cbn.
  change (coupon_of_row (with_requests (url :: requests w) w)) with (coupon_of_row w).
  rewrite Hmap. reflexivity.
Qed.

(** C1: with a coupons block whose dates all parse, the records
    [fetchCouponFromBondization] scans are the mapped rows in ascending
    order of date, and the scan does what the specification says: every
    record strictly before today whose value is non-null, non-NaN and
    non-zero overwrites the last-known value; the first record on or after
    today gives its value when that is non-null, non-NaN and non-zero, and
    ends the scan otherwise, whatever follows it, with the last-known value
    or "Купон не определен".  For [(yesterday, 50), (today, 0),
    (tomorrow, 60)] the result is 50. *)
Theorem coupon_schedule_scan :
  (forall ticker w url text body b mapped,
     bondization_url ticker = Returned url ->
     api w url = FetchReturns {| getResponseCode := 200; getContentText := text |} ->
     JSON.parse text = Some body ->
     block_of body "coupons" = Some b ->
     array_index_of "coupondate" (Block.columns b) 0 <> -1 ->
     map_outcome (coupon_of_row w (array_index_of "coupondate" (Block.columns b) 0)
                    (array_index_of "value" (Block.columns b) 0)
                    (array_index_of "value_rub" (Block.columns b) 0)) (Block.data b)
     = Returned mapped ->
     Forall (fun c => is_Some (Coupon.date c)) mapped ->
     exists coupons,
       Permutation mapped coupons
       /\ ascending (map Coupon.date coupons)
       /\ fst (fetchCouponFromBondization ticker w)
          = Returned (expected (JSDate.start_of_local_day (tz w) (now w)) coupons))
  /\ (forall t : Z,
        scan_coupons (Some t)
          [ {| Coupon.date := Some (t - 86400000); Coupon.value := Some (make 50 0) |};
            {| Coupon.date := Some t; Coupon.value := Some (make 0 0) |};
            {| Coupon.date := Some (t + 86400000); Coupon.value := Some (make 60 0) |} ]
        = VNum (make 50 0)).
Proof.
  split.
  - intros ticker w url text body b mapped Hurl Hapi Hparse Hb Hidx Hmap Hd.
    exists (Array_sort by_coupon_date mapped). split; [|split].
    + apply (Array_sort_permutation Coupon.date).
    + apply (Array_sort_ascending Coupon.date). exact Hd.
    + rewrite (fetchCouponFromBondization_scan _ _ _ _ _ _ _ Hurl Hapi Hparse Hb Hidx Hmap).
      simpl. f_equal. apply scan_coupons_spec.
      eapply Permutation_Forall; [apply (Array_sort_permutation Coupon.date)|exact Hd].
  - intros t. unfold scan_coupons. simpl.
    replace (t <=? t - 86400000) with false by (symmetry; apply Z.leb_gt; lia).
    rewrite Z.leb_refl. reflexivity.
Qed.

(** The schedule of [Sample.coupon_world]: coupons of 60 on 2025-11-03,
    50 on 2025-11-01 and 0 on 2025-11-02, asked for on 2025-11-02. *)
Lemma coupon_schedule_scan_witness :
  exists coupons,
    Permutation Sample.coupon_records coupons
    /\ ascending (map Coupon.date coupons)
    /\ fst (fetchCouponFromBondization "RU000A0JX0J2" Sample.coupon_world)
       = Returned (expected (JSDate.start_of_local_day (tz Sample.coupon_world)
                                                       (now Sample.coupon_world)) coupons).
Proof.
  apply (proj1 coupon_schedule_scan "RU000A0JX0J2" Sample.coupon_world
           (Sample.bondization_of "RU000A0JX0J2")
           (JSON.stringify Sample.coupon_feed) Sample.coupon_feed
           {| Block.columns := [JStr "coupondate"; JStr "value"; JStr "value_rub"];
              Block.data := Sample.coupon_rows |}
           Sample.coupon_records).
  - vm_compute. reflexivity.
  - vm_compute. reflexivity.
  - vm_compute. reflexivity.
  - vm_compute. reflexivity.
  - vm_compute. discriminate.
  - vm_compute. reflexivity.
  - repeat constructor; eexists; reflexivity.
Defined.

(** In that world the coupon is the 50 of 2025-11-01. *)
Example coupon_schedule_scan_sample :
  fst (fetchCouponFromBondization "RU000A0JX0J2" Sample.coupon_world)
  = Returned (VNum (make 50 0)).
Proof. vm_compute. reflexivity. Qed.

(** ** Blank tickers *)

Lemma cached_lookups_blank : Forall blank_returns_null cached_lookups.
Proof.
  repeat constructor; intros ticker w Hb;
    [ unfold GET_MOEX_PRICE | unfold GET_NEXT_COUPON | unfold GET_MOEX_NAME
    | unfold GET_COUPON_VALUE | unfold GET_MATURITY_DATE ];
    rewrite Hb; reflexivity.
Qed.

(** C3, as amended: for a ticker that is empty or white space only,
    [GET_MOEX_PRICE], [GET_NEXT_COUPON], [GET_MOEX_NAME], [GET_COUPON_VALUE]
    and [GET_MATURITY_DATE] return null and leave the world as it is (no
    request, nothing cached); [GET_NEAREST_OPTION_DATE] has a guard of its
    own, [if (!ticker) return 'Укажите тикер'], and answers the empty
    ticker with that string, again without a request. *)
Theorem blank_ticker_short_circuit :
  Forall blank_returns_null cached_lookups
  /\ (forall w, GET_NEAREST_OPTION_DATE "" w = (Returned (VStr "Укажите тикер"), w)).
Proof.
  split; [exact cached_lookups_blank | reflexivity].
Qed.

(** Three spaces, to [GET_MOEX_PRICE]. *)
Lemma blank_ticker_short_circuit_witness :
  blank "   " = true
  /\ GET_MOEX_PRICE "   " Sample.price_world = (Returned VNull, Sample.price_world).
Proof.
  split; [reflexivity|].
  apply (Forall_inv (proj1 blank_ticker_short_circuit)). reflexivity.
Defined.

(** C3 as stated fails on [GET_NEAREST_OPTION_DATE]: the empty ticker gets
    the string "Укажите тикер", not null; and a ticker of one space is sent
    to the API. *)
Lemma blank_ticker_counterexample :
  blank "" = true
  /\ fst (GET_NEAREST_OPTION_DATE "" Sample.price_world) = Returned (VStr "Укажите тикер")
  /\ blank " " = true
  /\ requests (snd (GET_NEAREST_OPTION_DATE " " Sample.price_world))
     = [ "https://iss.moex.com/iss/securities/%20/bondization.json?iss.meta=off&limit=unlimited" ]
  /\ ~ blank_returns_null GET_NEAREST_OPTION_DATE.
Proof.
  repeat split; try reflexivity.
  intros H. specialize (H "" Sample.price_world eq_refl). discriminate H.
Qed.

(** ** What a computation does to the world *)

Lemma stateless_ret {A} (a : A) : stateless (mret a).
Proof. intros w. reflexivity. Qed.

Lemma stateless_lift {A} (x : Outcome A) : stateless (lift x).
Proof. intros w. reflexivity. Qed.

Lemma stateless_ask : stateless ask.
Proof. intros w. reflexivity. Qed.

Lemma stateless_bind {A B} (m : M A) (k : A -> M B) :
  stateless m -> (forall a, stateless (k a)) -> stateless (m ≫= k).
Proof.
  intros Hm Hk w. unfold mbind, M_bind. specialize (Hm w).
  destruct (m w) as [[a|e] w']; simpl in *; subst; [apply Hk | reflexivity].
Qed.

Lemma stateless_try_catch {A} (body : M A) (handler : Exn -> M A) :
  stateless body -> (forall e, stateless (handler e)) -> stateless (try_catch body handler).
Proof.
  intros Hb Hh w. unfold try_catch. specialize (Hb w).
  destruct (body w) as [[a|e] w']; simpl in *; subst; [reflexivity | apply Hh].
Qed.

(** Decomposes a goal [stateless m] along the structure of [m]. *)
Ltac stateless_tac :=
  repeat first
    [ apply stateless_ret | apply stateless_lift | apply stateless_ask
    | apply stateless_bind; [|intros ?]
    | apply stateless_try_catch; [|intros ?]
    | match goal with
      | |- stateless (if ?b then _ else _) => destruct b
      | |- stateless (match ?x with _ => _ end) => destruct x
      | |- stateless (let _ := _ in _) => cbv zeta
      end ].

Lemma restore_json_stateless text : stateless (restore_json text).
Proof. unfold restore_json. stateless_tac. Qed.

Lemma restore_date_stateless text : stateless (restore_date text).
Proof. unfold restore_date. stateless_tac. Qed.

(** After its one request [fetchBondOptionDatesInternal] only computes. *)
Lemma fetchBondOptionDatesInternal_world ticker url w :
  bondization_url ticker = Returned url ->
  snd (fetchBondOptionDatesInternal ticker w) = with_requests (url :: requests w) w.
Proof.
  intros Hurl. unfold fetchBondOptionDatesInternal.
  unfold mbind at 1. unfold M_bind at 1. unfold lift at 1. rewrite Hurl.
  unfold try_catch. unfold mbind at 1. unfold M_bind at 1. unfold UrlFetchApp_fetch.
  destruct (api w url) as [msg|response]; [reflexivity|].
  match goal with
  | |- snd (let (o, w') := ?m ?w0 in _) = _ =>
      assert (Hs : stateless m); [| specialize (Hs w0); destruct (m w0) as [[a|e] w']; simpl in *; subst; reflexivity ]
  end.
  stateless_tac.
Qed.

(** ** Caching *)

(** Unfolds a cached lookup at a ticker that is not blank. *)
Ltac run_lookup Hb :=
  rewrite Hb; unfold mbind, M_bind, cache_get; cbn.

Lemma GET_MOEX_PRICE_caches :
  caches GET_MOEX_PRICE (fun t => t) 300 fetchSinglePriceInternal (fun r => r)
         (fun r => Returned (JSON_stringify r)) restore_json.
Proof.
  intros ticker w Hb. split.
  - intros text e Hc. unfold GET_MOEX_PRICE. run_lookup Hb. rewrite Hc. reflexivity.
  - intros Hc r w1 text Hr [= <-]. unfold GET_MOEX_PRICE. run_lookup Hb.
    rewrite Hc. cbn. rewrite Hr. reflexivity.
Qed.

Lemma GET_NEXT_COUPON_caches :
  caches GET_NEXT_COUPON (fun t => t +:+ "_coupon") 21600 fetchNextCouponInternal
         (fun r => r) (fun r => Returned (JSON_stringify r)) restore_date.
Proof.
  intros ticker w Hb. split.
  - intros text e Hc. unfold GET_NEXT_COUPON. run_lookup Hb. rewrite Hc. reflexivity.
  - intros Hc r w1 text Hr [= <-]. unfold GET_NEXT_COUPON. run_lookup Hb.
    rewrite Hc. cbn. rewrite Hr. reflexivity.
Qed.

Lemma GET_MOEX_NAME_caches :
  caches GET_MOEX_NAME (fun t => t +:+ "_name") 86400 fetchBondNameInternal
         VData toString_json restore_text.
Proof.
  intros ticker w Hb. split.
  - intros text e Hc. unfold GET_MOEX_NAME. run_lookup Hb. rewrite Hc. reflexivity.
  - intros Hc r w1 text Hr Hs. unfold GET_MOEX_NAME. run_lookup Hb.
    rewrite Hc. cbn. rewrite Hr. unfold lift. rewrite Hs. reflexivity.
Qed.

Lemma GET_COUPON_VALUE_caches :
  caches GET_COUPON_VALUE (fun t => t +:+ "_coupon_value_v3") 21600 fetchCouponValueInternal
         (fun r => r) (fun r => Returned (JSON_stringify r)) restore_json.
Proof.
  intros ticker w Hb. split.
  - intros text e Hc. unfold GET_COUPON_VALUE. run_lookup Hb. rewrite Hc. reflexivity.
  - intros Hc r w1 text Hr [= <-]. unfold GET_COUPON_VALUE. run_lookup Hb.
    rewrite Hc. cbn. rewrite Hr. reflexivity.
Qed.

Lemma GET_MATURITY_DATE_caches :
  caches GET_MATURITY_DATE (fun t => t +:+ "_maturity") 86400 fetchMaturityDateInternal
         (fun r => r) (fun r => Returned (JSON_stringify r)) restore_date.
Proof.
  intros ticker w Hb. split.
  - intros text e Hc. unfold GET_MATURITY_DATE. run_lookup Hb. rewrite Hc. reflexivity.
  - intros Hc r w1 text Hr [= <-]. unfold GET_MATURITY_DATE. run_lookup Hb.
    rewrite Hc. cbn. rewrite Hr. reflexivity.
Qed.

Lemma with_note_same w : with_note (note w) w = w.
Proof. destruct w; reflexivity. Qed.

(** What a call of [GET_NEAREST_OPTION_DATE] does to the world: one
    request, and possibly a note. *)
Lemma GET_NEAREST_OPTION_DATE_world ticker url w :
  ticker <> "" ->
  bondization_url ticker = Returned url ->
  exists n,
    snd (GET_NEAREST_OPTION_DATE ticker w) = with_note n (with_requests (url :: requests w) w).
Proof.
  intros Hne Hurl. unfold GET_NEAREST_OPTION_DATE.
  apply String.eqb_neq in Hne. rewrite Hne.
  unfold mbind at 1. unfold M_bind at 1.
  pose proof (fetchBondOptionDatesInternal_world ticker url w Hurl) as Hw.
  destruct (fetchBondOptionDatesInternal ticker w) as [[[text|date remark]|e] w1];
    simpl in Hw; subst w1;
    try (exists (note w); symmetry; apply (with_note_same (with_requests (url :: requests w) w))).
  unfold mbind, M_bind, try_catch, SpreadsheetApp_getActiveSpreadsheet,
    SpreadsheetApp_getActiveRange, range_setNote. cbn.
  destruct (sheet w) eqn:Hs; cbn; rewrite ?Hs; cbn; rewrite ?Hs; cbn;
    try (exists (note w); symmetry; apply (with_note_same (with_requests (url :: requests w) w))).
  exists (Some remark). reflexivity.
Qed.

(** [GET_NEAREST_OPTION_DATE] has no cache: every call for a ticker that
    is not empty asks the API, whatever the cache holds, and the cache is
    left as it was. *)
Lemma GET_NEAREST_OPTION_DATE_uncached ticker url w :
  ticker <> "" ->
  bondization_url ticker = Returned url ->
  requests (snd (GET_NEAREST_OPTION_DATE ticker w)) = url :: requests w
  /\ cache (snd (GET_NEAREST_OPTION_DATE ticker w)) = cache w.
Proof.
  intros Hne Hurl.
  destruct (GET_NEAREST_OPTION_DATE_world ticker url w Hne Hurl) as [n ->].
  split; reflexivity.
Qed.

(** C4, as amended: [GET_MOEX_PRICE], [GET_NEXT_COUPON], [GET_MOEX_NAME],
    [GET_COUPON_VALUE] and [GET_MATURITY_DATE] each look their key up in
    the cache first.  On a hit they answer from the cached text alone,
    without a request and without touching the cache: the price and the
    coupon value return the parsed text, the name returns the text, the
    two dates return [new Date] of the parsed text when it is truthy and
    "Нет данных" otherwise.  On a miss they run their resolver, put its
    result (as JSON text; the name as it is) under the key with the
    function's expiration, and return the result.
    [GET_NEAREST_OPTION_DATE] has no cache: each call for a ticker that is
    not empty sends its request, and the cache is left as it was. *)
Theorem lookup_caching :
  caches GET_MOEX_PRICE (fun t => t) 300 fetchSinglePriceInternal (fun r => r)
         (fun r => Returned (JSON_stringify r)) restore_json
  /\ caches GET_NEXT_COUPON (fun t => t +:+ "_coupon") 21600 fetchNextCouponInternal
            (fun r => r) (fun r => Returned (JSON_stringify r)) restore_date
  /\ caches GET_MOEX_NAME (fun t => t +:+ "_name") 86400 fetchBondNameInternal
            VData toString_json restore_text
  /\ caches GET_COUPON_VALUE (fun t => t +:+ "_coupon_value_v3") 21600 fetchCouponValueInternal
            (fun r => r) (fun r => Returned (JSON_stringify r)) restore_json
  /\ caches GET_MATURITY_DATE (fun t => t +:+ "_maturity") 86400 fetchMaturityDateInternal
            (fun r => r) (fun r => Returned (JSON_stringify r)) restore_date
  /\ (forall text,
        stateless (restore_json text) /\ stateless (restore_date text)
        /\ stateless (restore_text text))
  /\ (forall ticker url w,
        ticker <> "" -> bondization_url ticker = Returned url ->
        requests (snd (GET_NEAREST_OPTION_DATE ticker w)) = url :: requests w
        /\ cache (snd (GET_NEAREST_OPTION_DATE ticker w)) = cache w).
Proof.
  repeat split.
  all: try (apply GET_MOEX_PRICE_caches || apply GET_NEXT_COUPON_caches
            || apply GET_MOEX_NAME_caches || apply GET_COUPON_VALUE_caches
            || apply GET_MATURITY_DATE_caches); try assumption.
  all: try (apply restore_json_stateless || apply restore_date_stateless).
  all: try (eapply GET_NEAREST_OPTION_DATE_uncached; eassumption).
Qed.

(** A miss and then a hit of [GET_MOEX_PRICE] in [Sample.price_world]: the
    first call caches the text [101.5] for 300 seconds, the second answers
    from it. *)
Lemma lookup_caching_witness :
  let w1 := snd (GET_MOEX_PRICE "SU26207RMFS9" Sample.price_world) in
  GET_MOEX_PRICE "SU26207RMFS9" Sample.price_world
  = (Returned (VNum (make 1015 (-1))),
     with_cache (<["SU26207RMFS9" := ("101.5", 300)]> ∅)
       (with_requests [Sample.securities_of "SU26207RMFS9"] Sample.price_world))
  /\ GET_MOEX_PRICE "SU26207RMFS9" w1 = restore_json "101.5" w1.
Proof.
  intros w1. split.
  - apply (proj2 (proj1 lookup_caching "SU26207RMFS9" Sample.price_world eq_refl));
      vm_compute; reflexivity.
  - apply (proj1 (proj1 lookup_caching "SU26207RMFS9" w1 eq_refl) "101.5" 300).
    vm_compute. reflexivity.
Defined.

(** C4 as stated fails on [GET_NEAREST_OPTION_DATE]: in
    [Sample.event_world], where the cache is empty, it resolves a date and
    writes nothing back; a second call sends the request again. *)
Lemma lookup_caching_counterexample :
  fst (GET_NEAREST_OPTION_DATE "RU000A0JX0J2" Sample.event_world)
  = Returned (VDate (Some 1762473600000))
  /\ cache (snd (GET_NEAREST_OPTION_DATE "RU000A0JX0J2" Sample.event_world)) = ∅
  /\ requests (snd (GET_NEAREST_OPTION_DATE "RU000A0JX0J2"
                     (snd (GET_NEAREST_OPTION_DATE "RU000A0JX0J2" Sample.event_world))))
     = [ Sample.bondization_of "RU000A0JX0J2"; Sample.bondization_of "RU000A0JX0J2" ]
  /\ ~ writes_back GET_NEAREST_OPTION_DATE.
Proof.
  assert (Hc : cache (snd (GET_NEAREST_OPTION_DATE "RU000A0JX0J2" Sample.event_world)) = ∅).
  { apply (GET_NEAREST_OPTION_DATE_uncached "RU000A0JX0J2"
             (Sample.bondization_of "RU000A0JX0J2")); [discriminate | reflexivity]. }
  split; [vm_compute; reflexivity|].
  split; [exact Hc|].
  split; [vm_compute; reflexivity|].
  intros [key Hkey].
  specialize (Hkey "RU000A0JX0J2" Sample.event_world eq_refl (lookup_empty _)).
  rewrite Hc, lookup_empty in Hkey. destruct Hkey as [x Hx]. discriminate Hx.
Qed.

(** ** Returning *)

Lemma returns_ret {A} (a : A) : returns (mret a).
Proof. intros w. exists a. reflexivity. Qed.

Lemma returns_lift {A} (a : A) : returns (lift (Returned a)).
Proof. intros w. exists a. reflexivity. Qed.

Lemma returns_bind {A B} (m : M A) (k : A -> M B) :
  returns m -> (forall a, returns (k a)) -> returns (m ≫= k).
Proof.
  intros Hm Hk w. unfold mbind, M_bind. destruct (Hm w) as [a Ha].
  destruct (m w) as [[a'|e] w']; simpl in Ha; [|discriminate]. apply Hk.
Qed.

(** A [try] whose [catch] returns, returns. *)
Lemma returns_try_catch {A} (body : M A) (handler : Exn -> M A) :
  (forall e, returns (handler e)) -> returns (try_catch body handler).
Proof.
  intros Hh w. unfold try_catch. destruct (body w) as [[a|e] w']; [|apply Hh].
  exists a. reflexivity.
Qed.

Lemma encodable_securities_url ticker :
  encodable ticker -> exists url, securities_url ticker = Returned url.
Proof. intros [t Ht]. unfold securities_url. rewrite Ht. eauto. Qed.

Lemma encodable_bondization_url ticker :
  encodable ticker -> exists url, bondization_url ticker = Returned url.
Proof. intros [t Ht]. unfold bondization_url. rewrite Ht. eauto. Qed.

(** Every fetch function is [url <- ...; try { ... } catch (e) { return
    ... }]: once the URL is built, it returns. *)
Ltac fetch_returns f :=
  let Henc := fresh "Henc" in
  let url := fresh "url" in
  let Hurl := fresh "Hurl" in
  intros Henc;
  first [ destruct (encodable_securities_url _ Henc) as [url Hurl]
        | destruct (encodable_bondization_url _ Henc) as [url Hurl] ];
  unfold f; rewrite Hurl;
  apply returns_bind; [apply returns_lift|];
  intros ?; apply returns_try_catch; intros ?; apply returns_ret.

Lemma fetchSinglePriceInternal_returns ticker :
  encodable ticker -> returns (fetchSinglePriceInternal ticker).
Proof. fetch_returns fetchSinglePriceInternal. Qed.

Lemma fetchNextCouponInternal_returns ticker :
  encodable ticker -> returns (fetchNextCouponInternal ticker).
Proof. fetch_returns fetchNextCouponInternal. Qed.

Lemma fetchBondNameInternal_returns ticker :
  encodable ticker -> returns (fetchBondNameInternal ticker).
Proof. fetch_returns fetchBondNameInternal. Qed.

Lemma fetchMaturityDateInternal_returns ticker :
  encodable ticker -> returns (fetchMaturityDateInternal ticker).
Proof. fetch_returns fetchMaturityDateInternal. Qed.

Lemma fetchCouponFromBondization_returns ticker :
  encodable ticker -> returns (fetchCouponFromBondization ticker).
Proof.
  intros Henc. destruct (encodable_bondization_url _ Henc) as [url Hurl].
  unfold fetchCouponFromBondization. rewrite Hurl.
  apply returns_bind; [apply returns_lift|].
  intros ?; apply returns_try_catch; intros ?; apply returns_ret.
Qed.

Lemma fetchCouponValueInternal_returns ticker :
  encodable ticker -> returns (fetchCouponValueInternal ticker).
Proof. fetch_returns fetchCouponValueInternal. Qed.

Lemma fetchBondOptionDatesInternal_returns ticker :
  encodable ticker -> returns (fetchBondOptionDatesInternal ticker).
Proof.
  intros Henc. destruct (encodable_bondization_url _ Henc) as [url Hurl].
  unfold fetchBondOptionDatesInternal. rewrite Hurl.
  apply returns_bind; [apply returns_lift|].
  intros ?; apply returns_try_catch; intros ?; apply returns_ret.
Qed.

(** Without the URL there is no [try] yet: the exception of
    [encodeURIComponent] leaves the function. *)
Lemma fetch_throws_unencodable ticker w :
  JSString.encodeURIComponent ticker = None ->
  fst (fetchSinglePriceInternal ticker w) = Thrown (URIError "URI malformed").
Proof.
  intros H. unfold fetchSinglePriceInternal, securities_url. rewrite H. reflexivity.
Qed.

Lemma toString_scalar j : is_scalar j = true -> exists s, toString_json j = Returned s.
Proof. destruct j as [|[]| | | |]; try discriminate; intros _; cbn; eauto. Qed.

Lemma new_Date_scalar w j :
  is_scalar j = true -> exists d, new_Date w (Some j) = Returned d.
Proof. destruct j; try discriminate; intros _; cbn; eauto. Qed.

(** A lookup returns at a blank ticker, and where [caches] tells what it
    does, as soon as the resolver and the serialisation return. *)
Lemma caches_miss_returns {R} f key ttl (resolve : string -> M R) to_value serialize restore :
  blank_returns_null f ->
  caches f key ttl resolve to_value serialize restore ->
  forall ticker w,
    cache w !! key ticker = None ->
    (exists r w1 text, resolve ticker w = (Returned r, w1) /\ serialize r = Returned text) ->
    exists v, fst (f ticker w) = Returned v.
Proof.
  intros Hblank Hc ticker w Hmiss (r & w1 & text & Hr & Hs).
  destruct (blank ticker) eqn:Hb.
  - rewrite (Hblank ticker w Hb). eauto.
  - rewrite (proj2 (Hc ticker w Hb) Hmiss r w1 text Hr Hs). eauto.
Qed.

Lemma caches_hit_returns {R} f key ttl (resolve : string -> M R) to_value serialize restore :
  blank_returns_null f ->
  caches f key ttl resolve to_value serialize restore ->
  forall ticker w text e,
    cache w !! key ticker = Some (text, e) ->
    (exists v, fst (restore text w) = Returned v) ->
    exists v, fst (f ticker w) = Returned v.
Proof.
  intros Hblank Hc ticker w text e Hhit Hr.
  destruct (blank ticker) eqn:Hb.
  - rewrite (Hblank ticker w Hb). eauto.
  - rewrite (proj1 (Hc ticker w Hb) text e Hhit). exact Hr.
Qed.

(** The resolver's outcome, as the pair [caches] speaks of. *)
Lemma returns_run {A} (m : M A) w :
  returns m -> exists a w1, m w = (Returned a, w1).
Proof.
  intros H. destruct (H w) as [a Ha]. destruct (m w) as [o w1]. simpl in Ha. subst.
  eauto.
Qed.

Ltac blank_of f :=
  let t := fresh "ticker" in let w := fresh "w" in let Hb := fresh "Hb" in
  intros t w Hb; unfold f; rewrite Hb; reflexivity.

Lemma GET_MOEX_PRICE_blank : blank_returns_null GET_MOEX_PRICE.
Proof. blank_of GET_MOEX_PRICE. Qed.
Lemma GET_NEXT_COUPON_blank : blank_returns_null GET_NEXT_COUPON.
Proof. blank_of GET_NEXT_COUPON. Qed.
Lemma GET_MOEX_NAME_blank : blank_returns_null GET_MOEX_NAME.
Proof. blank_of GET_MOEX_NAME. Qed.
Lemma GET_COUPON_VALUE_blank : blank_returns_null GET_COUPON_VALUE.
Proof. blank_of GET_COUPON_VALUE. Qed.
Lemma GET_MATURITY_DATE_blank : blank_returns_null GET_MATURITY_DATE.
Proof. blank_of GET_MATURITY_DATE. Qed.

Lemma restore_json_returns text j w :
  JSON.parse text = Some j -> exists v, fst (restore_json text w) = Returned v.
Proof.
  intros H. unfold restore_json, JSON_parse, mbind, M_bind, lift. rewrite H. cbn. eauto.
Qed.

Lemma restore_date_returns text j w :
  JSON.parse text = Some j -> is_scalar j = true ->
  exists v, fst (restore_date text w) = Returned v.
Proof.
  intros H Hs. unfold restore_date, JSON_parse, mbind, M_bind, lift, ask. rewrite H. cbn.
  destruct (truthy (Some j)); [|cbn; eauto].
  destruct (new_Date_scalar w j Hs) as [d ->]. cbn. eauto.
Qed.

Lemma GET_NEAREST_OPTION_DATE_returns ticker :
  encodable ticker -> returns (GET_NEAREST_OPTION_DATE ticker).
Proof.
  intros Henc. unfold GET_NEAREST_OPTION_DATE.
  destruct (ticker =? "")%string; [apply returns_ret|].
  apply returns_bind; [now apply fetchBondOptionDatesInternal_returns|].
  intros [text|date remark]; [apply returns_ret|].
  apply returns_bind; [|intros ?; apply returns_ret].
  apply returns_try_catch. intros ?. apply returns_ret.
Qed.

(** Where the functions do return.  Every internal fetch function, and
    [GET_NEAREST_OPTION_DATE] over its own, returns a value in every world
    (whatever the API does: a failed fetch, any status, a body that is not
    JSON or not of the expected shape) for every ticker that
    [encodeURIComponent] accepts; the URL is built before the [try], so a
    ticker with a lone surrogate makes the function throw.  The five
    cached lookups run the cache outside any [try]: they return a value on
    a miss (the name: when what was resolved is a scalar, so that it can
    be stored as a string), and on a hit when the cached text is JSON for
    a scalar (the name: on every hit); on a hit with text that is not JSON
    the SyntaxError of [JSON.parse] leaves the price lookup. *)
Lemma fetch_functions_return :
  (forall ticker, encodable ticker ->
     returns (fetchSinglePriceInternal ticker)
     /\ returns (fetchNextCouponInternal ticker)
     /\ returns (fetchBondNameInternal ticker)
     /\ returns (fetchCouponValueInternal ticker)
     /\ returns (fetchMaturityDateInternal ticker)
     /\ returns (fetchCouponFromBondization ticker)
     /\ returns (fetchBondOptionDatesInternal ticker)
     /\ returns (GET_NEAREST_OPTION_DATE ticker))
  /\ (returns_on_miss GET_MOEX_PRICE (fun t => t)
      /\ returns_on_miss GET_NEXT_COUPON (fun t => t +:+ "_coupon")
      /\ returns_on_miss GET_COUPON_VALUE (fun t => t +:+ "_coupon_value_v3")
      /\ returns_on_miss GET_MATURITY_DATE (fun t => t +:+ "_maturity"))
  /\ (forall ticker w j w1,
        cache w !! (ticker +:+ "_name") = None ->
        fetchBondNameInternal ticker w = (Returned j, w1) -> is_scalar j = true ->
        exists v, fst (GET_MOEX_NAME ticker w) = Returned v)
  /\ (returns_on_json_hit GET_MOEX_PRICE (fun t => t)
      /\ returns_on_json_hit GET_NEXT_COUPON (fun t => t +:+ "_coupon")
      /\ returns_on_json_hit GET_COUPON_VALUE (fun t => t +:+ "_coupon_value_v3")
      /\ returns_on_json_hit GET_MATURITY_DATE (fun t => t +:+ "_maturity"))
  /\ (forall ticker w text e,
        cache w !! (ticker +:+ "_name") = Some (text, e) ->
        exists v, fst (GET_MOEX_NAME ticker w) = Returned v)
  /\ (forall ticker w text e,
        blank ticker = false ->
        cache w !! ticker = Some (text, e) -> JSON.parse text = None ->
        exists err, fst (GET_MOEX_PRICE ticker w) = Thrown err).
Proof.
  split; [|split; [|split; [|split; [|split]]]].
  - intros ticker Henc.
    repeat split;
      auto using fetchSinglePriceInternal_returns, fetchNextCouponInternal_returns,
        fetchBondNameInternal_returns, fetchCouponValueInternal_returns,
        fetchMaturityDateInternal_returns, fetchCouponFromBondization_returns,
        fetchBondOptionDatesInternal_returns, GET_NEAREST_OPTION_DATE_returns.
  - repeat split; intros ticker w Henc Hmiss.
    + eapply (caches_miss_returns _ _ _ _ _ _ _ GET_MOEX_PRICE_blank GET_MOEX_PRICE_caches);
        [exact Hmiss|].
      destruct (returns_run _ w (fetchSinglePriceInternal_returns ticker Henc)) as (r & w1 & Hr).
      eauto.
    + eapply (caches_miss_returns _ _ _ _ _ _ _ GET_NEXT_COUPON_blank GET_NEXT_COUPON_caches);
        [exact Hmiss|].
      destruct (returns_run _ w (fetchNextCouponInternal_returns ticker Henc)) as (r & w1 & Hr).
      eauto.
    + eapply (caches_miss_returns _ _ _ _ _ _ _ GET_COUPON_VALUE_blank GET_COUPON_VALUE_caches);
        [exact Hmiss|].
      destruct (returns_run _ w (fetchCouponValueInternal_returns ticker Henc)) as (r & w1 & Hr).
      eauto.
    + eapply (caches_miss_returns _ _ _ _ _ _ _ GET_MATURITY_DATE_blank GET_MATURITY_DATE_caches);
        [exact Hmiss|].
      destruct (returns_run _ w (fetchMaturityDateInternal_returns ticker Henc)) as (r & w1 & Hr).
      eauto.
  - intros ticker w j w1 Hmiss Hr Hs.
    eapply (caches_miss_returns _ _ _ _ _ _ _ GET_MOEX_NAME_blank GET_MOEX_NAME_caches);
      [exact Hmiss|].
    destruct (toString_scalar j Hs) as [s Hj]. eauto.
  - repeat split; intros ticker w text e j Hhit Hp Hs.
    + eapply (caches_hit_returns _ _ _ _ _ _ _ GET_MOEX_PRICE_blank GET_MOEX_PRICE_caches);
        [exact Hhit|]. eapply restore_json_returns; eassumption.
    + eapply (caches_hit_returns _ _ _ _ _ _ _ GET_NEXT_COUPON_blank GET_NEXT_COUPON_caches);
        [exact Hhit|]. eapply restore_date_returns; eassumption.
    + eapply (caches_hit_returns _ _ _ _ _ _ _ GET_COUPON_VALUE_blank GET_COUPON_VALUE_caches);
        [exact Hhit|]. eapply restore_json_returns; eassumption.
    + eapply (caches_hit_returns _ _ _ _ _ _ _ GET_MATURITY_DATE_blank GET_MATURITY_DATE_caches);
        [exact Hhit|]. eapply restore_date_returns; eassumption.
  - intros ticker w text e Hhit.
    eapply (caches_hit_returns _ _ _ _ _ _ _ GET_MOEX_NAME_blank GET_MOEX_NAME_caches);
      [exact Hhit|]. unfold restore_text. cbn. eauto.
  - intros ticker w text e Hb Hhit Hp.
    rewrite (proj1 (GET_MOEX_PRICE_caches ticker w Hb) text e Hhit).
    unfold restore_json, JSON_parse, mbind, M_bind, lift. rewrite Hp. cbn. eauto.
Qed.

(** The price of [Sample.price_world]: the ticker is plain ASCII. *)
Lemma fetch_functions_return_witness :
  encodable "SU26207RMFS9"
  /\ exists v, fst (fetchSinglePriceInternal "SU26207RMFS9" Sample.price_world) = Returned v.
Proof.
  assert (H : encodable "SU26207RMFS9") by (eexists; reflexivity).
  split; [exact H|].
  apply (proj1 (proj1 fetch_functions_return "SU26207RMFS9" H)).
Defined.

(** C8: the lookups are documented to return the fact or the text of an
    error, and every fetch function catches what its body throws; the
    cache code of the lookups is outside any [try].  The price is cached
    under the bare ticker and the name under the ticker followed by
    [_name], as it is and not as JSON.  After the name of SU26207RMFS9 has
    been looked up, the price of the ticker [SU26207RMFS9_name] finds that
    text under its key, and the SyntaxError of [JSON.parse] leaves
    [GET_MOEX_PRICE]: the lookup throws where the claim has it return. *)
Theorem price_lookup_throws_on_cached_name :
  fst (GET_MOEX_NAME "SU26207RMFS9" Sample.bond_world)
  = Returned (VStr "ОФЗ-ПД 26207 03/02/27")
  /\ fst (GET_MOEX_PRICE "SU26207RMFS9_name"
            (snd (GET_MOEX_NAME "SU26207RMFS9" Sample.bond_world)))
     = Thrown (SyntaxError "Unexpected token in JSON")
  /\ ~ never_throws GET_MOEX_PRICE.
Proof.
  assert (Hthrow : fst (GET_MOEX_PRICE "SU26207RMFS9_name"
                          (snd (GET_MOEX_NAME "SU26207RMFS9" Sample.bond_world)))
                   = Thrown (SyntaxError "Unexpected token in JSON"))
    by (vm_compute; reflexivity).
  split; [vm_compute; reflexivity|].
  split; [exact Hthrow|].
  intros H.
  destruct (H "SU26207RMFS9_name" (snd (GET_MOEX_NAME "SU26207RMFS9" Sample.bond_world)))
    as [v Hv].
  rewrite Hthrow in Hv. discriminate Hv.
Qed.

(** ** The dates of the snapshot *)

(** Unfolds a lookup of the securities block down to its first row. *)
Ltac run_securities Hurl Hapi Hparse Hb Hd :=
  let fs := fresh "fs" in let bfs := fresh "bfs" in
  let H1 := fresh "Hblock" in let H2 := fresh "Hcolumns" in let H3 := fresh "Hdata" in
  apply block_of_inv in Hb as (fs & bfs & -> & H1 & H2 & H3);
  rewrite Hd in H3;
  run_fetch Hurl Hapi Hparse;
  rewrite H1; cbn; rewrite H2, H3; cbn;
  rewrite ?length_nonzero; cbn;
  change (Z.to_nat 0) with 0%nat; cbn [nth_error nth_item].

(** C7: with a securities block that has a first row and a NEXTCOUPON
    column, [fetchNextCouponInternal] answers "Нет предстоящих купонов"
    when the cell is falsy (null, undefined, the empty string) or is the
    string "0000-00-00", and does not construct a Date from it; any other
    cell goes to [new Date], and the Date is returned.  The same holds of
    [fetchMaturityDateInternal] with the MATDATE column and
    "Дата погашения не определена". *)
Theorem date_resolvers_sentinel ticker w url text body b cells rest :
  securities_url ticker = Returned url ->
  api w url = FetchReturns {| getResponseCode := 200; getContentText := text |} ->
  JSON.parse text = Some body ->
  block_of body "securities" = Some b -> Block.data b = JArr cells :: rest ->
  (array_index_of "NEXTCOUPON" (Block.columns b) 0 <> -1 ->
   fst (fetchNextCouponInternal ticker w) =
   Returned
     (let couponDateStr := column_value (Block.columns b) cells "NEXTCOUPON" in
      if negb (truthy couponDateStr) || is_string "0000-00-00" couponDateStr
      then VStr "Нет предстоящих купонов"
      else match new_Date w couponDateStr with
           | Returned d => VDate d
           | Thrown _ => VStr "Ошибка скрипта"
           end))
  /\ (array_index_of "MATDATE" (Block.columns b) 0 <> -1 ->
      fst (fetchMaturityDateInternal ticker w) =
      Returned
        (let matDateStr := column_value (Block.columns b) cells "MATDATE" in
         if negb (truthy matDateStr) || is_string "0000-00-00" matDateStr
         then VStr "Дата погашения не определена"
         else match new_Date w matDateStr with
              | Returned d => VDate d
              | Thrown _ => VStr "Ошибка скрипта"
              end)).
Proof.
  intros Hurl Hapi Hparse Hb Hd. split; intros Hidx; apply Z.eqb_neq in Hidx.
  - unfold fetchNextCouponInternal. run_securities Hurl Hapi Hparse Hb Hd.
    rewrite Hidx. cbn. unfold column_value.
    destruct (negb _ || _); [reflexivity|].
    change (new_Date (with_requests (url :: requests w) w)) with (new_Date w).
    destruct (new_Date w _); reflexivity.
  - unfold fetchMaturityDateInternal. run_securities Hurl Hapi Hparse Hb Hd.
    rewrite Hidx. cbn. unfold column_value.
    destruct (negb _ || _); [reflexivity|].
    change (new_Date (with_requests (url :: requests w) w)) with (new_Date w).
    destruct (new_Date w _); reflexivity.
Qed.

(** In [Sample.bond_world] NEXTCOUPON is "2025-12-03" and MATDATE is
    "0000-00-00". *)
Lemma date_resolvers_sentinel_witness :
  fst (fetchNextCouponInternal "SU26207RMFS9" Sample.bond_world)
  = Returned (VDate (Some 1764720000000))
  /\ fst (fetchMaturityDateInternal "SU26207RMFS9" Sample.bond_world)
     = Returned (VStr "Дата погашения не определена").
Proof.
  destruct (date_resolvers_sentinel "SU26207RMFS9" Sample.bond_world
              (Sample.securities_of "SU26207RMFS9")
              (JSON.stringify Sample.full_snapshot) Sample.full_snapshot
              {| Block.columns :=
                   map JStr ["SECID"; "SHORTNAME"; "SECNAME"; "PREVPRICE"; "NEXTCOUPON";
                             "MATDATE"; "COUPONVALUE"];
                 Block.data :=
                   [JArr [JStr "SU26207RMFS9"; JStr "ОФЗ 26207"; JStr "ОФЗ-ПД 26207 03/02/27";
                          Sample.num 99 0; JStr "2025-12-03"; JStr "0000-00-00";
                          Sample.num 0 0]] |}
              [JStr "SU26207RMFS9"; JStr "ОФЗ 26207"; JStr "ОФЗ-ПД 26207 03/02/27";
               Sample.num 99 0; JStr "2025-12-03"; JStr "0000-00-00"; Sample.num 0 0]
              [])
    as [Hcoupon Hmaturity]; try (vm_compute; reflexivity).
  split.
  - rewrite Hcoupon; [vm_compute; reflexivity | vm_compute; discriminate].
  - rewrite Hmaturity; [vm_compute; reflexivity | vm_compute; discriminate].
Defined.

(** ** The coupon value *)

(** After its one request [fetchCouponFromBondization] only computes. *)
Lemma fetchCouponFromBondization_world ticker url w :
  bondization_url ticker = Returned url ->
  snd (fetchCouponFromBondization ticker w) = with_requests (url :: requests w) w.
Proof.
  intros Hurl. unfold fetchCouponFromBondization.
  unfold mbind at 1. unfold M_bind at 1. unfold lift at 1. rewrite Hurl.
  unfold try_catch. unfold mbind at 1. unfold M_bind at 1. unfold UrlFetchApp_fetch.
  destruct (api w url) as [msg|response]; [reflexivity|].
  match goal with
  | |- snd (let (o, w') := ?m ?w0 in _) = _ =>
      assert (Hs : stateless m);
      [| specialize (Hs w0); destruct (m w0) as [[a|e] w']; simpl in *; subst; reflexivity ]
  end.
  stateless_tac.
Qed.

(** Inside the [try] of [fetchCouponValueInternal], stage 2 is what it is
    alone: it never throws. *)
Lemma try_stage2 ticker w (handler : Exn -> M Value) :
  encodable ticker ->
  try_catch (fetchCouponFromBondization ticker) handler w = fetchCouponFromBondization ticker w.
Proof.
  intros Henc. unfold try_catch.
  destruct (returns_run _ w (fetchCouponFromBondization_returns ticker Henc)) as (a & w1 & ->).
  reflexivity.
Qed.

Lemma securities_url_encodable ticker url :
  securities_url ticker = Returned url -> encodable ticker.
Proof.
  unfold securities_url, encodable.
  destruct (JSString.encodeURIComponent ticker); [eauto|discriminate].
Qed.

(** C5: with a securities block that has a first row, stage 1 of
    [fetchCouponValueInternal] reads COUPONVALUE.  When the column is
    missing or the cell is null or undefined, or when [parseFloat] of the
    cell is exactly zero, the function is stage 2: it does what
    [fetchCouponFromBondization] does after the first request, which asks
    the bondization feed.  When [parseFloat] of the cell is not zero, that
    number is returned and nothing more is fetched. *)
Theorem coupon_value_stages ticker w url text body b cells rest :
  securities_url ticker = Returned url ->
  api w url = FetchReturns {| getResponseCode := 200; getContentText := text |} ->
  JSON.parse text = Some body ->
  block_of body "securities" = Some b -> Block.data b = JArr cells :: rest ->
  let couponValue := column_value (Block.columns b) cells "COUPONVALUE" in
  let w1 := with_requests (url :: requests w) w in
  (is_nullish couponValue = true ->
   fetchCouponValueInternal ticker w = fetchCouponFromBondization ticker w1)
  /\ (forall val, is_nullish couponValue = false -> parseFloat couponValue = Returned val ->
      if is_zero val
      then fetchCouponValueInternal ticker w = fetchCouponFromBondization ticker w1
      else fetchCouponValueInternal ticker w = (Returned (VNum val), w1))
  /\ (exists feed, bondization_url ticker = Returned feed
      /\ requests (snd (fetchCouponFromBondization ticker w1)) = feed :: url :: requests w).
Proof.
  intros Hurl Hapi Hparse Hb Hd couponValue w1.
  pose proof (securities_url_encodable ticker url Hurl) as Henc.
  pose proof (try_stage2 ticker w1
                (fun e => mret (VStr ("Ошибка скрипта: " +:+ message e))) Henc) as Hstage2.
  unfold try_catch in Hstage2.
  assert (Hrun : fetchCouponValueInternal ticker w =
                 if is_nullish couponValue then fetchCouponFromBondization ticker w1
                 else match parseFloat couponValue with
                      | Returned val =>
                          if is_zero val then fetchCouponFromBondization ticker w1
                          else (Returned (VNum val), w1)
                      | Thrown e => (Returned (VStr ("Ошибка скрипта: " +:+ message e)), w1)
                      end).
  { unfold fetchCouponValueInternal. run_securities Hurl Hapi Hparse Hb Hd.
    unfold couponValue, column_value. fold w1.
    destruct (array_index_of "COUPONVALUE" (Block.columns b) 0 =? -1) eqn:Hcol; cbn.
    - apply Z.eqb_eq in Hcol. rewrite Hcol. cbn. exact Hstage2.
    - destruct (is_nullish (nth_item cells _)); cbn; [exact Hstage2|].
      destruct (parseFloat (nth_item cells _)) as [val|e]; cbn; [|reflexivity].
      destruct (is_zero val); cbn; [exact Hstage2 | reflexivity]. }
  split; [|split].
  - intros Hn. rewrite Hrun, Hn. reflexivity.
  - intros val Hn Hp. rewrite Hrun, Hn, Hp. destruct (is_zero val); reflexivity.
  - destruct (encodable_bondization_url ticker Henc) as [feed Hfeed].
    exists feed. split; [exact Hfeed|].
    rewrite (fetchCouponFromBondization_world ticker feed w1 Hfeed). reflexivity.
Qed.

(** In [Sample.bond_world] COUPONVALUE is 0: the coupon comes from the
    schedule of the bondization feed, asked for after the snapshot. *)
Lemma coupon_value_stages_witness :
  fetchCouponValueInternal "SU26207RMFS9" Sample.bond_world
  = fetchCouponFromBondization "SU26207RMFS9"
      (with_requests [Sample.securities_of "SU26207RMFS9"] Sample.bond_world)
  /\ fst (fetchCouponValueInternal "SU26207RMFS9" Sample.bond_world)
     = Returned (VNum (make 50 0)).
Proof.
  destruct (coupon_value_stages "SU26207RMFS9" Sample.bond_world
              (Sample.securities_of "SU26207RMFS9")
              (JSON.stringify Sample.full_snapshot) Sample.full_snapshot
              {| Block.columns :=
                   map JStr ["SECID"; "SHORTNAME"; "SECNAME"; "PREVPRICE"; "NEXTCOUPON";
                             "MATDATE"; "COUPONVALUE"];
                 Block.data :=
                   [JArr [JStr "SU26207RMFS9"; JStr "ОФЗ 26207"; JStr "ОФЗ-ПД 26207 03/02/27";
                          Sample.num 99 0; JStr "2025-12-03"; JStr "0000-00-00";
                          Sample.num 0 0]] |}
              [JStr "SU26207RMFS9"; JStr "ОФЗ 26207"; JStr "ОФЗ-ПД 26207 03/02/27";
               Sample.num 99 0; JStr "2025-12-03"; JStr "0000-00-00"; Sample.num 0 0]
              [])
    as (_ & Hzero & _); try (vm_compute; reflexivity).
  specialize (Hzero (make 0 0) eq_refl eq_refl). cbn in Hzero.
  split; [exact Hzero|].
  rewrite Hzero. vm_compute. reflexivity.
Defined.

(** ** What the result of a computation depends on *)

Section Determined.

(** A relation between worlds that the services keep: it fixes the API
    and the cache, and does not look at the log of requests or the note. *)
Context (R : World -> World -> Prop).
Context (R_api : forall w1 w2, R w1 w2 -> forall url, api w1 url = api w2 url).
Context (R_cache : forall w1 w2, R w1 w2 -> cache w1 = cache w2).
Context (R_requests : forall w1 w2, R w1 w2 ->
           forall r1 r2, R (with_requests r1 w1) (with_requests r2 w2)).
Context (R_put : forall w1 w2, R w1 w2 -> forall c, R (with_cache c w1) (with_cache c w2)).
Context (R_note : forall w1 w2, R w1 w2 -> forall n1 n2, R (with_note n1 w1) (with_note n2 w2)).

Lemma related_ret {A} (a : A) : related R (mret a) (mret a).
Proof. intros w1 w2 H. split; [reflexivity | exact H]. Qed.

Lemma related_lift {A} (x1 x2 : Outcome A) : x1 = x2 -> related R (lift x1) (lift x2).
Proof. intros -> w1 w2 H. split; [reflexivity | exact H]. Qed.

Lemma related_bind {A B} (m1 m2 : M A) (k1 k2 : A -> M B) :
  related R m1 m2 -> (forall a, related R (k1 a) (k2 a)) -> related R (m1 ≫= k1) (m2 ≫= k2).
Proof.
  intros Hm Hk w1 w2 H. unfold mbind, M_bind.
  destruct (Hm w1 w2 H) as [Hfst Hsnd].
  destruct (m1 w1) as [o1 w1'], (m2 w2) as [o2 w2']. simpl in *. subst o2.
  destruct o1 as [a|e]; [apply Hk; exact Hsnd | split; [reflexivity | exact Hsnd]].
Qed.

Lemma determined_ret {A} (a : A) : determined R (mret a).
Proof. intros w1 w2 H. split; [reflexivity | exact H]. Qed.

Lemma determined_lift {A} (x : Outcome A) : determined R (lift x).
Proof. intros w1 w2 H. split; [reflexivity | exact H]. Qed.

Lemma determined_bind {A B} (m : M A) (k : A -> M B) :
  determined R m -> (forall a, determined R (k a)) -> determined R (m ≫= k).
Proof. intros Hm Hk. now apply related_bind. Qed.

Lemma determined_try_catch {A} (body : M A) (handler : Exn -> M A) :
  determined R body -> (forall e, determined R (handler e)) ->
  determined R (try_catch body handler).
Proof.
  intros Hb Hh w1 w2 H. unfold try_catch.
  destruct (Hb w1 w2 H) as [Hfst Hsnd].
  destruct (body w1) as [o1 w1'], (body w2) as [o2 w2']. simpl in *. subst o2.
  destruct o1 as [a|e]; [split; [reflexivity | exact Hsnd] | apply Hh; exact Hsnd].
Qed.

Lemma determined_fetch url : determined R (UrlFetchApp_fetch url).
Proof.
  intros w1 w2 H. unfold UrlFetchApp_fetch. rewrite (R_api w1 w2 H url).
  destruct (api w2 url); split; try reflexivity; now apply R_requests.
Qed.

Lemma determined_cache_get key : determined R (cache_get key).
Proof.
  intros w1 w2 H. unfold cache_get. rewrite (R_cache w1 w2 H).
  split; [reflexivity | exact H].
Qed.

Lemma determined_cache_put key text ttl : determined R (cache_put key text ttl).
Proof.
  intros w1 w2 H. unfold cache_put. rewrite (R_cache w1 w2 H).
  split; [reflexivity | now apply R_put].
Qed.

(** A computation that reads the world through [ask] is determined when
    what it does with the world is the same for related worlds. *)
Lemma determined_ask_bind {B} (k : World -> M B) :
  (forall wa wb, R wa wb -> related R (k wa) (k wb)) -> determined R (ask ≫= k).
Proof.
  intros Hk w1 w2 H. unfold mbind, M_bind, ask. now apply Hk.
Qed.

(** The attempt to set the note: it returns, whatever the spreadsheet
    does, and changes the note at most. *)
Lemma determined_set_note (text : string) :
  determined R
    (try_catch
       (has_sheet ← SpreadsheetApp_getActiveSpreadsheet;
        if (has_sheet : bool) then
          has_range ← SpreadsheetApp_getActiveRange;
          if (has_range : bool) then range_setNote text else mret tt
        else mret tt)
       (fun e => mret tt)).
Proof.
  assert (Hrun : forall w, exists n,
             try_catch
               (has_sheet ← SpreadsheetApp_getActiveSpreadsheet;
                if (has_sheet : bool) then
                  has_range ← SpreadsheetApp_getActiveRange;
                  if (has_range : bool) then range_setNote text else mret tt
                else mret tt)
               (fun e => mret tt) w = (Returned tt, with_note n w)).
  { intros w.
    unfold mbind, M_bind, try_catch, SpreadsheetApp_getActiveSpreadsheet,
      SpreadsheetApp_getActiveRange, range_setNote.
    destruct (sheet w) eqn:Hs; cbn; rewrite ?Hs; cbn;
      try (exists (note w); rewrite with_note_same; reflexivity).
    exists (Some text). reflexivity. }
  intros w1 w2 H.
  destruct (Hrun w1) as [n1 ->], (Hrun w2) as [n2 ->].
  split; [reflexivity | now apply R_note].
Qed.

End Determined.

(** The two relations are kept by the services. *)
Create HintDb world.

Lemma same_api_cache_requests w1 w2 :
  same_api_cache w1 w2 -> forall r1 r2, same_api_cache (with_requests r1 w1) (with_requests r2 w2).
Proof. intros [] r1 r2. split; assumption. Qed.

Lemma same_api_cache_put w1 w2 :
  same_api_cache w1 w2 -> forall c, same_api_cache (with_cache c w1) (with_cache c w2).
Proof. intros [] c. split; [assumption | reflexivity]. Qed.

Lemma same_api_cache_note w1 w2 :
  same_api_cache w1 w2 -> forall n1 n2, same_api_cache (with_note n1 w1) (with_note n2 w2).
Proof. intros [] n1 n2. split; assumption. Qed.

Lemma same_inputs_requests w1 w2 :
  same_inputs w1 w2 -> forall r1 r2, same_inputs (with_requests r1 w1) (with_requests r2 w2).
Proof. intros [] r1 r2. split; assumption. Qed.

Lemma same_inputs_put w1 w2 :
  same_inputs w1 w2 -> forall c, same_inputs (with_cache c w1) (with_cache c w2).
Proof. intros [] c. split; try assumption. reflexivity. Qed.

Lemma same_inputs_note w1 w2 :
  same_inputs w1 w2 -> forall n1 n2, same_inputs (with_note n1 w1) (with_note n2 w2).
Proof. intros [] n1 n2. split; assumption. Qed.

#[local] Hint Resolve sac_api sac_cache same_api_cache_requests same_api_cache_put
  same_api_cache_note si_api si_cache same_inputs_requests same_inputs_put
  same_inputs_note : world.

(** What the other lookups read besides: the day, the time zone, the
    engine's dates. *)
Lemma Date_parse_same wa wb :
  same_inputs wa wb -> forall s, Date_parse wa s = Date_parse wb s.
Proof.
  intros H s. unfold Date_parse. rewrite (si_tz _ _ H).
  destruct (iso_parse (tz wb) s); [reflexivity|]. now rewrite (si_engine _ _ H).
Qed.

Lemma new_Date_same wa wb :
  same_inputs wa wb -> forall v, new_Date wa v = new_Date wb v.
Proof.
  intros H [[| | | |l|fs]|]; unfold new_Date; rewrite ?(Date_parse_same _ _ H); try reflexivity.
  - destruct (toString_json (JArr l)); cbn; [|reflexivity].
    now rewrite (Date_parse_same _ _ H).
  - destruct (toString_json (JObj fs)); cbn; [|reflexivity].
    now rewrite (Date_parse_same _ _ H).
Qed.

Lemma Outcome_bind_ext {A B} (x : Outcome A) (k1 k2 : A -> Outcome B) :
  (forall a, k1 a = k2 a) -> x ≫= k1 = x ≫= k2.
Proof. intros H. destruct x; [apply H | reflexivity]. Qed.

Lemma map_outcome_ext {A B} (f g : A -> Outcome B) l :
  (forall x, f x = g x) -> map_outcome f l = map_outcome g l.
Proof.
  intros H. induction l as [|x r IH]; [reflexivity|]. simpl. now rewrite H, IH.
Qed.

Lemma for_each_ext {A S} (f g : A -> S -> Outcome S) l s :
  (forall x s, f x s = g x s) -> for_each f l s = for_each g l s.
Proof.
  intros H. revert s. induction l as [|x r IH]; intros s; [reflexivity|]. simpl.
  rewrite H. destruct (g x s); cbn; [apply IH | reflexivity].
Qed.

Lemma coupon_of_row_same wa wb :
  same_inputs wa wb ->
  forall i j k r, coupon_of_row wa i j k r = coupon_of_row wb i j k r.
Proof.
  intros H i j k r. unfold coupon_of_row.
  apply Outcome_bind_ext; intros val. apply Outcome_bind_ext; intros cell_date.
  now rewrite (new_Date_same _ _ H).
Qed.

Lemma push_amortization_same wa wb :
  same_inputs wa wb ->
  forall i row events, push_amortization wa i row events = push_amortization wb i row events.
Proof.
  intros H i row events. unfold push_amortization.
  apply Outcome_bind_ext; intros dStr.
  now rewrite (new_Date_same _ _ H), (si_today _ _ H).
Qed.

Lemma push_offer_same wa wb :
  same_inputs wa wb ->
  forall i j row events, push_offer wa i j row events = push_offer wb i j row events.
Proof.
  intros H i j row events. unfold push_offer.
  apply Outcome_bind_ext; intros dStr.
  now rewrite (new_Date_same _ _ H), (si_today _ _ H).
Qed.

(** Equal outcomes of two computations that differ in the world they
    read dates with. *)
Ltac same_outcome H :=
  repeat first
    [ reflexivity
    | apply (new_Date_same _ _ H)
    | apply (coupon_of_row_same _ _ H)
    | apply (push_amortization_same _ _ H)
    | apply (push_offer_same _ _ H)
    | apply map_outcome_ext; intros ?
    | apply for_each_ext; intros ? ?
    | apply Outcome_bind_ext; intros ?
    | match goal with
      | |- (if ?b then _ else _) = _ => destruct b
      end ].

(** Decomposes a goal [related same_inputs m1 m2] for two computations of
    one shape. *)
Ltac related_tac H :=
  rewrite ?(si_today _ _ H);
  repeat first
    [ apply related_ret
    | apply related_lift; solve [same_outcome H]
    | apply related_bind; [|intros ?]
    | match goal with
      | |- related _ (if ?b then _ else _) _ => destruct b
      | |- related _ (match ?x with _ => _ end) _ => destruct x
      | |- related _ (let _ := _ in _) _ => cbv zeta
      end ].

(** Decomposes a goal [determined R m] along the structure of [m]. *)
Ltac determined_tac :=
  repeat first
    [ apply determined_ret | apply determined_lift
    | apply determined_fetch; solve [auto with world]
    | apply determined_cache_get; solve [auto with world]
    | apply determined_cache_put; solve [auto with world]
    | apply determined_set_note; solve [auto with world]
    | match goal with
      | |- determined _ (ask ≫= _) =>
          apply determined_ask_bind;
          let wa := fresh "wa" in let wb := fresh "wb" in let H := fresh "Hsame" in
          intros wa wb H; related_tac H
      end
    | apply determined_bind; [|intros ?]
    | apply determined_try_catch; [|intros ?]
    | match goal with
      | |- determined _ (if ?b then _ else _) => destruct b
      | |- determined _ (match ?x with _ => _ end) => destruct x
      | |- determined _ (let _ := _ in _) => cbv zeta
      end ].

(** The price and the name read nothing but the API and the cache. *)
Lemma fetchSinglePriceInternal_determined ticker :
  determined same_api_cache (fetchSinglePriceInternal ticker).
Proof. unfold fetchSinglePriceInternal. determined_tac. Qed.

Lemma fetchBondNameInternal_determined ticker :
  determined same_api_cache (fetchBondNameInternal ticker).
Proof. unfold fetchBondNameInternal. determined_tac. Qed.

Lemma GET_MOEX_PRICE_determined ticker : determined same_api_cache (GET_MOEX_PRICE ticker).
Proof.
  unfold GET_MOEX_PRICE. destruct (blank ticker); [apply determined_ret|].
  apply determined_bind; [apply determined_cache_get; auto with world|].
  intros [text|]; [determined_tac|].
  apply determined_bind; [apply fetchSinglePriceInternal_determined|].
  intros ?. determined_tac.
Qed.

Lemma GET_MOEX_NAME_determined ticker : determined same_api_cache (GET_MOEX_NAME ticker).
Proof.
  unfold GET_MOEX_NAME. destruct (blank ticker); [apply determined_ret|].
  apply determined_bind; [apply determined_cache_get; auto with world|].
  intros [text|]; [determined_tac|].
  apply determined_bind; [apply fetchBondNameInternal_determined|].
  intros ?. determined_tac.
Qed.

Lemma fetchNextCouponInternal_determined ticker :
  determined same_inputs (fetchNextCouponInternal ticker).
Proof. unfold fetchNextCouponInternal. determined_tac. Qed.

Lemma fetchMaturityDateInternal_determined ticker :
  determined same_inputs (fetchMaturityDateInternal ticker).
Proof. unfold fetchMaturityDateInternal. determined_tac. Qed.

Lemma fetchCouponFromBondization_determined ticker :
  determined same_inputs (fetchCouponFromBondization ticker).
Proof. unfold fetchCouponFromBondization. determined_tac. Qed.

Lemma fetchBondOptionDatesInternal_determined ticker :
  determined same_inputs (fetchBondOptionDatesInternal ticker).
Proof. unfold fetchBondOptionDatesInternal. determined_tac. Qed.

Lemma fetchCouponValueInternal_determined ticker :
  determined same_inputs (fetchCouponValueInternal ticker).
Proof.
  unfold fetchCouponValueInternal. determined_tac.
Qed.

Lemma same_inputs_api_cache w1 w2 : same_inputs w1 w2 -> same_api_cache w1 w2.
Proof. intros []. split; assumption. Qed.

(** What is determined by less is determined by more. *)
Lemma determined_weaken {A} (m : M A) :
  determined same_api_cache m ->
  forall w1 w2, same_inputs w1 w2 -> fst (m w1) = fst (m w2).
Proof. intros H w1 w2 Hs. apply H. now apply same_inputs_api_cache. Qed.

Lemma GET_NEXT_COUPON_determined ticker : determined same_inputs (GET_NEXT_COUPON ticker).
Proof.
  unfold GET_NEXT_COUPON. destruct (blank ticker); [apply determined_ret|].
  cbv zeta. apply determined_bind; [apply determined_cache_get; auto with world|].
  intros [text|]; [determined_tac|].
  apply determined_bind; [apply fetchNextCouponInternal_determined|].
  intros ?. determined_tac.
Qed.

Lemma GET_COUPON_VALUE_determined ticker : determined same_inputs (GET_COUPON_VALUE ticker).
Proof.
  unfold GET_COUPON_VALUE. destruct (blank ticker); [apply determined_ret|].
  cbv zeta. apply determined_bind; [apply determined_cache_get; auto with world|].
  intros [text|]; [determined_tac|].
  apply determined_bind; [apply fetchCouponValueInternal_determined|].
  intros ?. determined_tac.
Qed.

Lemma GET_MATURITY_DATE_determined ticker : determined same_inputs (GET_MATURITY_DATE ticker).
Proof.
  unfold GET_MATURITY_DATE. destruct (blank ticker); [apply determined_ret|].
  cbv zeta. apply determined_bind; [apply determined_cache_get; auto with world|].
  intros [text|]; [determined_tac|].
  apply determined_bind; [apply fetchMaturityDateInternal_determined|].
  intros ?. determined_tac.
Qed.

Lemma GET_NEAREST_OPTION_DATE_determined ticker :
  determined same_inputs (GET_NEAREST_OPTION_DATE ticker).
Proof.
  unfold GET_NEAREST_OPTION_DATE. destruct (ticker =? "")%string; [apply determined_ret|].
  apply determined_bind; [apply fetchBondOptionDatesInternal_determined|].
  intros [text|date remark]; [apply determined_ret|].
  apply determined_bind; [apply determined_set_note; auto with world|].
  intros ?. apply determined_ret.
Qed.

(** C9, as amended: the result of every lookup is a function of the
    ticker, the API, the cache, the current day (midnight of the script's
    time zone), the time zone and the engine's reading of date strings;
    the time of day, the spreadsheet, its note and the requests made
    before do not matter.  The price and the name are functions of the
    ticker, the API and the cache alone. *)
Theorem lookups_are_functions :
  Forall (function_of same_inputs) lookups
  /\ function_of same_api_cache GET_MOEX_PRICE
  /\ function_of same_api_cache GET_MOEX_NAME.
Proof.
  split; [|split].
  - repeat constructor; intros ticker w1 w2 H.
    + now apply (determined_weaken _ (GET_MOEX_PRICE_determined ticker)).
    + now apply GET_NEXT_COUPON_determined.
    + now apply (determined_weaken _ (GET_MOEX_NAME_determined ticker)).
    + now apply GET_COUPON_VALUE_determined.
    + now apply GET_MATURITY_DATE_determined.
    + now apply GET_NEAREST_OPTION_DATE_determined.
  - intros ticker w1 w2 H. now apply GET_MOEX_PRICE_determined.
  - intros ticker w1 w2 H. now apply GET_MOEX_NAME_determined.
Qed.

(** The coupon value in the morning and in the afternoon of one day, with
    another spreadsheet and other requests behind: the same. *)
Lemma lookups_are_functions_witness :
  same_inputs Sample.bond_world Sample.bond_world_afternoon
  /\ fst (GET_COUPON_VALUE "SU26207RMFS9" Sample.bond_world)
     = fst (GET_COUPON_VALUE "SU26207RMFS9" Sample.bond_world_afternoon).
Proof.
  assert (H : same_inputs Sample.bond_world Sample.bond_world_afternoon)
    by (split; reflexivity).
  split; [exact H|].
  pose proof (proj1 lookups_are_functions) as Hall.
  apply Forall_cons_iff in Hall as [_ Hall]. apply Forall_cons_iff in Hall as [_ Hall].
  apply Forall_cons_iff in Hall as [_ Hall]. apply Forall_cons_iff in Hall as [Hcv _].
  exact (Hcv "SU26207RMFS9" _ _ H).
Defined.

(** C9 as stated fails where the current date is read: with one API and
    one (empty) cache, [GET_COUPON_VALUE] gives 50 on 2025-11-02 and 60 on
    2025-11-03, when the coupon of 2025-11-03 has become the next one. *)
Lemma lookups_are_functions_counterexample :
  same_api_cache Sample.bond_world Sample.bond_world_next_day
  /\ fst (GET_COUPON_VALUE "SU26207RMFS9" Sample.bond_world) = Returned (VNum (make 50 0))
  /\ fst (GET_COUPON_VALUE "SU26207RMFS9" Sample.bond_world_next_day)
     = Returned (VNum (make 60 0))
  /\ ~ function_of same_api_cache GET_COUPON_VALUE.
Proof.
  assert (H : same_api_cache Sample.bond_world Sample.bond_world_next_day)
    by (split; reflexivity).
  assert (H1 : fst (GET_COUPON_VALUE "SU26207RMFS9" Sample.bond_world)
               = Returned (VNum (make 50 0))) by (vm_compute; reflexivity).
  assert (H2 : fst (GET_COUPON_VALUE "SU26207RMFS9" Sample.bond_world_next_day)
               = Returned (VNum (make 60 0))) by (vm_compute; reflexivity).
  split; [exact H|]. split; [exact H1|]. split; [exact H2|].
  intros Hf. specialize (Hf "SU26207RMFS9" _ _ H). rewrite H1, H2 in Hf.
  apply (f_equal (fun o => match o with
                           | Returned (VData (JNum (Finite m _))) => m
                           | _ => 0
                           end)) in Hf.
  vm_compute in Hf. discriminate Hf.
Qed.

(** ** Strings through JSON *)

Lemma is_plain_app a b : is_plain (a +:+ b) = is_plain a && is_plain b.
Proof.
  induction a as [|c r IH]; [reflexivity|]. simpl. rewrite IH.
  now rewrite !andb_assoc.
Qed.

Lemma escape_plain s : is_plain s = true -> JSON.escape s = s.
Proof.
  induction s as [|c r IH]; [reflexivity|]. simpl. intros H.
  apply andb_prop in H as [H Hr]. apply andb_prop in H as [H H237].
  apply andb_prop in H as [H H92]. apply andb_prop in H as [H32 H34].
  apply negb_true_iff in H34, H92, H237. apply Z.leb_le in H32.
  rewrite H34, H92, H237. rewrite (IH Hr).
  replace (byte c =? 8) with false by (symmetry; apply Z.eqb_neq; lia).
  replace (byte c =? 12) with false by (symmetry; apply Z.eqb_neq; lia).
  replace (byte c =? 10) with false by (symmetry; apply Z.eqb_neq; lia).
  replace (byte c =? 13) with false by (symmetry; apply Z.eqb_neq; lia).
  replace (byte c =? 9) with false by (symmetry; apply Z.eqb_neq; lia).
  replace (byte c <? 32) with false by (symmetry; apply Z.ltb_ge; lia).
  simpl. destruct r as [|b [|c' r2]]; reflexivity.
Qed.

Lemma read_string_body_plain s rest :
  is_plain s = true ->
  JSON.read_string_body (s +:+ String JSON.quote rest) = Some (s, rest).
Proof.
  induction s as [|c r IH]; [reflexivity|]. simpl. intros H.
  apply andb_prop in H as [H Hr]. apply andb_prop in H as [H H237].
  apply andb_prop in H as [H H92]. apply andb_prop in H as [H32 H34].
  apply negb_true_iff in H34, H92. apply Z.leb_le in H32.
  rewrite H34, H92.
  replace (byte c <? 32) with false by (symmetry; apply Z.ltb_ge; lia).
  now rewrite (IH Hr).
Qed.

Lemma merge_surrogates_plain s : is_plain s = true -> JSON.merge_surrogates s = s.
Proof.
  induction s as [|c r IH]; [reflexivity|]. intros H.
  assert (Hr : is_plain r = true).
  { simpl in H. now apply andb_prop in H as [_ Hr]. }
  assert (H237 : (byte c =? 237) = false).
  { simpl in H. apply andb_prop in H as [H _]. apply andb_prop in H as [_ H].
    now apply negb_true_iff in H. }
  specialize (IH Hr).
  destruct r as [|b [|c2 [|d [|e [|f r']]]]];
    cbn [JSON.merge_surrogates] in *; rewrite ?H237; cbn [andb]; now rewrite ?IH.
Qed.

Lemma read_value_string fuel r :
  JSON.read_value (S fuel) (String JSON.quote r) =
  match JSON.read_string r with
  | Some (t, rest) => Some (JStr t, rest)
  | None => None
  end.
Proof. reflexivity. Qed.

(** A plain string comes back from its JSON text. *)
Lemma parse_quoted_plain s :
  is_plain s = true -> JSON.parse (JSON.quoted s) = Some (JStr s).
Proof.
  intros H. unfold JSON.parse, JSON.quoted. rewrite (escape_plain s H).
  change (2 * String.length (String JSON.quote (s +:+ String JSON.quote "")) + 2)%nat
    with (S (String.length (s +:+ String JSON.quote "")
             + S (String.length (s +:+ String JSON.quote "") + 0) + 2))%nat.
  rewrite read_value_string.
  unfold JSON.read_string. rewrite (read_string_body_plain s "" H).
  rewrite (merge_surrogates_plain s H). reflexivity.
Qed.

Lemma string_of_uint_plain d : is_plain (NilEmpty.string_of_uint d) = true.
Proof. induction d; simpl; auto. Qed.

Lemma of_Z_plain z : is_plain (JSString.of_Z z) = true.
Proof.
  unfold JSString.of_Z, NilZero.string_of_int, NilZero.string_of_uint.
  destruct (Z.to_int z) as [d|d]; destruct d; try reflexivity;
    try apply (string_of_uint_plain (Decimal.D0 _));
    simpl; try apply string_of_uint_plain.
Qed.

(** The messages of the date resolvers are plain, not empty, and not in
    the date format: they start with a Cyrillic letter. *)
Lemma date_resolver_message_plain text :
  date_resolver_message text ->
  is_plain text = true /\ text <> "" /\ forall tz, iso_parse tz text = NotIso.
Proof.
  intros [Hin | [code ->]].
  - simpl in Hin.
    repeat (destruct Hin as [<- | Hin];
            [split; [reflexivity | split; [discriminate | intros; reflexivity]]|]).
    contradiction.
  - split; [|split].
    + rewrite is_plain_app, of_Z_plain. reflexivity.
    + discriminate.
    + intros. reflexivity.
Qed.

(** ** What the date resolvers return *)

Lemma results_ret {A} (P : A -> Prop) a : P a -> results_in P (mret a).
Proof. intros H w a' [= <-]. exact H. Qed.

Lemma results_bind {A B} (P : B -> Prop) (m : M A) (k : A -> M B) :
  (forall a, results_in P (k a)) -> results_in P (m ≫= k).
Proof.
  intros Hk w b. unfold mbind, M_bind.
  destruct (m w) as [[a|e] w']; [apply Hk | discriminate].
Qed.

Lemma results_try_catch {A} (P : A -> Prop) (body : M A) (handler : Exn -> M A) :
  results_in P body -> (forall e, results_in P (handler e)) ->
  results_in P (try_catch body handler).
Proof.
  intros Hb Hh w a. unfold try_catch. specialize (Hb w).
  destruct (body w) as [[a'|e] w']; [exact (Hb a) | apply Hh].
Qed.

Lemma message_is_message text :
  In text date_resolver_messages -> message_or_date (VStr text).
Proof. intros H t [= <-]. now left. Qed.

Ltac results_tac :=
  repeat first
    [ apply results_ret;
      first [ apply message_is_message; simpl; tauto
            | unfold message_or_date; intros ? [= <-]; right; eexists; reflexivity
            | unfold message_or_date; intros ? ?; discriminate ]
    | apply results_bind; intros ?
    | apply results_try_catch; [|intros ?]
    | match goal with
      | |- results_in _ (if ?b then _ else _) => destruct b
      | |- results_in _ (match ?x with _ => _ end) => destruct x
      | |- results_in _ (let _ := _ in _) => cbv zeta
      end ].

Lemma fetchNextCouponInternal_results ticker :
  results_in message_or_date (fetchNextCouponInternal ticker).
Proof. unfold fetchNextCouponInternal. results_tac. Qed.

Lemma fetchMaturityDateInternal_results ticker :
  results_in message_or_date (fetchMaturityDateInternal ticker).
Proof. unfold fetchMaturityDateInternal. results_tac. Qed.

(** ** A cached message, read back *)

(** What a resolver leaves of the world when it returns: the log of
    requests apart, the world it started in. *)
Ltac fetch_world Hurl :=
  unfold mbind at 1; unfold M_bind at 1; unfold lift at 1; rewrite Hurl;
  unfold try_catch; unfold mbind at 1; unfold M_bind at 1; unfold UrlFetchApp_fetch;
  match goal with
  | |- context [api ?w ?url] => destruct (api w url) as [msg|response]; [reflexivity|]
  end;
  match goal with
  | |- snd (let (o, w') := ?m ?w0 in _) = _ =>
      let Hs := fresh "Hs" in
      assert (Hs : stateless m);
      [ stateless_tac
      | specialize (Hs w0); destruct (m w0) as [[a|e] w']; simpl in *; subst; reflexivity ]
  end.

Lemma fetchNextCouponInternal_world ticker url w :
  securities_url ticker = Returned url ->
  snd (fetchNextCouponInternal ticker w) = with_requests (url :: requests w) w.
Proof. intros Hurl. unfold fetchNextCouponInternal. fetch_world Hurl. Qed.

Lemma fetchMaturityDateInternal_world ticker url w :
  securities_url ticker = Returned url ->
  snd (fetchMaturityDateInternal ticker w) = with_requests (url :: requests w) w.
Proof. intros Hurl. unfold fetchMaturityDateInternal. fetch_world Hurl. Qed.

(** Reading back, in a world [w], the JSON text of a message: the ISO
    format does not match it, and the Date is what the engine of [w]
    reads out of it. *)
Lemma restore_date_engine w text :
  date_resolver_message text ->
  restore_date (JSON_stringify (VStr text)) w
  = (Returned (VDate (t ← engine_date_parse w text; JSDate.time_clip t)), w).
Proof.
  intros Hm. destruct (date_resolver_message_plain text Hm) as (Hplain & Hne & Hiso).
  unfold restore_date, JSON_parse, mbind, M_bind, lift, ask. simpl JSON_stringify.
  rewrite (parse_quoted_plain text Hplain). cbn.
  assert (Ht : truthy (Some (JStr text)) = true).
  { unfold truthy. apply negb_true_iff. now apply String.eqb_neq. }
  unfold truthy in Ht. rewrite Ht. unfold new_Date, Date_parse. rewrite Hiso.
  reflexivity.
Qed.

(** Reading back, in a world [w], the JSON text of a message that the
    engine of [w] does not take for a date: an Invalid Date. *)
Lemma restore_date_message w text :
  date_resolver_message text -> engine_date_parse w text = None ->
  restore_date (JSON_stringify (VStr text)) w = (Returned (VDate None), w).
Proof.
  intros Hm Hengine. destruct (date_resolver_message_plain text Hm) as (Hplain & Hne & Hiso).
  unfold restore_date, JSON_parse, mbind, M_bind, lift, ask. simpl JSON_stringify.
  rewrite (parse_quoted_plain text Hplain). cbn.
  assert (Ht : truthy (Some (JStr text)) = true).
  { unfold truthy. apply negb_true_iff. now apply String.eqb_neq. }
  unfold truthy in Ht. rewrite Ht. unfold new_Date, Date_parse. rewrite Hiso, Hengine.
  reflexivity.
Qed.

Section CachedDate.

Context (f : string -> M Value) (key : string -> string) (ttl : Z)
        (resolve : string -> M Value).
Hypothesis f_caches :
  caches f key ttl resolve (fun r => r) (fun r => Returned (JSON_stringify r)) restore_date.
Hypothesis resolve_results : forall ticker, results_in message_or_date (resolve ticker).
Hypothesis resolve_world : forall ticker url w,
  securities_url ticker = Returned url ->
  snd (resolve ticker w) = with_requests (url :: requests w) w.
Hypothesis resolve_url : forall ticker w v,
  fst (resolve ticker w) = Returned v -> exists url, securities_url ticker = Returned url.
Hypothesis f_miss_throws : forall ticker w e,
  blank ticker = false -> cache w !! key ticker = None ->
  fst (resolve ticker w) = Thrown e -> fst (f ticker w) = Thrown e.

Lemma cached_hit ticker w text e j :
  blank ticker = false -> cache w !! key ticker = Some (text, e) ->
  JSON_parse text = Returned j ->
  f ticker w
  = if truthy (Some j)
    then match new_Date w (Some j) with
         | Returned d => (Returned (VDate d), w)
         | Thrown x => (Thrown x, w)
         end
    else (Returned (VStr "Нет данных"), w).
Proof.
  intros Hb Hc Hj. rewrite (proj1 (f_caches ticker w Hb) text e Hc).
  unfold restore_date, mbind, M_bind, lift, ask. rewrite Hj.
  destruct (truthy (Some j)); [|reflexivity].
  destruct (new_Date w (Some j)); reflexivity.
Qed.

Lemma cached_message ticker w message :
  blank ticker = false -> cache w !! key ticker = None ->
  fst (f ticker w) = Returned (VStr message) ->
  engine_date_parse w message = None ->
  cache (snd (f ticker w)) !! key ticker = Some (JSON_stringify (VStr message), ttl)
  /\ f ticker (snd (f ticker w)) = (Returned (VDate None), snd (f ticker w)).
Proof.
  intros Hb Hc Hr Hengine.
  destruct (resolve ticker w) as [[r|x] w1] eqn:Hres.
  - pose proof (proj2 (f_caches ticker w Hb) Hc r w1 _ Hres eq_refl) as Hf.
    rewrite Hf in Hr |- *. cbn [fst snd] in *. injection Hr as ->.
    assert (Hm : date_resolver_message message).
    { apply (resolve_results ticker w (VStr message)); [now rewrite Hres | reflexivity]. }
    destruct (resolve_url ticker w (VStr message)) as [url Hurl]; [now rewrite Hres|].
    pose proof (resolve_world ticker url w Hurl) as Hw. rewrite Hres in Hw. cbn in Hw. subst w1.
    set (w2 := with_cache _ _).
    assert (Hhit : cache w2 !! key ticker = Some (JSON_stringify (VStr message), ttl)).
    { unfold w2. cbn. apply lookup_insert_eq. }
    split; [exact Hhit|].
    rewrite (proj1 (f_caches ticker w2 Hb) _ _ Hhit).
    apply restore_date_message; [exact Hm | exact Hengine].
  - pose proof (f_miss_throws ticker w x Hb Hc) as Hf. rewrite Hres in Hf.
    rewrite (Hf eq_refl) in Hr. discriminate.
Qed.

Lemma cached_message_engine ticker w message :
  blank ticker = false -> cache w !! key ticker = None ->
  fst (f ticker w) = Returned (VStr message) ->
  f ticker (snd (f ticker w))
  = (Returned (VDate (t ← engine_date_parse w message; JSDate.time_clip t)),
     snd (f ticker w)).
Proof.
  intros Hb Hc Hr.
  destruct (resolve ticker w) as [[r|x] w1] eqn:Hres.
  - pose proof (proj2 (f_caches ticker w Hb) Hc r w1 _ Hres eq_refl) as Hf.
    rewrite Hf in Hr |- *. cbn [fst snd] in *. injection Hr as ->.
    assert (Hm : date_resolver_message message).
    { apply (resolve_results ticker w (VStr message)); [now rewrite Hres | reflexivity]. }
    destruct (resolve_url ticker w (VStr message)) as [url Hurl]; [now rewrite Hres|].
    pose proof (resolve_world ticker url w Hurl) as Hw. rewrite Hres in Hw. cbn in Hw. subst w1.
    set (w2 := with_cache _ _).
    assert (Hhit : cache w2 !! key ticker = Some (JSON_stringify (VStr message), ttl)).
    { unfold w2. cbn. apply lookup_insert_eq. }
    rewrite (proj1 (f_caches ticker w2 Hb) _ _ Hhit).
    rewrite (restore_date_engine w2 message Hm). reflexivity.
  - pose proof (f_miss_throws ticker w x Hb Hc) as Hf. rewrite Hres in Hf.
    rewrite (Hf eq_refl) in Hr. discriminate.
Qed.

End CachedDate.

Lemma resolver_url {A} ticker (k : string -> M A) w v :
  fst ((lift (securities_url ticker) ≫= k) w) = Returned v ->
  exists url, securities_url ticker = Returned url.
Proof.
  unfold mbind, M_bind, lift. destruct (securities_url ticker) as [url|e]; [eauto|discriminate].
Qed.

Lemma GET_NEXT_COUPON_miss_throws ticker w e :
  blank ticker = false -> cache w !! (ticker +:+ "_coupon") = None ->
  fst (fetchNextCouponInternal ticker w) = Thrown e -> fst (GET_NEXT_COUPON ticker w) = Thrown e.
Proof.
  intros Hb Hc Hr. unfold GET_NEXT_COUPON. run_lookup Hb. rewrite Hc. cbn.
  destruct (fetchNextCouponInternal ticker w) as [[r|x] w1]; cbn in *; congruence.
Qed.

Lemma GET_MATURITY_DATE_miss_throws ticker w e :
  blank ticker = false -> cache w !! (ticker +:+ "_maturity") = None ->
  fst (fetchMaturityDateInternal ticker w) = Thrown e ->
  fst (GET_MATURITY_DATE ticker w) = Thrown e.
Proof.
  intros Hb Hc Hr. unfold GET_MATURITY_DATE. run_lookup Hb. rewrite Hc. cbn.
  destruct (fetchMaturityDateInternal ticker w) as [[r|x] w1]; cbn in *; congruence.
Qed.

(** C10, as amended: on a hit, GET_NEXT_COUPON and GET_MATURITY_DATE give
    every truthy value read from the cache to the Date constructor, and
    answer 'Нет данных' for a falsy one.  So a message does not come back:
    when a call that found nothing in the cache returned a message, the
    message is in the cache afterwards, as JSON, and the next call returns
    [new Date] of it.  That is an Invalid Date when the engine does not
    read the message as a date (such as 'Тикер не найден'); the ISO format
    never matches a message, and what the engine's own parser reads out of
    one is the Date returned. *)
Theorem cached_error_is_invalid_date :
  (forall ticker w text e j,
     blank ticker = false -> JSON_parse text = Returned j ->
     (cache w !! (ticker +:+ "_coupon") = Some (text, e) ->
      GET_NEXT_COUPON ticker w
      = if truthy (Some j)
        then match new_Date w (Some j) with
             | Returned d => (Returned (VDate d), w)
             | Thrown x => (Thrown x, w)
             end
        else (Returned (VStr "Нет данных"), w))
     /\ (cache w !! (ticker +:+ "_maturity") = Some (text, e) ->
         GET_MATURITY_DATE ticker w
         = if truthy (Some j)
           then match new_Date w (Some j) with
                | Returned d => (Returned (VDate d), w)
                | Thrown x => (Thrown x, w)
                end
           else (Returned (VStr "Нет данных"), w)))
  /\ (forall ticker w message,
        blank ticker = false -> engine_date_parse w message = None ->
        (cache w !! (ticker +:+ "_coupon") = None ->
         fst (GET_NEXT_COUPON ticker w) = Returned (VStr message) ->
         let w' := snd (GET_NEXT_COUPON ticker w) in
         cache w' !! (ticker +:+ "_coupon") = Some (JSON_stringify (VStr message), 21600)
         /\ GET_NEXT_COUPON ticker w' = (Returned (VDate None), w'))
        /\ (cache w !! (ticker +:+ "_maturity") = None ->
            fst (GET_MATURITY_DATE ticker w) = Returned (VStr message) ->
            let w' := snd (GET_MATURITY_DATE ticker w) in
            cache w' !! (ticker +:+ "_maturity")
            = Some (JSON_stringify (VStr message), 86400)
            /\ GET_MATURITY_DATE ticker w' = (Returned (VDate None), w')))
  /\ (forall ticker w message,
        blank ticker = false ->
        (cache w !! (ticker +:+ "_coupon") = None ->
         fst (GET_NEXT_COUPON ticker w) = Returned (VStr message) ->
         let w' := snd (GET_NEXT_COUPON ticker w) in
         GET_NEXT_COUPON ticker w'
         = (Returned (VDate (t ← engine_date_parse w message; JSDate.time_clip t)), w'))
        /\ (cache w !! (ticker +:+ "_maturity") = None ->
            fst (GET_MATURITY_DATE ticker w) = Returned (VStr message) ->
            let w' := snd (GET_MATURITY_DATE ticker w) in
            GET_MATURITY_DATE ticker w'
            = (Returned (VDate (t ← engine_date_parse w message; JSDate.time_clip t)), w'))).
Proof.
  split; [|split].
  - intros ticker w text e j Hb Hj. split; intros Hc.
    + exact (cached_hit _ _ _ _ GET_NEXT_COUPON_caches ticker w text e j Hb Hc Hj).
    + exact (cached_hit _ _ _ _ GET_MATURITY_DATE_caches ticker w text e j Hb Hc Hj).
  - intros ticker w message Hb Hengine. split; intros Hc Hr.
    + apply (cached_message _ _ _ _ GET_NEXT_COUPON_caches fetchNextCouponInternal_results
               fetchNextCouponInternal_world
               (fun t w v => resolver_url t _ w v)
               GET_NEXT_COUPON_miss_throws ticker w message Hb Hc Hr Hengine).
    + apply (cached_message _ _ _ _ GET_MATURITY_DATE_caches fetchMaturityDateInternal_results
               fetchMaturityDateInternal_world
               (fun t w v => resolver_url t _ w v)
               GET_MATURITY_DATE_miss_throws ticker w message Hb Hc Hr Hengine).
  - intros ticker w message Hb. split; intros Hc Hr.
    + apply (cached_message_engine _ _ _ _ GET_NEXT_COUPON_caches
               fetchNextCouponInternal_results fetchNextCouponInternal_world
               (fun t w v => resolver_url t _ w v)
               GET_NEXT_COUPON_miss_throws ticker w message Hb Hc Hr).
    + apply (cached_message_engine _ _ _ _ GET_MATURITY_DATE_caches
               fetchMaturityDateInternal_results fetchMaturityDateInternal_world
               (fun t w v => resolver_url t _ w v)
               GET_MATURITY_DATE_miss_throws ticker w message Hb Hc Hr).
Qed.

(** The API does not know NOSUCHBOND: the first call returns the message,
    the second an Invalid Date. *)
Lemma cached_error_is_invalid_date_witness :
  fst (GET_NEXT_COUPON "NOSUCHBOND" Sample.unknown_world) = Returned (VStr "Тикер не найден")
  /\ fst (GET_NEXT_COUPON "NOSUCHBOND" (snd (GET_NEXT_COUPON "NOSUCHBOND" Sample.unknown_world)))
     = Returned (VDate None).
Proof.
  split; [vm_compute; reflexivity|].
  rewrite (proj2 (proj1 (proj1 (proj2 cached_error_is_invalid_date) "NOSUCHBOND"
                           Sample.unknown_world "Тикер не найден" eq_refl eq_refl) eq_refl
                    ltac:(vm_compute; reflexivity))).
  reflexivity.
Defined.

(** C10 as stated fails where the engine reads a date out of the
    message.  In [legacy_world] the API answers 404: the first call
    returns "Ошибка API: 404", and the second, from the cache, a valid
    Date in the year 404, not an Invalid Date. *)
Lemma cached_error_is_invalid_date_counterexample :
  fst (GET_NEXT_COUPON "SU26207RMFS9" legacy_world) = Returned (VStr "Ошибка API: 404")
  /\ fst (GET_NEXT_COUPON "SU26207RMFS9" (snd (GET_NEXT_COUPON "SU26207RMFS9" legacy_world)))
     = Returned (VDate (Some year_404))
  /\ ~ error_comes_back_invalid GET_NEXT_COUPON (fun t => t +:+ "_coupon").
Proof.
  assert (Hmiss : fst (GET_NEXT_COUPON "SU26207RMFS9" legacy_world)
                  = Returned (VStr "Ошибка API: 404")) by (vm_compute; reflexivity).
  assert (Hhit : fst (GET_NEXT_COUPON "SU26207RMFS9"
                        (snd (GET_NEXT_COUPON "SU26207RMFS9" legacy_world)))
                 = Returned (VDate (Some year_404))) by (vm_compute; reflexivity).
  split; [exact Hmiss|]. split; [exact Hhit|].
  intros H. specialize (H "SU26207RMFS9" legacy_world "Ошибка API: 404" eq_refl eq_refl Hmiss).
  rewrite Hhit in H. discriminate H.
Qed.

(** ** The nearest event *)

Import EventSpec.

Lemma rows_of_inv data rows :
  rows_of data = Some rows ->
  data = map JArr rows /\ Forall (fun cells => forallb is_scalar cells = true) rows.
Proof.
  revert rows. induction data as [|row rest IH]; intros rows; simpl.
  - intros [= <-]. split; constructor.
  - destruct row as [| | | |cells|]; simpl; try discriminate.
    destruct (forallb is_scalar cells) eqn:Hc; [|discriminate].
    destruct (rows_of rest) as [rs|]; [|discriminate].
    intros [= <-]. destruct (IH rs eq_refl) as [-> Hrs]. split; [reflexivity|].
    constructor; assumption.
Qed.

Lemma nth_item_scalar cells i cell :
  forallb is_scalar cells = true -> nth_item cells i = Some cell -> is_scalar cell = true.
Proof.
  intros Hc. unfold nth_item. destruct (i <? 0); [discriminate|].
  intros Hn. apply nth_error_In in Hn.
  rewrite forallb_forall in Hc. now apply Hc.
Qed.

Lemma upcoming_ge w cell d :
  new_Date w (Some cell) = Returned d ->
  truthy (Some cell) && JSDate.ge d (today w) = upcoming w cell.
Proof.
  intros Hd. unfold upcoming, date_of. rewrite Hd. unfold today.
  destruct d; reflexivity.
Qed.

Lemma push_amortization_row w cols cells events :
  forallb is_scalar cells = true ->
  push_amortization w (array_index_of "amortdate" cols 0) (JArr cells) events
  = Returned (events ++ map (amortization w) (kept_row w cols "amortdate" cells))%list.
Proof.
  intros Hc. unfold push_amortization, kept_row, column_value. cbn [index mbind Outcome_bind].
  destruct (nth_item cells (array_index_of "amortdate" cols 0)) as [cell|] eqn:Hn;
    [|cbn; now rewrite app_nil_r].
  pose proof (nth_item_scalar _ _ _ Hc Hn) as Hs.
  destruct (new_Date_scalar w cell Hs) as [d Hd].
  destruct (toString_scalar cell Hs) as [s Ht].
  rewrite <- (upcoming_ge w cell d Hd).
  destruct (truthy (Some cell)); [|cbn; now rewrite app_nil_r].
  rewrite Hd. cbn [mbind Outcome_bind andb].
  destruct (JSDate.ge d (today w)); [|cbn; now rewrite app_nil_r].
  unfold JS.toString. rewrite Ht. cbn.
  unfold amortization, date_of, text_of. cbn [snd]. rewrite Hd, Ht. reflexivity.
Qed.

Lemma offer_type_scalar cols cells :
  forallb is_scalar cells = true -> is_scalar (offer_type cols cells) = true.
Proof.
  intros Hc. unfold offer_type, column_value.
  destruct (nth_item cells _) as [j|] eqn:Hn; [|reflexivity].
  destruct (truthy (Some j)); [|reflexivity].
  exact (nth_item_scalar _ _ _ Hc Hn).
Qed.

Lemma push_offer_row w cols cells events :
  forallb is_scalar cells = true ->
  push_offer w (array_index_of "offerdate" cols 0) (array_index_of "offertype" cols 0)
    (JArr cells) events
  = Returned (events ++ map (offer w cols) (kept_row w cols "offerdate" cells))%list.
Proof.
  intros Hc. unfold push_offer, kept_row, column_value at 1. cbn [index mbind Outcome_bind].
  destruct (nth_item cells (array_index_of "offerdate" cols 0)) as [cell|] eqn:Hn;
    [|cbn; now rewrite app_nil_r].
  pose proof (nth_item_scalar _ _ _ Hc Hn) as Hs.
  destruct (new_Date_scalar w cell Hs) as [d Hd].
  destruct (toString_scalar cell Hs) as [s Ht].
  destruct (toString_scalar _ (offer_type_scalar cols cells Hc)) as [label Hl].
  rewrite <- (upcoming_ge w cell d Hd).
  destruct (truthy (Some cell)); [|cbn; now rewrite app_nil_r].
  rewrite Hd. cbn [mbind Outcome_bind andb].
  destruct (JSDate.ge d (today w)); [|cbn; now rewrite app_nil_r].
  assert (Hdeclared :
    (if negb (array_index_of "offertype" cols 0 =? -1)
     then index (Some (JArr cells)) (array_index_of "offertype" cols 0)
     else Returned None)
    = Returned (if negb (array_index_of "offertype" cols 0 =? -1)
                then nth_item cells (array_index_of "offertype" cols 0) else None)).
  { destruct (negb _); reflexivity. }
  cbn [index] in Hdeclared. rewrite Hdeclared. cbn [mbind Outcome_bind].
  assert (Htype :
    match (if negb (array_index_of "offertype" cols 0 =? -1)
           then nth_item cells (array_index_of "offertype" cols 0) else None) with
    | Some j =>
        if negb (array_index_of "offertype" cols 0 =? -1)
           && truthy (if negb (array_index_of "offertype" cols 0 =? -1)
                      then nth_item cells (array_index_of "offertype" cols 0) else None)
        then j else JStr "Оферта"
    | None => JStr "Оферта"
    end = offer_type cols cells).
  { unfold offer_type, column_value.
    destruct (array_index_of "offertype" cols 0 =? -1) eqn:Hi; cbn [negb andb].
    - apply Z.eqb_eq in Hi. rewrite Hi. reflexivity.
    - destruct (nth_item cells (array_index_of "offertype" cols 0)); reflexivity. }
  rewrite Htype, Hl. unfold JS.toString. rewrite Ht. cbn.
  unfold offer, date_of, text_of. cbn [snd fst]. rewrite Hd, Ht, Hl. reflexivity.
Qed.

Lemma for_each_rows {R} (f : Json -> list Event.t -> Outcome (list Event.t))
    (g : list Json -> list R) (event : R -> Event.t) rows :
  Forall (fun cells => forallb is_scalar cells = true) rows ->
  (forall cells events, forallb is_scalar cells = true ->
     f (JArr cells) events = Returned (events ++ map event (g cells))%list) ->
  forall events,
    for_each f (map JArr rows) events = Returned (events ++ map event (flat_map g rows))%list.
Proof.
  intros Hrows Hf. induction Hrows as [|cells rows Hc _ IH]; intros events; simpl.
  - now rewrite app_nil_r.
  - rewrite (Hf cells events Hc). cbn [mbind Outcome_bind]. rewrite IH.
    now rewrite map_app, app_assoc.
Qed.

Lemma table_inv body name cols rows :
  table body name = Some (cols, rows) ->
  exists fs, body = JObj fs
    /\ ((lookup_field name fs = None /\ cols = [] /\ rows = [])
        \/ (exists bfs, lookup_field name fs = Some (JObj bfs)
              /\ lookup_field "columns" bfs = Some (JArr cols)
              /\ lookup_field "data" bfs = Some (JArr (map JArr rows))
              /\ Forall (fun cells => forallb is_scalar cells = true) rows)).
Proof.
  unfold table. destruct body as [| | | | |fs]; try discriminate.
  intros H. exists fs. split; [reflexivity|].
  destruct (lookup_field name fs) as [j|] eqn:Hl.
  - right. destruct (block_of (JObj fs) name) as [b|] eqn:Hb; [|discriminate].
    destruct (rows_of (Block.data b)) as [rs|] eqn:Hr; [|discriminate].
    injection H as <- <-.
    destruct (block_of_inv _ _ _ Hb) as (fs' & bfs & [= <-] & H1 & H2 & H3).
    destruct (rows_of_inv _ _ Hr) as [Hd Hs].
    exists bfs. rewrite <- Hd. rewrite Hl in H1. auto.
  - left. injection H as <- <-. auto.
Qed.

Lemma kept_no_column w cols datecol rows :
  array_index_of datecol cols 0 = -1 -> kept w cols datecol rows = [].
Proof.
  intros Hi. unfold kept. induction rows as [|cells rows IH]; [reflexivity|].
  simpl. rewrite IH. unfold kept_row, column_value. rewrite Hi. reflexivity.
Qed.

Lemma kept_no_rows w cols datecol : kept w cols datecol [] = [].
Proof. reflexivity. Qed.

(** What the resolver returns on an answer with tabular blocks: the
    nearest of the merged events. *)
Lemma fetchBondOptionDatesInternal_events ticker w url text body acols arows ocols orows :
  bondization_url ticker = Returned url ->
  api w url = FetchReturns {| getResponseCode := 200; getContentText := text |} ->
  JSON.parse text = Some body ->
  table body "amortizations" = Some (acols, arows) ->
  table body "offers" = Some (ocols, orows) ->
  fst (fetchBondOptionDatesInternal ticker w)
  = Returned (nearest_of_events (merged w acols arows ocols orows)).
Proof.
  intros Hurl Hapi Hparse Ha Ho.
  destruct (table_inv _ _ _ _ Ha) as (fs & -> & Ha').
  destruct (table_inv _ _ _ _ Ho) as (fs' & [= <-] & Ho').
  unfold fetchBondOptionDatesInternal. run_fetch Hurl Hapi Hparse.
  set (w' := with_requests (url :: requests w) w).
  change (push_amortization w') with (push_amortization w).
  change (push_offer w') with (push_offer w).
  unfold merged.
  destruct Ha' as [(Hal & -> & ->)|(abfs & Hal & Hac & Had & Has)];
  destruct Ho' as [(Hol & -> & ->)|(obfs & Hol & Hoc & Hod & Hos)];
  rewrite Hal, Hol; cbn; rewrite ?Hac, ?Had; cbn.
  - reflexivity.
  - rewrite Hoc, Hod. cbn.
    destruct (array_index_of "offerdate" ocols 0 =? -1) eqn:Hi; cbn.
    + apply Z.eqb_eq in Hi. now rewrite (kept_no_column _ _ _ _ Hi).
    + now rewrite (for_each_rows _ _ _ _ Hos (push_offer_row w ocols)).
  - rewrite app_nil_r.
    destruct (array_index_of "amortdate" acols 0 =? -1) eqn:Hi; cbn.
    + apply Z.eqb_eq in Hi. now rewrite (kept_no_column _ _ _ _ Hi).
    + now rewrite (for_each_rows _ _ _ _ Has (push_amortization_row w acols)).
  - assert (Hamort :
      (if negb (array_index_of "amortdate" acols 0 =? -1)
       then for_each (push_amortization w (array_index_of "amortdate" acols 0))
              (map JArr arows) []
       else Returned [])
      = Returned (map (amortization w) (kept w acols "amortdate" arows))).
    { destruct (array_index_of "amortdate" acols 0 =? -1) eqn:Hi; cbn.
      + apply Z.eqb_eq in Hi. now rewrite (kept_no_column _ _ _ _ Hi).
      + now rewrite (for_each_rows _ _ _ _ Has (push_amortization_row w acols)). }
    rewrite Hamort. cbn. rewrite Hoc, Hod. cbn.
    destruct (array_index_of "offerdate" ocols 0 =? -1) eqn:Hi; cbn.
    + apply Z.eqb_eq in Hi. rewrite (kept_no_column _ _ _ _ Hi). cbn. now rewrite app_nil_r.
    + now rewrite (for_each_rows _ _ _ _ Hos (push_offer_row w ocols)).
Qed.

(** ** Sorting is stable *)

Section Stable.
Context {A : Type} (key : A -> option Z).

Let compare (a b : A) : option Z := JSDate.sub (key a) (key b).

Lemma later_not_on d ky l :
  d < ky -> Forall (date_le (Some ky)) (map key l) -> List.filter (dated_on key d) l = [].
Proof.
  intros Hd. induction l as [|z r IH]; simpl; [reflexivity|].
  intros Hl. apply Forall_cons_iff in Hl as [Hz Hr].
  rewrite (IH Hr). unfold dated_on. destruct (key z) as [kz|]; [|reflexivity].
  simpl in Hz. replace (kz =? d) with false; [reflexivity|].
  symmetry. apply Z.eqb_neq. lia.
Qed.

Lemma sort_insert_stable d x l :
  dated key x -> Forall (dated key) l -> ascending (map key l) ->
  List.filter (dated_on key d) (sort_insert compare x l)
  = (List.filter (dated_on key d) l ++ List.filter (dated_on key d) [x])%list.
Proof.
  intros [kx Hx] Hl. unfold ascending, compare.
  induction l as [|y r IH]; intros Hs; [reflexivity|].
  apply StronglySorted_inv in Hs as [Hr Hy].
  apply Forall_cons_iff in Hl as [[ky Hky] Hl].
  cbn [sort_insert]. rewrite (comes_after_valid key y x ky kx Hky Hx).
  destruct (kx <? ky) eqn:E.
  - apply Z.ltb_lt in E. cbn [List.filter].
    destruct (dated_on key d x) eqn:Hon.
    + assert (kx = d) as ->.
      { unfold dated_on in Hon. rewrite Hx in Hon. now apply Z.eqb_eq. }
      rewrite Hky in Hy. rewrite (later_not_on d ky r E Hy).
      assert (Hoff : dated_on key d y = false).
      { unfold dated_on. rewrite Hky. apply Z.eqb_neq. lia. }
      rewrite Hoff. reflexivity.
    + now rewrite app_nil_r.
  - cbn [List.filter]. rewrite (IH Hl Hr). cbn [List.filter].
    destruct (dated_on key d y); reflexivity.
Qed.

Lemma Array_sort_stable_from d l acc :
  Forall (dated key) l -> Forall (dated key) acc -> ascending (map key acc) ->
  List.filter (dated_on key d) (fold_left (fun acc x => sort_insert compare x acc) l acc)
  = (List.filter (dated_on key d) acc ++ List.filter (dated_on key d) l)%list.
Proof.
  unfold compare.
  revert acc. induction l as [|x r IH]; intros acc Hl Hacc Hs; simpl.
  - now rewrite app_nil_r.
  - apply Forall_cons_iff in Hl as [Hx Hr].
    rewrite IH;
      [ | exact Hr | now apply sort_insert_dated | now apply sort_insert_ascending ].
    pose proof (sort_insert_stable d x acc Hx Hacc Hs) as Hx'. unfold compare in Hx'.
    rewrite Hx'. cbn [List.filter].
    rewrite <- app_assoc. destruct (dated_on key d x); reflexivity.
Qed.

(** Sorting keeps the records of one date in the order they had. *)
Lemma Array_sort_stable d l :
  Forall (dated key) l ->
  List.filter (dated_on key d) (Array_sort compare l) = List.filter (dated_on key d) l.
Proof.
  intros Hl. unfold Array_sort.
  unfold compare. rewrite Array_sort_stable_from; [reflexivity|exact Hl|constructor|constructor].
Qed.

(** The head of a sorted sequence has the least date. *)
Lemma Array_sort_least l first rest :
  Forall (dated key) l -> Array_sort compare l = first :: rest ->
  In first l /\ Forall (fun a => date_le (key first) (key a)) l.
Proof.
  unfold compare. intros Hl Hsort.
  pose proof (Array_sort_permutation key l) as Hp. rewrite Hsort in Hp.
  pose proof (Array_sort_ascending key l Hl) as Hs. rewrite Hsort in Hs.
  split.
  - eapply Permutation_in; [symmetry; exact Hp|now left].
  - eapply Permutation_Forall; [symmetry; exact Hp|].
    simpl in Hs. apply StronglySorted_inv in Hs as [_ Hrest]. constructor.
    + assert (Hf : dated key first).
      { eapply (proj1 (List.Forall_forall _ _) Hl).
        eapply Permutation_in; [symmetry; exact Hp|now left]. }
      destruct Hf as [k Hk]. rewrite Hk. simpl. lia.
    + now apply (proj1 (List.Forall_map key (date_le (key first)) rest)).
Qed.

End Stable.

(** ** The distinct descriptions *)

Lemma seen_in x seen : existsb (String.eqb x) seen = true <-> In x seen.
Proof.
  rewrite existsb_exists. split.
  - intros (y & Hy & He). apply String.eqb_eq in He. now subst.
  - intros Hx. exists x. split; [exact Hx|apply String.eqb_refl].
Qed.

Lemma unique_from_in seen l x :
  In x (unique_from seen l) <-> In x l /\ ~ In x seen.
Proof.
  revert seen. induction l as [|y r IH]; intros seen; simpl; [tauto|].
  destruct (existsb (String.eqb y) seen) eqn:E.
  - apply seen_in in E. rewrite IH. split; [tauto|].
    intros [[<-|Hr] Hn]; tauto.
  - assert (Hy : ~ In y seen) by (rewrite <- seen_in, E; discriminate).
    simpl. rewrite IH. simpl. split.
    + intros [<-|[Hr Hn]]; [tauto|]. split; [tauto|]. intros Hs. apply Hn. now right.
    + intros [[<-|Hr] Hn]; [now left|].
      destruct (String.eqb_spec y x) as [->|Hne]; [now left|]. right. split; [exact Hr|].
      intros [Heq|Hs]; [now apply Hne|now apply Hn].
Qed.

Lemma unique_from_NoDup seen l : List.NoDup (unique_from seen l).
Proof.
  revert seen. induction l as [|y r IH]; intros seen; simpl; [constructor|].
  destruct (existsb (String.eqb y) seen); [apply IH|].
  apply List.NoDup_cons; [|apply IH].
  rewrite unique_from_in. intros [_ Hn]. apply Hn. now left.
Qed.

Lemma unique_from_sublist seen l : sublist (unique_from seen l) l.
Proof.
  revert seen. induction l as [|y r IH]; intros seen; simpl; [constructor|].
  destruct (existsb (String.eqb y) seen); [apply sublist_cons|apply sublist_skip]; apply IH.
Qed.

(** [unique l]: every string of [l], once, in the order of [l]. *)
Lemma unique_spec l :
  List.NoDup (unique l) /\ (forall s, In s (unique l) <-> In s l) /\ sublist (unique l) l.
Proof.
  split; [apply unique_from_NoDup|]. split; [|apply unique_from_sublist].
  intros s. unfold unique. rewrite unique_from_in. simpl. tauto.
Qed.

(** Every event kept has a date, on or after today. *)
Lemma kept_upcoming w cols datecol rows r :
  In r (kept w cols datecol rows) -> upcoming w (snd r) = true.
Proof.
  unfold kept. rewrite in_flat_map. intros (cells & _ & Hr).
  unfold kept_row in Hr. destruct (column_value cols cells datecol) as [cell|]; [|destruct Hr].
  destruct (upcoming w cell) eqn:Hu; [|destruct Hr].
  destruct Hr as [<-|[]]. exact Hu.
Qed.

Lemma upcoming_date w cell :
  upcoming w cell = true -> date_le (today w) (date_of w cell).
Proof.
  unfold upcoming. intros H. apply andb_true_iff in H as [_ H].
  unfold today. destruct (date_of w cell) as [d|]; [|discriminate].
  simpl. now apply Z.leb_le.
Qed.

Lemma merged_upcoming w acols arows ocols orows :
  Forall (fun e => date_le (today w) (Event.date e)) (merged w acols arows ocols orows).
Proof.
  unfold merged. apply Forall_app. split; apply List.Forall_map, List.Forall_forall; intros r Hr;
    simpl; apply upcoming_date; eapply kept_upcoming; exact Hr.
Qed.

Lemma date_le_dated {A} (key : A -> option Z) t l :
  Forall (fun a => date_le t (key a)) l -> Forall (dated key) l.
Proof.
  apply List.Forall_impl. intros a. unfold dated, date_le.
  destruct t; [|tauto]. destruct (key a); [eauto|tauto].
Qed.

(** C6: on an answer whose amortizations and offers blocks, where there
    are any, are tabular with rows of scalar cells, the nearest-event
    resolver keeps the amortization rows and the offer rows whose date
    cell is not empty and parses to a date on or after today (time
    zeroed), the amortizations before the offers; it makes the one request
    for the bondization, so never one for the maturity date; with no
    event kept it returns "Нет оферт/аморт."; otherwise it sorts the
    events by date, ascending, events of one date staying in the order
    of insertion, and returns the date of the first, which is the least,
    with the note of the distinct descriptions in that order and the
    line of the nearest event. *)
Theorem nearest_event ticker w url text body acols arows ocols orows :
  bondization_url ticker = Returned url ->
  api w url = FetchReturns {| getResponseCode := 200; getContentText := text |} ->
  JSON.parse text = Some body ->
  table body "amortizations" = Some (acols, arows) ->
  table body "offers" = Some (ocols, orows) ->
  let events := merged w acols arows ocols orows in
  let sorted := Array_sort by_event_date events in
  let descriptions := unique (map Event.description sorted) in
  Forall (fun e => date_le (today w) (Event.date e)) events
  /\ requests (snd (fetchBondOptionDatesInternal ticker w)) = url :: requests w
  /\ (events = [] ->
      fst (fetchBondOptionDatesInternal ticker w)
      = Returned (OptionDatesError "Нет оферт/аморт."))
  /\ Permutation events sorted
  /\ ascending (map Event.date sorted)
  /\ (forall d, List.filter (on d) sorted = List.filter (on d) events)
  /\ List.NoDup descriptions
  /\ (forall s, In s descriptions <-> In s (map Event.description sorted))
  /\ sublist descriptions (map Event.description sorted)
  /\ (events <> [] ->
      exists nearest,
        head sorted = Some nearest
        /\ In nearest events
        /\ Forall (fun e => date_le (Event.date nearest) (Event.date e)) events
        /\ fst (fetchBondOptionDatesInternal ticker w)
           = Returned (OptionDatesFound (Event.date nearest) (note descriptions nearest))).
Proof.
  intros Hurl Hapi Hparse Ha Ho events sorted descriptions.
  pose proof (merged_upcoming w acols arows ocols orows) as Hup. fold events in Hup.
  pose proof (date_le_dated Event.date _ _ Hup) as Hdated.
  pose proof (fetchBondOptionDatesInternal_events _ _ _ _ _ _ _ _ _ Hurl Hapi Hparse Ha Ho)
    as Hres. fold events in Hres. unfold nearest_of_events in Hres. fold sorted in Hres.
  destruct (unique_spec (map Event.description sorted)) as (Hnodup & Hin & Hsub).
  split; [exact Hup|].
  split; [now rewrite (fetchBondOptionDatesInternal_world ticker url w Hurl)|].
  split; [intros He; rewrite Hres; unfold sorted; rewrite He; reflexivity|].
  split; [apply (Array_sort_permutation Event.date)|].
  split; [apply (Array_sort_ascending Event.date); exact Hdated|].
  split; [intros d; apply (Array_sort_stable Event.date); exact Hdated|].
  split; [exact Hnodup|]. split; [exact Hin|]. split; [exact Hsub|].
  intros Hne. destruct sorted as [|nearest rest] eqn:Hsorted.
  - exfalso. apply Hne. apply Permutation_nil. symmetry.
    rewrite <- Hsorted. apply (Array_sort_permutation Event.date).
  - exists nearest.
    destruct (Array_sort_least Event.date events nearest rest Hdated Hsorted) as [Hi Hl].
    split; [reflexivity|]. split; [exact Hi|]. split; [exact Hl|]. exact Hres.
Qed.

(** In [Sample.event_world] it is 2025-11-02; the amortization is on
    2025-11-07 and the offer on 2025-11-12. *)
Lemma nearest_event_witness :
  fst (fetchBondOptionDatesInternal "RU000A0JX0J2" Sample.event_world)
  = Returned (OptionDatesFound (Some 1762473600000)
                ("Амортизация: 2025-11-07" +:+ newline +:+ "Оферта: 2025-11-12"
                 +:+ newline +:+ newline +:+ "Ближайшая: Амортизация: 2025-11-07")).
Proof.
  pose proof (nearest_event "RU000A0JX0J2" Sample.event_world
                (Sample.bondization_of "RU000A0JX0J2")
                (JSON.stringify Sample.event_feed) Sample.event_feed
                (map JStr ["amortdate"; "value"]) [[JStr "2025-11-07"; Sample.num 250 0]]
                (map JStr ["offerdate"; "offertype"]) [[JStr "2025-11-12"; JNull]]
                ltac:(vm_compute; reflexivity) ltac:(vm_compute; reflexivity)
                ltac:(vm_compute; reflexivity) ltac:(vm_compute; reflexivity)
                ltac:(vm_compute; reflexivity)) as H.
  cbv zeta in H. destruct H as (_ & _ & _ & _ & _ & _ & _ & _ & _ & Hfound).
  destruct Hfound as (nearest & Hhead & _ & _ & Hres); [vm_compute; discriminate|].
  vm_compute in Hhead. injection Hhead as <-.
  rewrite Hres. vm_compute. reflexivity.
Defined.


(** * The answers when something is wrong *)

(** Unfolds a fetch function down to what it does with the response. *)
Ltac run_request Hurl Hapi :=
  unfold mbind, M_bind, lift, try_catch, UrlFetchApp_fetch;
  rewrite Hurl; simpl; rewrite Hapi; simpl.

(** ** A status that is not 200 *)

(** When the security snapshot is answered with a status other than 200,
    each function that reads it returns "Ошибка API: " followed by the
    status, whatever the body, and has made that one request;
    [fetchCouponValueInternal] does not go on to the coupon schedule. *)
Theorem snapshot_status_error ticker w url code text :
  securities_url ticker = Returned url ->
  api w url = FetchReturns {| getResponseCode := code; getContentText := text |} ->
  code <> 200 ->
  let answer := "Ошибка API: " +:+ JSString.of_Z code in
  let w1 := with_requests (url :: requests w) w in
  fetchSinglePriceInternal ticker w = (Returned (VStr answer), w1)
  /\ fetchNextCouponInternal ticker w = (Returned (VStr answer), w1)
  /\ fetchBondNameInternal ticker w = (Returned (JStr answer), w1)
  /\ fetchCouponValueInternal ticker w = (Returned (VStr answer), w1)
  /\ fetchMaturityDateInternal ticker w = (Returned (VStr answer), w1).
Proof.
  intros Hurl Hapi Hcode answer w1. apply Z.eqb_neq in Hcode.
  repeat split;
    [ unfold fetchSinglePriceInternal | unfold fetchNextCouponInternal
    | unfold fetchBondNameInternal | unfold fetchCouponValueInternal
    | unfold fetchMaturityDateInternal ];
    run_request Hurl Hapi; rewrite Hcode; reflexivity.
Qed.

(** The API is down for maintenance: 503 for every URL. *)
Lemma snapshot_status_error_witness :
  let w := Sample.world (fun _ => FetchReturns {| getResponseCode := 503;
                                                  getContentText := "Service Unavailable" |})
                        Sample.morning in
  fetchSinglePriceInternal "SU26207RMFS9" w
  = (Returned (VStr "Ошибка API: 503"),
     with_requests [Sample.securities_of "SU26207RMFS9"] w).
Proof.
  intros w.
  apply (proj1 (snapshot_status_error "SU26207RMFS9" w (Sample.securities_of "SU26207RMFS9")
                  503 "Service Unavailable" eq_refl eq_refl ltac:(discriminate))).
Defined.

(** The same for the bondization feed: [fetchCouponFromBondization] names
    the feed in its message, [fetchBondOptionDatesInternal] does not, and
    [GET_NEAREST_OPTION_DATE] hands the message on without touching the
    note of the cell. *)
Theorem bondization_status_error ticker w url code text :
  bondization_url ticker = Returned url ->
  api w url = FetchReturns {| getResponseCode := code; getContentText := text |} ->
  code <> 200 ->
  let w1 := with_requests (url :: requests w) w in
  fetchCouponFromBondization ticker w
  = (Returned (VStr ("Ошибка API (bondization): " +:+ JSString.of_Z code)), w1)
  /\ fetchBondOptionDatesInternal ticker w
     = (Returned (OptionDatesError ("Ошибка API: " +:+ JSString.of_Z code)), w1)
  /\ (ticker <> "" ->
      GET_NEAREST_OPTION_DATE ticker w
      = (Returned (VStr ("Ошибка API: " +:+ JSString.of_Z code)), w1)).
Proof.
  intros Hurl Hapi Hcode w1. apply Z.eqb_neq in Hcode.
  assert (Hdates : fetchBondOptionDatesInternal ticker w
                   = (Returned (OptionDatesError ("Ошибка API: " +:+ JSString.of_Z code)), w1)).
  { unfold fetchBondOptionDatesInternal. run_request Hurl Hapi. rewrite Hcode. reflexivity. }
  split; [|split].
  - unfold fetchCouponFromBondization. run_request Hurl Hapi. rewrite Hcode. reflexivity.
  - exact Hdates.
  - intros Hne. unfold GET_NEAREST_OPTION_DATE.
    apply String.eqb_neq in Hne. rewrite Hne.
    unfold mbind, M_bind. rewrite Hdates. reflexivity.
Qed.

Lemma bondization_status_error_witness :
  let w := Sample.world (fun _ => FetchReturns {| getResponseCode := 404;
                                                  getContentText := "" |})
                        Sample.morning in
  fst (GET_NEAREST_OPTION_DATE "RU000A0JX0J2" w) = Returned (VStr "Ошибка API: 404").
Proof.
  intros w.
  rewrite (proj2 (proj2 (bondization_status_error "RU000A0JX0J2" w
                           (Sample.bondization_of "RU000A0JX0J2") 404 ""
                           eq_refl eq_refl ltac:(discriminate)))
             ltac:(discriminate)).
  reflexivity.
Defined.

(** ** A fetch that fails, a body that is not JSON *)

(** When [UrlFetchApp.fetch] throws, the [catch] of each function answers:
    the price, the next coupon, the name and the maturity date with
    "Ошибка скрипта" alone, the coupon value, the coupon schedule and the
    events with the message of the exception after their prefix.  The
    request is in the log. *)
Theorem fetch_failure ticker w msg :
  (forall url,
     securities_url ticker = Returned url -> api w url = FetchThrows msg ->
     let w1 := with_requests (url :: requests w) w in
     fetchSinglePriceInternal ticker w = (Returned (VStr "Ошибка скрипта"), w1)
     /\ fetchNextCouponInternal ticker w = (Returned (VStr "Ошибка скрипта"), w1)
     /\ fetchBondNameInternal ticker w = (Returned (JStr "Ошибка скрипта"), w1)
     /\ fetchMaturityDateInternal ticker w = (Returned (VStr "Ошибка скрипта"), w1)
     /\ fetchCouponValueInternal ticker w
        = (Returned (VStr ("Ошибка скрипта: " +:+ msg)), w1))
  /\ (forall url,
        bondization_url ticker = Returned url -> api w url = FetchThrows msg ->
        let w1 := with_requests (url :: requests w) w in
        fetchCouponFromBondization ticker w
        = (Returned (VStr ("Ошибка bondization: " +:+ msg)), w1)
        /\ fetchBondOptionDatesInternal ticker w
           = (Returned (OptionDatesError ("Ошибка скрипта: " +:+ msg)), w1)).
Proof.
  split; intros url Hurl Hapi w1.
  - repeat split;
      [ unfold fetchSinglePriceInternal | unfold fetchNextCouponInternal
      | unfold fetchBondNameInternal | unfold fetchMaturityDateInternal
      | unfold fetchCouponValueInternal ];
      run_request Hurl Hapi; reflexivity.
  - split; [unfold fetchCouponFromBondization | unfold fetchBondOptionDatesInternal];
      run_request Hurl Hapi; reflexivity.
Qed.

(** No connection: every fetch throws. *)
Lemma fetch_failure_witness :
  let w := Sample.world (fun _ => FetchThrows "DNS error") Sample.morning in
  fst (fetchSinglePriceInternal "SU26207RMFS9" w) = Returned (VStr "Ошибка скрипта")
  /\ fst (fetchCouponValueInternal "SU26207RMFS9" w)
     = Returned (VStr "Ошибка скрипта: DNS error").
Proof.
  intros w.
  destruct (proj1 (fetch_failure "SU26207RMFS9" w "DNS error")
              (Sample.securities_of "SU26207RMFS9") eq_refl eq_refl)
    as (Hprice & _ & _ & _ & Hvalue).
  rewrite Hprice, Hvalue. split; reflexivity.
Defined.

(** When the answer is 200 with a body that is not JSON, the exception of
    [JSON.parse] goes the same way: "Ошибка скрипта" from the four
    functions that drop the message, the prefix and a message from the
    others. *)
Theorem malformed_body ticker w text :
  JSON.parse text = None ->
  (forall url,
     securities_url ticker = Returned url ->
     api w url = FetchReturns {| getResponseCode := 200; getContentText := text |} ->
     let w1 := with_requests (url :: requests w) w in
     fetchSinglePriceInternal ticker w = (Returned (VStr "Ошибка скрипта"), w1)
     /\ fetchNextCouponInternal ticker w = (Returned (VStr "Ошибка скрипта"), w1)
     /\ fetchBondNameInternal ticker w = (Returned (JStr "Ошибка скрипта"), w1)
     /\ fetchMaturityDateInternal ticker w = (Returned (VStr "Ошибка скрипта"), w1)
     /\ exists reason,
          fetchCouponValueInternal ticker w
          = (Returned (VStr ("Ошибка скрипта: " +:+ reason)), w1))
  /\ (forall url,
        bondization_url ticker = Returned url ->
        api w url = FetchReturns {| getResponseCode := 200; getContentText := text |} ->
        let w1 := with_requests (url :: requests w) w in
        exists reason,
          fetchCouponFromBondization ticker w
          = (Returned (VStr ("Ошибка bondization: " +:+ reason)), w1)
          /\ fetchBondOptionDatesInternal ticker w
             = (Returned (OptionDatesError ("Ошибка скрипта: " +:+ reason)), w1)).
Proof.
  intros Hparse. split; intros url Hurl Hapi w1.
  - repeat split;
      [ unfold fetchSinglePriceInternal | unfold fetchNextCouponInternal
      | unfold fetchBondNameInternal | unfold fetchMaturityDateInternal
      | eexists; unfold fetchCouponValueInternal ];
      run_request Hurl Hapi; unfold JSON_parse; rewrite Hparse; reflexivity.
  - eexists.
    split; [unfold fetchCouponFromBondization | unfold fetchBondOptionDatesInternal];
      run_request Hurl Hapi; unfold JSON_parse; rewrite Hparse; reflexivity.
Qed.

(** A gateway that answers 200 with an HTML page. *)
Lemma malformed_body_witness :
  let w := Sample.world (fun _ => FetchReturns {| getResponseCode := 200;
                                                  getContentText := "<html></html>" |})
                        Sample.morning in
  fst (fetchBondNameInternal "SU26207RMFS9" w) = Returned (JStr "Ошибка скрипта").
Proof.
  intros w.
  destruct (proj1 (malformed_body "SU26207RMFS9" w "<html></html>" eq_refl)
              (Sample.securities_of "SU26207RMFS9") eq_refl eq_refl)
    as (_ & _ & Hname & _).
  rewrite Hname. reflexivity.
Defined.

(** ** A ticker the API does not know *)

(** Unfolds a fetch function down to what it does with the parsed body,
    leaving the tests on the body as they are written. *)
Ltac run_body Hurl Hapi Hparse :=
  unfold mbind, M_bind, lift, try_catch, UrlFetchApp_fetch;
  rewrite Hurl; cbv beta iota; rewrite Hapi; cbn [getResponseCode getContentText];
  change (negb (200 =? 200)) with false; cbv beta iota;
  unfold JSON_parse; rewrite Hparse; cbv beta iota zeta.

Lemma no_rows_inv body name :
  no_rows body name = true ->
  exists fs, body = JObj fs
    /\ (lookup_field name fs = None
        \/ exists bfs cols, lookup_field name fs = Some (JObj bfs)
             /\ lookup_field "columns" bfs = Some (JArr cols)
             /\ lookup_field "data" bfs = Some (JArr [])).
Proof.
  unfold no_rows. destruct body as [| | | | |fs]; try discriminate.
  intros H. exists fs. split; [reflexivity|].
  destruct (lookup_field name fs) as [j|] eqn:Hl; [right|now left].
  destruct (block_of (JObj fs) name) as [b|] eqn:Hb; [|discriminate].
  destruct (block_of_inv _ _ _ Hb) as (fs' & bfs & [= <-] & H1 & H2 & H3).
  destruct (Block.data b); [|discriminate].
  exists bfs, (Block.columns b). rewrite Hl in H1. auto.
Qed.

Lemma securities_missing_no_rows body :
  no_rows body "securities" = true -> securities_missing (Some body) = Returned true.
Proof.
  intros H. destruct (no_rows_inv _ _ H) as (fs & -> & [Hl|(bfs & cols & Hl & Hc & Hd)]);
    unfold securities_missing; cbn; rewrite Hl; cbn; [reflexivity|].
  rewrite Hc, Hd. reflexivity.
Qed.

Lemma get_truthy v name : truthy v = true -> exists x, get v name = Returned x.
Proof.
  destruct v as [[| | | | |]|]; try discriminate; intros _; cbn; eauto.
Qed.

Lemma price_incomplete body :
  no_rows body "marketdata" || no_rows body "securities" = true ->
  any_of
    [ not_ (get_path (Some body) ["marketdata"]);
      not_ (get_path (Some body) ["securities"]);
      not_ (get_path (Some body) ["marketdata"; "data"]);
      not_ (get_path (Some body) ["securities"; "data"]);
      length_is_zero (get_path (Some body) ["marketdata"; "data"]);
      length_is_zero (get_path (Some body) ["securities"; "data"]) ]
  = Returned true.
Proof.
  intros H. apply orb_true_iff in H as [H|H];
    destruct (no_rows_inv _ _ H) as (fs & -> & [Hl|(bfs & cols & Hl & Hc & Hd)]).
  - cbn. rewrite Hl. reflexivity.
  - cbn. rewrite Hl. cbn.
    destruct (truthy (lookup_field "securities" fs)) eqn:Hs; cbn; [|reflexivity].
    rewrite Hd. cbn.
    destruct (get_truthy _ "data" Hs) as [x Hx]. rewrite Hx. cbn.
    destruct (truthy x) eqn:Htx; cbn; [|reflexivity].
    change (Z.of_nat 0) with 0. rewrite of_Z_is_zero. reflexivity.
  - cbn.
    destruct (truthy (lookup_field "marketdata" fs)) eqn:Hm; cbn; [|reflexivity].
    rewrite Hl. reflexivity.
  - cbn.
    destruct (truthy (lookup_field "marketdata" fs)) eqn:Hm; cbn; [|reflexivity].
    rewrite Hl. cbn.
    destruct (get_truthy _ "data" Hm) as [x Hx]. rewrite Hx. cbn.
    destruct (truthy x) eqn:Htx; cbn; [|reflexivity].
    rewrite Hd. cbn.
    destruct (get_truthy _ "length" Htx) as [n Hn]. rewrite Hn. cbn.
    destruct (is_number_zero n); cbn; [reflexivity|].
    change (Z.of_nat 0) with 0. rewrite of_Z_is_zero. reflexivity.
Qed.

(** For a ticker the API does not know it sends its blocks without rows.
    When the securities block of the snapshot has no rows, or is not
    there, the next coupon, the name, the coupon value and the maturity
    date are "Тикер не найден", and the coupon schedule is not asked for;
    when the marketdata block or the securities block has none, the price
    is "Тикер не найден или API вернул неполные данные". *)
Theorem unknown_ticker ticker w url text body :
  securities_url ticker = Returned url ->
  api w url = FetchReturns {| getResponseCode := 200; getContentText := text |} ->
  JSON.parse text = Some body ->
  let w1 := with_requests (url :: requests w) w in
  (no_rows body "securities" = true ->
   fetchNextCouponInternal ticker w = (Returned (VStr "Тикер не найден"), w1)
   /\ fetchBondNameInternal ticker w = (Returned (JStr "Тикер не найден"), w1)
   /\ fetchCouponValueInternal ticker w = (Returned (VStr "Тикер не найден"), w1)
   /\ fetchMaturityDateInternal ticker w = (Returned (VStr "Тикер не найден"), w1))
  /\ (no_rows body "marketdata" || no_rows body "securities" = true ->
      fetchSinglePriceInternal ticker w
      = (Returned (VStr "Тикер не найден или API вернул неполные данные"), w1)).
Proof.
  intros Hurl Hapi Hparse w1. split; intros Hno.
  - pose proof (securities_missing_no_rows body Hno) as Hmissing.
    repeat split;
      [ unfold fetchNextCouponInternal | unfold fetchBondNameInternal
      | unfold fetchCouponValueInternal | unfold fetchMaturityDateInternal ];
      run_body Hurl Hapi Hparse; rewrite Hmissing; reflexivity.
  - pose proof (price_incomplete body Hno) as Hincomplete.
    unfold fetchSinglePriceInternal. run_body Hurl Hapi Hparse.
    rewrite Hincomplete. reflexivity.
Qed.

(** [Sample.unknown_world]: the API answers NOSUCHBOND with empty blocks. *)
Lemma unknown_ticker_witness :
  fst (fetchSinglePriceInternal "NOSUCHBOND" Sample.unknown_world)
  = Returned (VStr "Тикер не найден или API вернул неполные данные")
  /\ fst (fetchBondNameInternal "NOSUCHBOND" Sample.unknown_world)
     = Returned (JStr "Тикер не найден").
Proof.
  pose proof (unknown_ticker "NOSUCHBOND" Sample.unknown_world
                (Sample.securities_of "NOSUCHBOND")
                (JSON.stringify Sample.unknown_snapshot) Sample.unknown_snapshot
                eq_refl ltac:(vm_compute; reflexivity) ltac:(vm_compute; reflexivity)) as H.
  cbv zeta in H. destruct H as [Hfour Hprice].
  destruct (Hfour eq_refl) as (_ & Hname & _).
  rewrite (Hprice eq_refl), Hname. split; reflexivity.
Defined.

(** ** The name *)

(** With a securities block that has a first row, [fetchBondNameInternal]
    returns the first truthy value among SECNAME and SHORTNAME (a missing
    column reads as nothing), as it is, and "Наименование не найдено"
    when neither is: an empty SECNAME gives way to SHORTNAME. *)
Theorem name_resolver_fallback ticker w url text body b cells rest :
  securities_url ticker = Returned url ->
  api w url = FetchReturns {| getResponseCode := 200; getContentText := text |} ->
  JSON.parse text = Some body ->
  block_of body "securities" = Some b -> Block.data b = JArr cells :: rest ->
  fetchBondNameInternal ticker w
  = (Returned
       match first_truthy [ column_value (Block.columns b) cells "SECNAME";
                            column_value (Block.columns b) cells "SHORTNAME" ] with
       | Some name => name
       | None => JStr "Наименование не найдено"
       end,
     with_requests (url :: requests w) w).
Proof.
  intros Hurl Hapi Hparse Hb Hd.
  unfold fetchBondNameInternal. run_securities Hurl Hapi Hparse Hb Hd.
  unfold column_value, first_truthy.
  generalize (array_index_of "SECNAME" (Block.columns b) 0) as i.
  generalize (array_index_of "SHORTNAME" (Block.columns b) 0) as k.
  intros k i.
  assert (Hi : (i =? -1) = true -> nth_item cells i = None).
  { intros H. apply Z.eqb_eq in H. now subst. }
  assert (Hk : (k =? -1) = true -> nth_item cells k = None).
  { intros H. apply Z.eqb_eq in H. now subst. }
  destruct (i =? -1) eqn:Ei; cbn.
  - rewrite (Hi eq_refl). cbn.
    destruct (k =? -1) eqn:Ek; cbn.
    + rewrite (Hk eq_refl). reflexivity.
    + destruct (nth_item cells k) as [short|]; [|reflexivity].
      destruct (truthy (Some short)); reflexivity.
  - destruct (nth_item cells i) as [sec|] eqn:Hsec; cbn.
    + destruct (truthy (Some sec)) eqn:Ht; cbn; [rewrite Ht; reflexivity|].
      destruct (k =? -1) eqn:Ek; cbn.
      * rewrite (Hk eq_refl), Ht. reflexivity.
      * destruct (nth_item cells k) as [short|]; [|reflexivity].
        destruct (truthy (Some short)); reflexivity.
    + destruct (k =? -1) eqn:Ek; cbn.
      * rewrite (Hk eq_refl). reflexivity.
      * destruct (nth_item cells k) as [short|]; [|reflexivity].
        destruct (truthy (Some short)); reflexivity.
Qed.

(** The full name of [Sample.bond_world]. *)
Lemma name_resolver_fallback_witness :
  fst (fetchBondNameInternal "SU26207RMFS9" Sample.bond_world)
  = Returned (JStr "ОФЗ-ПД 26207 03/02/27").
Proof.
  rewrite (name_resolver_fallback "SU26207RMFS9" Sample.bond_world
             (Sample.securities_of "SU26207RMFS9")
             (JSON.stringify Sample.full_snapshot) Sample.full_snapshot
             {| Block.columns :=
                  map JStr ["SECID"; "SHORTNAME"; "SECNAME"; "PREVPRICE"; "NEXTCOUPON";
                            "MATDATE"; "COUPONVALUE"];
                Block.data :=
                  [JArr [JStr "SU26207RMFS9"; JStr "ОФЗ 26207"; JStr "ОФЗ-ПД 26207 03/02/27";
                         Sample.num 99 0; JStr "2025-12-03"; JStr "0000-00-00";
                         Sample.num 0 0]] |}
             [JStr "SU26207RMFS9"; JStr "ОФЗ 26207"; JStr "ОФЗ-ПД 26207 03/02/27";
              Sample.num 99 0; JStr "2025-12-03"; JStr "0000-00-00"; Sample.num 0 0]
             [] eq_refl ltac:(vm_compute; reflexivity) ltac:(vm_compute; reflexivity)
             ltac:(vm_compute; reflexivity) eq_refl).
  reflexivity.
Defined.

(** ** A snapshot without the column *)

(** With a securities block that has a first row but no NEXTCOUPON
    column, [fetchNextCouponInternal] says so, and likewise
    [fetchMaturityDateInternal] for MATDATE; neither reads the row. *)
Theorem date_column_missing ticker w url text body b row rest :
  securities_url ticker = Returned url ->
  api w url = FetchReturns {| getResponseCode := 200; getContentText := text |} ->
  JSON.parse text = Some body ->
  block_of body "securities" = Some b -> Block.data b = row :: rest ->
  let w1 := with_requests (url :: requests w) w in
  (array_index_of "NEXTCOUPON" (Block.columns b) 0 = -1 ->
   fetchNextCouponInternal ticker w = (Returned (VStr "Поле NEXTCOUPON отсутствует"), w1))
  /\ (array_index_of "MATDATE" (Block.columns b) 0 = -1 ->
      fetchMaturityDateInternal ticker w
      = (Returned (VStr "Поле MATDATE отсутствует"), w1)).
Proof.
  intros Hurl Hapi Hparse Hb Hd w1.
  split; intros Hi;
    [unfold fetchNextCouponInternal | unfold fetchMaturityDateInternal];
    run_securities Hurl Hapi Hparse Hb Hd; rewrite Hi; reflexivity.
Qed.

(** The snapshot of [Sample.price_world] has SECID and PREVPRICE only. *)
Lemma date_column_missing_witness :
  fst (fetchNextCouponInternal "SU26207RMFS9" Sample.price_world)
  = Returned (VStr "Поле NEXTCOUPON отсутствует").
Proof.
  pose proof (date_column_missing "SU26207RMFS9" Sample.price_world
                (Sample.securities_of "SU26207RMFS9")
                (JSON.stringify Sample.price_snapshot) Sample.price_snapshot
                {| Block.columns := map JStr ["SECID"; "PREVPRICE"];
                   Block.data := [JArr [JStr "SU26207RMFS9"; Sample.num 99 0]] |}
                (JArr [JStr "SU26207RMFS9"; Sample.num 99 0]) []
                eq_refl ltac:(vm_compute; reflexivity) ltac:(vm_compute; reflexivity)
                ltac:(vm_compute; reflexivity) eq_refl) as H.
  cbv zeta in H. rewrite (proj1 H eq_refl). reflexivity.
Defined.

(** ** A coupon schedule without coupons *)

(** On an answer of the bondization feed without a coupons block,
    [fetchCouponFromBondization] returns "Нет данных о купонах
    (bondization)"; with a coupons block that has no coupondate column,
    "Нет даты купона в данных", whatever its rows; with the column and no
    rows, "Купон не определен". *)
Theorem coupon_feed_without_coupons ticker w url text body :
  bondization_url ticker = Returned url ->
  api w url = FetchReturns {| getResponseCode := 200; getContentText := text |} ->
  JSON.parse text = Some body ->
  let w1 := with_requests (url :: requests w) w in
  (forall fs, body = JObj fs -> lookup_field "coupons" fs = None ->
     fetchCouponFromBondization ticker w
     = (Returned (VStr "Нет данных о купонах (bondization)"), w1))
  /\ (forall b, block_of body "coupons" = Some b ->
        array_index_of "coupondate" (Block.columns b) 0 = -1 ->
        fetchCouponFromBondization ticker w
        = (Returned (VStr "Нет даты купона в данных"), w1))
  /\ (forall b, block_of body "coupons" = Some b ->
        array_index_of "coupondate" (Block.columns b) 0 <> -1 ->
        Block.data b = [] ->
        fetchCouponFromBondization ticker w
        = (Returned (VStr "Купон не определен"), w1)).
Proof.
  intros Hurl Hapi Hparse w1. split; [|split].
  - intros fs -> Hl. unfold fetchCouponFromBondization. run_fetch Hurl Hapi Hparse.
    rewrite Hl. reflexivity.
  - intros b Hb Hi. apply block_of_inv in Hb as (fs & bfs & -> & Hb1 & Hb2 & Hb3).
    unfold fetchCouponFromBondization. run_fetch Hurl Hapi Hparse.
    rewrite Hb1. cbn. rewrite Hb2, Hb3. cbn. rewrite Hi. reflexivity.
  - intros b Hb Hi Hd. apply block_of_inv in Hb as (fs & bfs & -> & Hb1 & Hb2 & Hb3).
    unfold fetchCouponFromBondization. run_fetch Hurl Hapi Hparse.
    rewrite Hb1. cbn. rewrite Hb2, Hb3. cbn.
    apply Z.eqb_neq in Hi. rewrite Hi, Hd. reflexivity.
Qed.

(** The bondization of [Sample.event_world] has offers and amortizations
    but no coupons. *)
Lemma coupon_feed_without_coupons_witness :
  fst (fetchCouponFromBondization "RU000A0JX0J2" Sample.event_world)
  = Returned (VStr "Нет данных о купонах (bondization)").
Proof.
  pose proof (coupon_feed_without_coupons "RU000A0JX0J2" Sample.event_world
                (Sample.bondization_of "RU000A0JX0J2")
                (JSON.stringify Sample.event_feed) Sample.event_feed
                eq_refl ltac:(vm_compute; reflexivity) ltac:(vm_compute; reflexivity)) as H.
  cbv zeta in H. destruct H as (Hnone & _).
  rewrite (Hnone _ eq_refl eq_refl). reflexivity.
Defined.

(** ** A coupon is never zero *)

Lemma results_lift_bind {A B} (P : B -> Prop) (o : Outcome A) (k : A -> M B) :
  (forall a, o = Returned a -> results_in P (k a)) -> results_in P (lift o ≫= k).
Proof.
  intros Hk w b. unfold mbind, M_bind, lift.
  destruct o as [a|e]; [now apply Hk | discriminate].
Qed.

Lemma results_weaken {A} (P Q : A -> Prop) (m : M A) :
  (forall a, P a -> Q a) -> results_in P m -> results_in Q m.
Proof. intros HPQ Hm w a Ha. apply HPQ. exact (Hm w a Ha). Qed.

(** Proves [results_in P m] along the structure of [m], closing each
    returned value with [leaf]. *)
Ltac results_with leaf :=
  repeat first
    [ apply results_ret; leaf
    | apply results_bind; intros ?
    | apply results_try_catch; [|intros ?]
    | match goal with
      | |- results_in _ (if ?b then _ else _) => destruct b
      | |- results_in _ (match ?x with _ => _ end) => destruct x
      | |- results_in _ (let _ := _ in _) => cbv zeta
      end ].

Lemma meaningful_number_text s : meaningful_number (VStr s).
Proof. intros n H. discriminate H. Qed.

Lemma nonzero_number_text s : nonzero_number (VStr s).
Proof. intros n H. discriminate H. Qed.

Lemma meaningful_nonzero v : meaningful_number v -> nonzero_number v.
Proof.
  intros H n Hn. specialize (H n Hn). unfold meaningful in H.
  now apply andb_true_iff in H as [_ H%negb_true_iff].
Qed.

(** What the loop remembers and what it returns is meaningful. *)
Lemma coupon_loop_meaningful today coupons known :
  (forall k, known = Some k -> meaningful (Some k) = true) ->
  match coupon_loop today coupons known with
  | inl v => meaningful (Some v) = true
  | inr (Some k) => meaningful (Some k) = true
  | inr None => True
  end.
Proof.
  revert known. induction coupons as [|c rest IH]; intros known Hknown; simpl.
  - destruct known as [k|]; [now apply Hknown | exact I].
  - destruct (JSDate.ge (Coupon.date c) today).
    + destruct (Coupon.value c) as [v|] eqn:Hv.
      * destruct (meaningful (Some v)) eqn:Hm; [exact Hm|].
        destruct known as [k|]; [now apply Hknown | exact I].
      * destruct known as [k|]; [now apply Hknown | exact I].
    + apply IH. intros k.
      destruct (meaningful (Coupon.value c)) eqn:Hm.
      * intros Hk. now rewrite <- Hk.
      * apply Hknown.
Qed.

Lemma scan_coupons_meaningful today coupons :
  meaningful_number (scan_coupons today coupons).
Proof.
  unfold scan_coupons.
  pose proof (coupon_loop_meaningful today coupons None ltac:(discriminate)) as H.
  destruct (coupon_loop today coupons None) as [v|[k|]]; intros n [= <-]; exact H.
Qed.

Lemma fetchCouponFromBondization_meaningful ticker :
  results_in meaningful_number (fetchCouponFromBondization ticker).
Proof.
  unfold fetchCouponFromBondization.
  results_with ltac:(first [apply meaningful_number_text | apply scan_coupons_meaningful]).
Qed.

Lemma fetchCouponValueInternal_nonzero ticker :
  results_in nonzero_number (fetchCouponValueInternal ticker).
Proof.
  unfold fetchCouponValueInternal.
  apply results_bind; intros url. apply results_try_catch;
    [|intros e; apply results_ret, nonzero_number_text].
  apply results_bind; intros response.
  destruct (negb _); [apply results_ret, nonzero_number_text|].
  apply results_bind; intros parsed. cbv zeta.
  apply results_bind; intros missing.
  destruct missing; [apply results_ret, nonzero_number_text|].
  apply results_bind; intros columns. apply results_bind; intros row.
  apply results_bind; intros couponValueIndex.
  apply results_lift_bind. intros [val|] Hstage1.
  - apply results_ret. intros n [= <-].
    destruct (negb (couponValueIndex =? -1)); [|discriminate].
    destruct (index row couponValueIndex) as [couponValue|]; [|discriminate].
    cbn in Hstage1. destruct (negb (is_nullish couponValue)); [|discriminate].
    destruct (parseFloat couponValue) as [x|]; [|discriminate]. cbn in Hstage1.
    destruct (is_zero x) eqn:Hz; [discriminate|]. cbn in Hstage1.
    injection Hstage1 as <-. exact Hz.
  - eapply results_weaken; [apply meaningful_nonzero|].
    apply fetchCouponFromBondization_meaningful.
Qed.

(** Whatever the API answers, a number that [fetchCouponFromBondization]
    returns is neither zero nor NaN, and a number that
    [fetchCouponValueInternal] returns is not zero (it is NaN when
    COUPONVALUE does not read as a number); so [GET_COUPON_VALUE] does not
    return a zero that it has resolved, only one that the cache held. *)
Theorem coupon_never_zero ticker w n :
  (fst (fetchCouponFromBondization ticker w) = Returned (VNum n) ->
   isNaN n = false /\ is_zero n = false)
  /\ (fst (fetchCouponValueInternal ticker w) = Returned (VNum n) -> is_zero n = false)
  /\ (cache w !! (ticker +:+ "_coupon_value_v3") = None ->
      fst (GET_COUPON_VALUE ticker w) = Returned (VNum n) -> is_zero n = false).
Proof.
  split; [|split].
  - intros H. pose proof (fetchCouponFromBondization_meaningful ticker w _ H n eq_refl) as Hm.
    unfold meaningful in Hm. apply andb_true_iff in Hm as [H1 H2].
    now apply negb_true_iff in H1, H2.
  - intros H. exact (fetchCouponValueInternal_nonzero ticker w _ H n eq_refl).
  - intros Hmiss. unfold GET_COUPON_VALUE. destruct (blank ticker); [discriminate|].
    unfold mbind, M_bind, cache_get. cbn. rewrite Hmiss. cbn.
    pose proof (fetchCouponValueInternal_nonzero ticker w) as Hr.
    destruct (fetchCouponValueInternal ticker w) as [[v|e] w1]; cbn; [|discriminate].
    intros [= ->]. exact (Hr _ eq_refl n eq_refl).
Qed.

(** [Sample.bond_world]: COUPONVALUE is 0, and the schedule gives 50. *)
Lemma coupon_never_zero_witness :
  fst (GET_COUPON_VALUE "SU26207RMFS9" Sample.bond_world) = Returned (VNum (make 50 0))
  /\ is_zero (make 50 0) = false.
Proof.
  assert (H : fst (GET_COUPON_VALUE "SU26207RMFS9" Sample.bond_world)
              = Returned (VNum (make 50 0))) by (vm_compute; reflexivity).
  split; [exact H|].
  exact (proj2 (proj2 (coupon_never_zero "SU26207RMFS9" Sample.bond_world (make 50 0)))
           eq_refl H).
Defined.

(** ** The kinds of results *)

Ltac message_leaf :=
  first [ left; eexists; reflexivity
        | right; eexists; split; [reflexivity|discriminate] ].

(** Whatever the API answers, the price resolver and the coupon resolvers
    return a number or a text that is not empty, the two date resolvers a
    Date or such a text, and the name resolver a truthy value: never null,
    never an empty text. *)
Theorem kinds_of_results ticker :
  results_in number_or_message (fetchSinglePriceInternal ticker)
  /\ results_in number_or_message (fetchCouponValueInternal ticker)
  /\ results_in number_or_message (fetchCouponFromBondization ticker)
  /\ results_in date_or_message (fetchNextCouponInternal ticker)
  /\ results_in date_or_message (fetchMaturityDateInternal ticker)
  /\ results_in (fun name => truthy (Some name) = true) (fetchBondNameInternal ticker).
Proof.
  assert (Hscan : forall t l, number_or_message (scan_coupons t l)).
  { intros t l. unfold scan_coupons.
    destruct (coupon_loop t l None) as [v|[k|]]; message_leaf. }
  assert (Hfeed : results_in number_or_message (fetchCouponFromBondization ticker)).
  { unfold fetchCouponFromBondization.
    results_with ltac:(first [apply Hscan | message_leaf]). }
  split; [|split; [|split; [|split; [|split]]]].
  - unfold fetchSinglePriceInternal. results_with message_leaf.
  - unfold fetchCouponValueInternal.
    results_with ltac:(first [apply Hscan | message_leaf]).
  - exact Hfeed.
  - unfold fetchNextCouponInternal. results_with message_leaf.
  - unfold fetchMaturityDateInternal. results_with message_leaf.
  - unfold fetchBondNameInternal.
    apply results_bind; intros url. apply results_try_catch; [|intros e; now apply results_ret].
    apply results_bind; intros response.
    destruct (negb _); [now apply results_ret|].
    apply results_bind; intros parsed. cbv zeta.
    apply results_bind; intros missing. destruct missing; [now apply results_ret|].
    do 6 (apply results_bind; intros ?).
    match goal with |- results_in _ (match ?x with _ => _ end) => destruct x as [j|] end;
      [|now apply results_ret].
    match goal with |- results_in _ (if ?b then _ else _) => destruct b eqn:Ht end;
      apply results_ret; [exact Ht | reflexivity].
Qed.

(** The price of [Sample.price_world] is a number. *)
Lemma kinds_of_results_witness :
  exists v, fst (fetchSinglePriceInternal "SU26207RMFS9" Sample.price_world) = Returned v
            /\ number_or_message v.
Proof.
  exists (VNum (Finite 1015 (-1))).
  assert (H : fst (fetchSinglePriceInternal "SU26207RMFS9" Sample.price_world)
              = Returned (VNum (Finite 1015 (-1)))) by (vm_compute; reflexivity).
  split; [exact H|].
  exact (proj1 (kinds_of_results "SU26207RMFS9") Sample.price_world _ H).
Defined.

(** * What the functions leave of the world *)

Lemma fetchSinglePriceInternal_world ticker url w :
  securities_url ticker = Returned url ->
  snd (fetchSinglePriceInternal ticker w) = with_requests (url :: requests w) w.
Proof. intros Hurl. unfold fetchSinglePriceInternal. fetch_world Hurl. Qed.

Lemma fetchBondNameInternal_world ticker url w :
  securities_url ticker = Returned url ->
  snd (fetchBondNameInternal ticker w) = with_requests (url :: requests w) w.
Proof. intros Hurl. unfold fetchBondNameInternal. fetch_world Hurl. Qed.

Lemma lift_bind_world {A B} (o : Outcome A) (k : A -> M B) w :
  snd ((lift o ≫= k) w) = match o with Returned a => snd (k a w) | Thrown _ => w end.
Proof. unfold mbind, M_bind, lift. destruct o; reflexivity. Qed.

Lemma try_catch_world {A} (body : M A) (a : Exn -> A) w :
  snd (try_catch body (fun e => mret (a e)) w) = snd (body w).
Proof. unfold try_catch. destruct (body w) as [[x|e] w']; reflexivity. Qed.

Lemma fetch_bind_world {B} url (k : HTTPResponse -> M B) w :
  snd ((UrlFetchApp_fetch url ≫= k) w)
  = match api w url with
    | FetchThrows _ => with_requests (url :: requests w) w
    | FetchReturns r => snd (k r (with_requests (url :: requests w) w))
    end.
Proof. unfold mbind, M_bind, UrlFetchApp_fetch. destruct (api w url); reflexivity. Qed.

(** [fetchCouponValueInternal] makes one request, or two. *)
Lemma fetchCouponValueInternal_world ticker url feed w :
  securities_url ticker = Returned url -> bondization_url ticker = Returned feed ->
  snd (fetchCouponValueInternal ticker w) = with_requests (url :: requests w) w
  \/ snd (fetchCouponValueInternal ticker w) = with_requests (feed :: url :: requests w) w.
Proof.
  intros Hurl Hfeed. unfold fetchCouponValueInternal.
  rewrite lift_bind_world, Hurl, try_catch_world, fetch_bind_world.
  destruct (api w url) as [msg|response]; [now left|].
  destruct (negb _); [now left|].
  repeat (rewrite lift_bind_world;
          match goal with
          | |- context [match ?o with Returned _ => _ | Thrown _ => _ end] =>
              destruct o; [|now left]
          end; cbv zeta).
  match goal with |- context [if ?b then mret _ else _] => destruct b; [now left|] end.
  repeat (rewrite lift_bind_world;
          match goal with
          | |- context [match ?o with Returned _ => _ | Thrown _ => _ end] =>
              destruct o; [|now left]
          end).
  match goal with |- context [match ?s with Some _ => _ | None => _ end] =>
    destruct s; [now left|] end.
  right. now rewrite (fetchCouponFromBondization_world ticker feed _ Hfeed).
Qed.

(** Every resolver leaves the world as it found it, the log of requests
    apart: it reads the cache of no key and writes none, and sets no
    note.  To the log it adds its one request, whatever the answer;
    [fetchCouponValueInternal] adds the snapshot, and the bondization
    after it when it goes to stage 2.  For a ticker that
    [encodeURIComponent] rejects nothing is requested. *)
Theorem resolvers_only_request ticker w :
  (forall url feed,
     securities_url ticker = Returned url -> bondization_url ticker = Returned feed ->
     let asked := with_requests (url :: requests w) w in
     snd (fetchSinglePriceInternal ticker w) = asked
     /\ snd (fetchNextCouponInternal ticker w) = asked
     /\ snd (fetchBondNameInternal ticker w) = asked
     /\ snd (fetchMaturityDateInternal ticker w) = asked
     /\ (snd (fetchCouponValueInternal ticker w) = asked
         \/ snd (fetchCouponValueInternal ticker w)
            = with_requests (feed :: url :: requests w) w)
     /\ snd (fetchCouponFromBondization ticker w) = with_requests (feed :: requests w) w
     /\ snd (fetchBondOptionDatesInternal ticker w) = with_requests (feed :: requests w) w)
  /\ (JSString.encodeURIComponent ticker = None ->
      snd (fetchSinglePriceInternal ticker w) = w
      /\ snd (fetchNextCouponInternal ticker w) = w
      /\ snd (fetchBondNameInternal ticker w) = w
      /\ snd (fetchMaturityDateInternal ticker w) = w
      /\ snd (fetchCouponValueInternal ticker w) = w
      /\ snd (fetchCouponFromBondization ticker w) = w
      /\ snd (fetchBondOptionDatesInternal ticker w) = w).
Proof.
  split.
  - intros url feed Hurl Hfeed asked.
    split; [now apply fetchSinglePriceInternal_world|].
    split; [now apply fetchNextCouponInternal_world|].
    split; [now apply fetchBondNameInternal_world|].
    split; [now apply fetchMaturityDateInternal_world|].
    split; [now apply fetchCouponValueInternal_world|].
    split; [now apply fetchCouponFromBondization_world|].
    now apply fetchBondOptionDatesInternal_world.
  - intros Hnone.
    repeat split;
      [ unfold fetchSinglePriceInternal, securities_url
      | unfold fetchNextCouponInternal, securities_url
      | unfold fetchBondNameInternal, securities_url
      | unfold fetchMaturityDateInternal, securities_url
      | unfold fetchCouponValueInternal, securities_url
      | unfold fetchCouponFromBondization, bondization_url
      | unfold fetchBondOptionDatesInternal, bondization_url ];
      rewrite Hnone; reflexivity.
Qed.

(** [Sample.bond_world]: COUPONVALUE is 0, so the coupon value takes two
    requests; the log has the latest first. *)
Lemma resolvers_only_request_witness :
  snd (fetchCouponValueInternal "SU26207RMFS9" Sample.bond_world)
  = with_requests [ Sample.bondization_of "SU26207RMFS9";
                    Sample.securities_of "SU26207RMFS9" ] Sample.bond_world.
Proof.
  pose proof (proj1 (resolvers_only_request "SU26207RMFS9" Sample.bond_world)
                (Sample.securities_of "SU26207RMFS9") (Sample.bondization_of "SU26207RMFS9")
                eq_refl eq_refl) as H.
  cbv zeta in H. destruct H as (_ & _ & _ & _ & [H|H] & _); [|exact H].
  exfalso. apply (f_equal (fun x => length (requests x))) in H.
  vm_compute in H. discriminate H.
Defined.

(** ** The cache entries of other keys *)

Lemma append_inv_head t a b : t +:+ a = t +:+ b -> a = b.
Proof. induction t as [|c t IH]; simpl; [trivial|]. intros [= H]. now apply IH. Qed.

Lemma append_empty_r t : t +:+ "" = t.
Proof.
  induction t as [|c t IH]; [reflexivity|].
  change (String c t +:+ "") with (String c (t +:+ "")). now rewrite IH.
Qed.

Lemma with_same w : with_cache (cache w) (with_requests (requests w) w) = w.
Proof. destruct w; reflexivity. Qed.

Lemma requests_only_resolver {A} (f : string -> M A) ticker :
  (forall w url feed,
     securities_url ticker = Returned url -> bondization_url ticker = Returned feed ->
     snd (f ticker w) = with_requests (url :: requests w) w
     \/ snd (f ticker w) = with_requests (feed :: url :: requests w) w) ->
  (forall w, JSString.encodeURIComponent ticker = None -> snd (f ticker w) = w) ->
  requests_only (f ticker).
Proof.
  intros Hsome Hnone w.
  destruct (JSString.encodeURIComponent ticker) as [t|] eqn:He.
  - edestruct (Hsome w) as [H|H];
      [ unfold securities_url; rewrite He; reflexivity
      | unfold bondization_url; rewrite He; reflexivity | | ].
    + match type of H with _ = with_requests (?u :: requests w) w => exists [u] end.
      split; [exact H|simpl; lia].
    + match type of H with _ = with_requests (?u :: ?v :: requests w) w => exists [u; v] end.
      split; [exact H|simpl; lia].
  - exists []. rewrite (Hnone w eq_refl). split; [|simpl; lia].
    destruct w; reflexivity.
Qed.

Lemma fetchSinglePriceInternal_requests ticker : requests_only (fetchSinglePriceInternal ticker).
Proof.
  apply requests_only_resolver.
  - intros w url feed Hurl _. left. now apply fetchSinglePriceInternal_world.
  - intros w H. unfold fetchSinglePriceInternal, securities_url. now rewrite H.
Qed.

Lemma fetchNextCouponInternal_requests ticker : requests_only (fetchNextCouponInternal ticker).
Proof.
  apply requests_only_resolver.
  - intros w url feed Hurl _. left. now apply fetchNextCouponInternal_world.
  - intros w H. unfold fetchNextCouponInternal, securities_url. now rewrite H.
Qed.

Lemma fetchBondNameInternal_requests ticker : requests_only (fetchBondNameInternal ticker).
Proof.
  apply requests_only_resolver.
  - intros w url feed Hurl _. left. now apply fetchBondNameInternal_world.
  - intros w H. unfold fetchBondNameInternal, securities_url. now rewrite H.
Qed.

Lemma fetchMaturityDateInternal_requests ticker :
  requests_only (fetchMaturityDateInternal ticker).
Proof.
  apply requests_only_resolver.
  - intros w url feed Hurl _. left. now apply fetchMaturityDateInternal_world.
  - intros w H. unfold fetchMaturityDateInternal, securities_url. now rewrite H.
Qed.

Lemma fetchCouponValueInternal_requests ticker :
  requests_only (fetchCouponValueInternal ticker).
Proof.
  apply requests_only_resolver.
  - intros w url feed Hurl Hfeed. now apply fetchCouponValueInternal_world.
  - intros w H. unfold fetchCouponValueInternal, securities_url. now rewrite H.
Qed.

(** A cached lookup: the guard, the cache, and on a miss the resolver and
    the entry. *)
Lemma touches_only_lookup {R} (f : string -> M Value) (key : string -> string) (ttl : Z)
    (resolve : string -> M R) (restore : string -> M Value)
    (serialize : R -> Outcome string) (to_value : R -> Value) :
  (forall ticker,
     f ticker = if blank ticker then mret VNull
                else cached ← cache_get (key ticker);
                     match cached with
                     | Some text => restore text
                     | None =>
                         result ← resolve ticker;
                         text ← lift (serialize result);
                         _ ← cache_put (key ticker) text ttl;
                         mret (to_value result)
                     end) ->
  (forall text, stateless (restore text)) ->
  (forall ticker, requests_only (resolve ticker)) ->
  touches_only f key.
Proof.
  intros Hf Hrestore Hresolve ticker w. rewrite Hf.
  assert (Hsame : exists c new,
             w = with_cache c (with_requests (new ++ requests w)%list w)
             /\ (length new <= 2)%nat /\ forall k, k <> key ticker -> c !! k = cache w !! k).
  { exists (cache w), []. split; [destruct w; reflexivity|]. split; [simpl; lia|auto]. }
  destruct (blank ticker); [exact Hsame|].
  unfold mbind at 1. unfold M_bind at 1. unfold cache_get at 1. cbv beta iota.
  destruct (fst <$> cache w !! key ticker) as [text|].
  - rewrite (Hrestore text w). exact Hsame.
  - destruct (Hresolve ticker w) as (new & Hw & Hlen).
    unfold mbind, M_bind. destruct (resolve ticker w) as [[r|e] w1]; simpl in Hw; subst w1.
    + unfold lift. destruct (serialize r) as [text|e]; cbn.
      * exists (<[key ticker := (text, ttl)]> (cache w)), new.
        split; [reflexivity|]. split; [exact Hlen|].
        intros k Hk. now apply lookup_insert_ne.
      * exists (cache w), new. split; [destruct w; reflexivity|]. split; [exact Hlen|auto].
    + exists (cache w), new. split; [destruct w; reflexivity|]. split; [exact Hlen|auto].
Qed.

Lemma restore_text_stateless text : stateless (restore_text text).
Proof. intros w. reflexivity. Qed.

(** Each cached lookup leaves everything as it found it but the log of
    requests, to which it adds at most two, and the cache entry under its
    own key for the ticker: entries under other keys, those of the other
    facts of the ticker among them, are neither dropped nor changed.  The
    five keys of one ticker are distinct. *)
Theorem lookups_touch_their_key :
  touches_only GET_MOEX_PRICE (fun t => t)
  /\ touches_only GET_NEXT_COUPON (fun t => t +:+ "_coupon")
  /\ touches_only GET_MOEX_NAME (fun t => t +:+ "_name")
  /\ touches_only GET_COUPON_VALUE (fun t => t +:+ "_coupon_value_v3")
  /\ touches_only GET_MATURITY_DATE (fun t => t +:+ "_maturity")
  /\ (forall t, List.NoDup [ t; t +:+ "_coupon"; t +:+ "_name"; t +:+ "_coupon_value_v3";
                             t +:+ "_maturity" ]).
Proof.
  split; [|split; [|split; [|split; [|split]]]].
  - apply (touches_only_lookup _ _ 300 fetchSinglePriceInternal restore_json
             (fun r => Returned (JSON_stringify r)) (fun r => r));
      [reflexivity | apply restore_json_stateless | apply fetchSinglePriceInternal_requests].
  - apply (touches_only_lookup _ _ 21600 fetchNextCouponInternal restore_date
             (fun r => Returned (JSON_stringify r)) (fun r => r));
      [reflexivity | apply restore_date_stateless | apply fetchNextCouponInternal_requests].
  - apply (touches_only_lookup _ _ 86400 fetchBondNameInternal
             restore_text toString_json VData);
      [reflexivity | apply restore_text_stateless | apply fetchBondNameInternal_requests].
  - apply (touches_only_lookup _ _ 21600 fetchCouponValueInternal
             restore_json (fun r => Returned (JSON_stringify r)) (fun r => r));
      [reflexivity | apply restore_json_stateless | apply fetchCouponValueInternal_requests].
  - apply (touches_only_lookup _ _ 86400 fetchMaturityDateInternal
             restore_date (fun r => Returned (JSON_stringify r)) (fun r => r));
      [reflexivity | apply restore_date_stateless | apply fetchMaturityDateInternal_requests].
  - intros t.
    assert (Hsuffix : forall a b, a <> b -> t +:+ a <> t +:+ b).
    { intros a b Hab H. apply Hab. exact (append_inv_head t a b H). }
    assert (Hbare : forall a, a <> "" -> t <> t +:+ a).
    { intros a Ha H. apply Ha. apply (append_inv_head t). now rewrite append_empty_r. }
    repeat (apply List.NoDup_cons;
            [ simpl; intros H;
              repeat (destruct H as [H|H];
                      [revert H;
                       first [apply Hsuffix | intros E; symmetry in E; revert E; apply Hbare];
                       discriminate|]);
              exact H | ]).
    apply List.NoDup_nil.
Qed.

(** After the name of SU26207RMFS9 has been looked up in
    [Sample.bond_world], whose cache was empty, there is still no price
    in the cache. *)
Lemma lookups_touch_their_key_witness :
  cache (snd (GET_MOEX_NAME "SU26207RMFS9" Sample.bond_world)) !! "SU26207RMFS9" = None.
Proof.
  destruct (proj1 (proj2 (proj2 lookups_touch_their_key)) "SU26207RMFS9" Sample.bond_world)
    as (c & new & Hw & _ & Hc).
  rewrite Hw. cbn. rewrite Hc; [reflexivity|discriminate].
Defined.

(** ** The note of the cell *)

(** When the events give a date, [GET_NEAREST_OPTION_DATE] returns it
    whatever SpreadsheetApp does: the note of the active range becomes the
    text of the events when there is a spreadsheet and a range and
    [setNote] is allowed, and stays as it was when there is none, or when
    a call throws (as inside a custom function).  When the resolver gives
    an error text, that text is returned and the note is not touched.
    Either way the one request is all else the call does. *)
Theorem nearest_date_note ticker w url :
  ticker <> "" -> bondization_url ticker = Returned url ->
  let asked := with_requests (url :: requests w) w in
  (forall date remark,
     fst (fetchBondOptionDatesInternal ticker w) = Returned (OptionDatesFound date remark) ->
     GET_NEAREST_OPTION_DATE ticker w
     = (Returned (VDate date),
        match sheet w with
        | NoteAllowed => with_note (Some remark) asked
        | _ => asked
        end))
  /\ (forall text,
        fst (fetchBondOptionDatesInternal ticker w) = Returned (OptionDatesError text) ->
        GET_NEAREST_OPTION_DATE ticker w = (Returned (VStr text), asked)).
Proof.
  intros Hne Hurl asked. apply String.eqb_neq in Hne.
  pose proof (fetchBondOptionDatesInternal_world ticker url w Hurl) as Hw.
  split; [intros date remark Hres | intros text Hres];
    unfold GET_NEAREST_OPTION_DATE; rewrite Hne;
    unfold mbind, M_bind, try_catch, SpreadsheetApp_getActiveSpreadsheet,
      SpreadsheetApp_getActiveRange, range_setNote;
    destruct (fetchBondOptionDatesInternal ticker w) as [o w1];
    simpl in Hw, Hres; subst o w1; cbn; [|reflexivity].
  destruct (sheet w) eqn:Hs; cbn; rewrite ?Hs; cbn; rewrite ?Hs; cbn; reflexivity.
Qed.

(** In [Sample.event_world] the function runs as a custom function:
    [setNote] is refused, and the date comes all the same. *)
Lemma nearest_date_note_witness :
  GET_NEAREST_OPTION_DATE "RU000A0JX0J2" Sample.event_world
  = (Returned (VDate (Some 1762473600000)),
     with_requests [Sample.bondization_of "RU000A0JX0J2"] Sample.event_world).
Proof.
  apply (proj1 (nearest_date_note "RU000A0JX0J2" Sample.event_world
                  (Sample.bondization_of "RU000A0JX0J2") ltac:(discriminate) eq_refl)
           (Some 1762473600000)
           ("Амортизация: 2025-11-07" +:+ newline +:+ "Оферта: 2025-11-12"
            +:+ newline +:+ newline +:+ "Ближайшая: Амортизация: 2025-11-07")).
  vm_compute. reflexivity.
Defined.

(** * The URL of a ticker *)

Lemma byte_range c : 0 <= byte c < 256.
Proof.
  unfold byte. pose proof (nat_ascii_bounded c). lia.
Qed.

Lemma byte_inj a b : byte a = byte b -> a = b.
Proof.
  unfold byte. intros H. apply Nat2Z.inj in H.
  rewrite <- (ascii_nat_embedding a), <- (ascii_nat_embedding b). now rewrite H.
Qed.

(** The values of a hexadecimal digit. *)
Lemma in_hex_values n : 0 <= n < 16 -> In n (map Z.of_nat (seq 0 16)).
Proof.
  intros Hn. rewrite <- (Z2Nat.id n) by lia. apply in_map, in_seq. lia.
Qed.

Lemma hex_digit_unreserved n : 0 <= n < 16 -> is_uri_unreserved (hex_digit n) = true.
Proof.
  intros Hn.
  assert (H : forallb (fun k => is_uri_unreserved (hex_digit k)) (map Z.of_nat (seq 0 16))
              = true) by reflexivity.
  rewrite forallb_forall in H. apply H, in_hex_values, Hn.
Qed.

Lemma hex_digit_inj n k : 0 <= n < 16 -> 0 <= k < 16 -> hex_digit n = hex_digit k -> n = k.
Proof.
  intros Hn Hk E.
  assert (H : forallb (fun a => forallb (fun b => implb (Ascii.eqb (hex_digit a) (hex_digit b))
                                                    (a =? b))
                                        (map Z.of_nat (seq 0 16)))
                      (map Z.of_nat (seq 0 16)) = true) by (vm_compute; reflexivity).
  rewrite forallb_forall in H. specialize (H n (in_hex_values n Hn)).
  rewrite forallb_forall in H. specialize (H k (in_hex_values k Hk)).
  rewrite E, Ascii.eqb_refl in H. simpl in H. now apply Z.eqb_eq.
Qed.

(** The encoding is made of unreserved characters and per cent signs. *)
Lemma encodeURIComponent_safe s t :
  encodeURIComponent s = Some t -> all_chars is_uri_safe t = true.
Proof.
  revert t. induction s as [|c r IH]; intros t; simpl.
  - intros [= <-]. reflexivity.
  - destruct (match r with String d _ => _ | EmptyString => false end); [discriminate|].
    destruct (encodeURIComponent r) as [r'|]; [|discriminate].
    pose proof (byte_range c) as Hc.
    destruct (is_uri_unreserved c) eqn:Hu; intros [= <-]; simpl.
    + unfold is_uri_safe at 1. rewrite Hu. simpl. now apply IH.
    + unfold is_uri_safe at 1 2 3.
      rewrite !hex_digit_unreserved;
        [ simpl; now apply IH
        | apply Z.mod_pos_bound; lia
        | split; [apply Z.div_pos; lia | apply Z.div_lt_upper_bound; lia] ].
Qed.

(** A string of unreserved characters is its own encoding. *)
Lemma encodeURIComponent_unreserved s :
  all_chars is_uri_unreserved s = true -> encodeURIComponent s = Some s.
Proof.
  induction s as [|c r IH]; simpl; [reflexivity|].
  intros H. apply andb_true_iff in H as [Hc Hr]. rewrite (IH Hr), Hc.
  destruct r as [|d r']; [reflexivity|].
  replace (byte c =? 237) with false; [reflexivity|].
  symmetry. apply Z.eqb_neq. intros E. unfold is_uri_unreserved in Hc. rewrite E in Hc.
  discriminate Hc.
Qed.

Lemma length_append a b :
  String.length (a +:+ b) = (String.length a + String.length b)%nat.
Proof.
  induction a as [|c a IH]; [reflexivity|].
  change (String c a +:+ b) with (String c (a +:+ b)). simpl. now rewrite IH.
Qed.

Lemma append_inv_tail a b s : a +:+ s = b +:+ s -> a = b.
Proof.
  revert b. induction a as [|c a IH]; intros [|d b] H.
  - reflexivity.
  - exfalso. apply (f_equal String.length) in H. rewrite !length_append in H.
    simpl in H. lia.
  - exfalso. apply (f_equal String.length) in H. rewrite !length_append in H.
    simpl in H. lia.
  - change (String c a +:+ s) with (String c (a +:+ s)) in H.
    change (String d b +:+ s) with (String d (b +:+ s)) in H.
    injection H as -> H. f_equal. now apply IH.
Qed.

Lemma unreserved_not_percent c : is_uri_unreserved c = true -> c <> "%"%char.
Proof. intros H ->. discriminate H. Qed.

Lemma byte_of_hex c d :
  hex_digit (byte c / 16) = hex_digit (byte d / 16) ->
  hex_digit (byte c mod 16) = hex_digit (byte d mod 16) -> c = d.
Proof.
  intros H1 H2. pose proof (byte_range c) as Hc. pose proof (byte_range d) as Hd.
  apply hex_digit_inj in H1;
    [| split; [apply Z.div_pos; lia | apply Z.div_lt_upper_bound; lia] ..].
  apply hex_digit_inj in H2; [| apply Z.mod_pos_bound; lia ..].
  apply byte_inj. rewrite (Z.div_mod (byte c) 16), (Z.div_mod (byte d) 16) by lia.
  now rewrite H1, H2.
Qed.

(** Two strings with one encoding are one string. *)
Lemma encodeURIComponent_inj a b t :
  encodeURIComponent a = Some t -> encodeURIComponent b = Some t -> a = b.
Proof.
  revert b t. induction a as [|c a IH]; intros [|d b] t; simpl.
  - reflexivity.
  - intros [= <-].
    destruct (match b with String e _ => _ | EmptyString => false end); [discriminate|].
    destruct (encodeURIComponent b); [|discriminate].
    destruct (is_uri_unreserved d); discriminate.
  - destruct (match a with String e _ => _ | EmptyString => false end); [discriminate|].
    destruct (encodeURIComponent a); [|discriminate].
    destruct (is_uri_unreserved c); intros [= <-]; discriminate.
  - destruct (match a with String e _ => _ | EmptyString => false end); [discriminate|].
    destruct (match b with String e _ => _ | EmptyString => false end); [discriminate|].
    destruct (encodeURIComponent a) as [a'|] eqn:Ha; [|discriminate].
    destruct (encodeURIComponent b) as [b'|] eqn:Hb; [|discriminate].
    pose proof (fun b Hb => IH b a' eq_refl Hb) as IH'. clear IH.
    destruct (is_uri_unreserved c) eqn:Hc, (is_uri_unreserved d) eqn:Hd;
      intros [= <-] E.
    + injection E as -> ->. f_equal. now apply IH'.
    + injection E as <- _. discriminate Hc.
    + injection E as -> _. discriminate Hd.
    + injection E as E1 E2 ->. rewrite (byte_of_hex d c E1 E2). f_equal. now apply IH'.
Qed.

(** ** The URLs *)

(** The URL a function asks is the fixed address with the encoded ticker
    in its place.  The encoding is made of unreserved characters and per
    cent signs, so that no ticker adds a path segment, a query or a
    fragment; and a ticker of unreserved characters (letters, digits,
    [-_.!~*'()]) stands in the URL as it is. *)
Theorem url_shape ticker url :
  (securities_url ticker = Returned url ->
   exists t,
     url = "https://iss.moex.com/iss/engines/stock/markets/bonds/securities/"
           +:+ t +:+ ".json?iss.meta=off"
     /\ all_chars is_uri_safe t = true
     /\ (all_chars JSString.is_uri_unreserved ticker = true -> t = ticker))
  /\ (bondization_url ticker = Returned url ->
      exists t,
        url = "https://iss.moex.com/iss/securities/" +:+ t
              +:+ "/bondization.json?iss.meta=off&limit=unlimited"
        /\ all_chars is_uri_safe t = true
        /\ (all_chars JSString.is_uri_unreserved ticker = true -> t = ticker)).
Proof.
  unfold securities_url, bondization_url.
  destruct (encodeURIComponent ticker) as [t|] eqn:He; [|split; discriminate].
  split; intros [= <-]; exists t;
    (split; [reflexivity|]; split; [exact (encodeURIComponent_safe _ _ He)|]);
    intros Hu; rewrite (encodeURIComponent_unreserved _ Hu) in He; now injection He.
Qed.

Lemma url_shape_witness :
  securities_url "SU26207RMFS9"
  = Returned "https://iss.moex.com/iss/engines/stock/markets/bonds/securities/SU26207RMFS9.json?iss.meta=off".
Proof.
  destruct (proj1 (url_shape "SU26207RMFS9" (Sample.securities_of "SU26207RMFS9")) eq_refl)
    as (t & Hurl & _ & Ht).
  rewrite (Ht eq_refl) in Hurl. exact (f_equal Returned Hurl).
Defined.

(** Two tickers with one URL are one ticker, and no URL of the snapshot
    is a URL of the bondization: a request in the log tells the ticker and
    the endpoint. *)
Theorem url_tells_ticker a b url :
  (securities_url a = Returned url -> securities_url b = Returned url -> a = b)
  /\ (bondization_url a = Returned url -> bondization_url b = Returned url -> a = b)
  /\ (securities_url a = Returned url -> bondization_url b = Returned url -> False).
Proof.
  unfold securities_url, bondization_url.
  destruct (encodeURIComponent a) as [ta|] eqn:Ha; [|split; [|split]; discriminate].
  destruct (encodeURIComponent b) as [tb|] eqn:Hb;
    [|split; [|split]; intros ?; discriminate].
  split; [|split].
  - intros [= <-] [= E]. apply append_inv_head, append_inv_tail in E. subst tb.
    exact (encodeURIComponent_inj _ _ _ Ha Hb).
  - intros [= <-] [= E]. apply append_inv_head, append_inv_tail in E. subst tb.
    exact (encodeURIComponent_inj _ _ _ Ha Hb).
  - intros [= <-] E. discriminate E.
Qed.

Lemma url_tells_ticker_witness :
  securities_url "SU26207RMFS9" = Returned (Sample.securities_of "SU26207RMFS9")
  /\ (bondization_url "SU26207RMFS9" = Returned (Sample.securities_of "SU26207RMFS9")
      -> False).
Proof.
  split; [reflexivity|].
  apply (proj2 (proj2 (url_tells_ticker "SU26207RMFS9" "SU26207RMFS9" _))). reflexivity.
Defined.

(** * Numerals *)

Lemma string_of_uint_digits d : all_chars is_digit (NilEmpty.string_of_uint d) = true.
Proof. induction d; simpl; auto. Qed.

Lemma string_of_uint_length d :
  String.length (NilEmpty.string_of_uint d) = Decimal.nb_digits d.
Proof. induction d; simpl; auto. Qed.

Lemma string_of_uint_value acc d :
  digits_value_from acc (NilEmpty.string_of_uint d) = uint_value acc d.
Proof.
  revert acc. induction d; intros acc; simpl; [reflexivity| ..];
    rewrite IHd; f_equal;
    match goal with
    | |- context [digit_val ?c] =>
        let v := eval vm_compute in (digit_val c) in change (digit_val c) with v
    end; lia.
Qed.

Lemma uint_value_acc (a : positive) d :
  uint_value (Z.pos a) d = Z.pos (Pos.of_uint_acc d a).
Proof.
  revert a. induction d; intros a; simpl; [reflexivity| ..];
    (etransitivity; [|apply IHd]); f_equal; lia.
Qed.

Lemma uint_value_of_uint d : uint_value 0 d = Z.of_N (Pos.of_uint d).
Proof.
  induction d; simpl; [reflexivity|exact IHd| ..]; apply (uint_value_acc _ d).
Qed.

(** The bounds of a numeral of [nb_digits d] digits. *)
Lemma uint_value_upper acc d :
  0 <= acc -> uint_value acc d < (acc + 1) * 10 ^ Z.of_nat (Decimal.nb_digits d).
Proof.
  revert acc. induction d; intros acc Hacc; cbn [uint_value Decimal.nb_digits];
    [ change (10 ^ Z.of_nat 0) with 1; lia | .. ];
    rewrite Nat2Z.inj_succ, Z.pow_succ_r by lia;
    (eapply Z.lt_le_trans; [apply IHd; lia|]);
    pose proof (Z.pow_pos_nonneg 10 (Z.of_nat (Decimal.nb_digits d)) ltac:(lia) ltac:(lia));
    nia.
Qed.

Lemma uint_value_lower acc d :
  0 <= acc -> acc * 10 ^ Z.of_nat (Decimal.nb_digits d) <= uint_value acc d.
Proof.
  revert acc. induction d; intros acc Hacc; cbn [uint_value Decimal.nb_digits];
    [ change (10 ^ Z.of_nat 0) with 1; lia | .. ];
    rewrite Nat2Z.inj_succ, Z.pow_succ_r by lia;
    (eapply Z.le_trans; [|apply IHd; lia]);
    pose proof (Z.pow_pos_nonneg 10 (Z.of_nat (Decimal.nb_digits d)) ltac:(lia) ltac:(lia));
    nia.
Qed.

(** The numeral of a positive number has no zero at its head. *)
Lemma to_uint_head p :
  match Pos.to_uint p with
  | Decimal.Nil | Decimal.D0 _ => False
  | _ => True
  end.
Proof.
  pose proof (DecimalPos.Unsigned.to_of (Pos.to_uint p)) as Hn.
  rewrite DecimalPos.Unsigned.of_to in Hn. simpl in Hn.
  pose proof (Unsigned.to_uint_nonzero p) as Hz.
  destruct (Pos.to_uint p) as [|r| | | | | | | | |] eqn:E; try exact I.
  - discriminate Hn.
  - unfold Decimal.unorm in Hn. simpl in Hn.
    pose proof (nb_digits_nzhead r) as Hlen.
    destruct (Decimal.nzhead r) eqn:Er; try (rewrite <- Hn in Hlen; simpl in Hlen; lia).
    injection Hn as Hr. subst r. now apply Hz.
Qed.

Lemma of_Z_pos p : JSString.of_Z (Z.pos p) = NilEmpty.string_of_uint (Pos.to_uint p).
Proof.
  unfold JSString.of_Z. simpl. pose proof (to_uint_head p) as H.
  destruct (Pos.to_uint p); [destruct H| reflexivity ..].
Qed.

Lemma of_Z_digits n : 0 <= n -> all_chars is_digit (JSString.of_Z n) = true.
Proof.
  destruct n as [|p|p]; [reflexivity| |lia]. intros _.
  rewrite of_Z_pos. apply string_of_uint_digits.
Qed.

Lemma of_Z_value n : 0 <= n -> digits_value (JSString.of_Z n) = n.
Proof.
  destruct n as [|p|p]; [reflexivity| |lia]. intros _.
  rewrite of_Z_pos. unfold digits_value.
  rewrite string_of_uint_value, uint_value_of_uint, DecimalPos.Unsigned.of_to. reflexivity.
Qed.

(** A positive number has as many digits as its size tells:
    [10^(k-1) <= n < 10^k] for a numeral of [k] digits. *)
Lemma of_Z_size p :
  let k := Z.of_nat (String.length (JSString.of_Z (Z.pos p))) in
  1 <= k /\ 10 ^ (k - 1) <= Z.pos p < 10 ^ k.
Proof.
  rewrite of_Z_pos, string_of_uint_length.
  pose proof (to_uint_head p) as Hhead.
  assert (Hv : uint_value 0 (Pos.to_uint p) = Z.pos p).
  { now rewrite uint_value_of_uint, DecimalPos.Unsigned.of_to. }
  pose proof (uint_value_upper 0 (Pos.to_uint p) ltac:(lia)) as Hup.
  rewrite Hv in Hup. cbv zeta.
  destruct (Pos.to_uint p) as [|r|r|r|r|r|r|r|r|r|r]; try destruct Hhead;
    cbn [Decimal.nb_digits uint_value] in *;
    rewrite Nat2Z.inj_succ;
    replace (Z.succ (Z.of_nat (Decimal.nb_digits r)) - 1) with (Z.of_nat (Decimal.nb_digits r))
      by lia;
    (split; [lia|]); (split; [|lia]);
    rewrite <- Hv;
    (eapply Z.le_trans; [|apply uint_value_lower; lia]);
    pose proof (Z.pow_pos_nonneg 10 (Z.of_nat (Decimal.nb_digits r)) ltac:(lia) ltac:(lia));
    nia.
Qed.

(** ** Padded fields *)

Lemma all_chars_app p a b : all_chars p (a +:+ b) = all_chars p a && all_chars p b.
Proof.
  induction a as [|c a IH]; [reflexivity|].
  change (String c a +:+ b) with (String c (a +:+ b)). simpl. rewrite IH.
  now rewrite andb_assoc.
Qed.

Lemma digits_value_from_app acc a b :
  digits_value_from acc (a +:+ b) = digits_value_from (digits_value_from acc a) b.
Proof.
  revert acc. induction a as [|c a IH]; intros acc; [reflexivity|].
  change (String c a +:+ b) with (String c (a +:+ b)). simpl. apply IH.
Qed.

Lemma zeros_digits k : all_chars is_digit (repeat_char "0" k) = true.
Proof. induction k; simpl; auto. Qed.

Lemma zeros_value k : digits_value_from 0 (repeat_char "0" k) = 0.
Proof. induction k; simpl; auto. Qed.

Lemma zeros_length k : String.length (repeat_char "0" k) = k.
Proof. induction k; simpl; auto. Qed.

Lemma of_Z_length n width :
  (1 <= width)%nat -> 0 <= n < 10 ^ Z.of_nat width ->
  (String.length (JSString.of_Z n) <= width)%nat.
Proof.
  intros Hw Hn. destruct n as [|p|p]; [simpl; lia| |lia].
  destruct (of_Z_size p) as [Hk [Hlow _]].
  apply Nat2Z.inj_le.
  set (k := Z.of_nat (String.length (JSString.of_Z (Z.pos p)))) in *.
  assert (H : 10 ^ (k - 1) < 10 ^ Z.of_nat width) by lia.
  apply Z.pow_lt_mono_r_iff in H; lia.
Qed.

(** A number below [10^width], padded to [width] digits: so many digits,
    and they read the number. *)
Lemma pad_spec width n :
  (1 <= width)%nat -> 0 <= n < 10 ^ Z.of_nat width ->
  all_chars is_digit (pad width n) = true
  /\ String.length (pad width n) = width
  /\ digits_value_from 0 (pad width n) = n.
Proof.
  intros Hw Hn. pose proof (of_Z_length n width Hw Hn) as Hlen. unfold pad.
  split; [|split].
  - rewrite all_chars_app, zeros_digits, of_Z_digits by lia. reflexivity.
  - rewrite length_append, zeros_length. lia.
  - rewrite digits_value_from_app, zeros_value. apply of_Z_value. lia.
Qed.

Lemma read_digits_app s acc rest :
  all_chars is_digit s = true ->
  read_digits (String.length s) acc (s +:+ rest) = Some (digits_value_from acc s, rest).
Proof.
  revert acc. induction s as [|c s IH]; intros acc; [reflexivity|].
  change (String c s +:+ rest) with (String c (s +:+ rest)). simpl.
  intros H. apply andb_true_iff in H as [Hc Hs]. rewrite Hc. now apply IH.
Qed.

(** Reading a padded field back. *)
Lemma read_pad width n rest :
  (1 <= width)%nat -> 0 <= n < 10 ^ Z.of_nat width ->
  read_digits width 0 (pad width n +:+ rest) = Some (n, rest).
Proof.
  intros Hw Hn. destruct (pad_spec width n Hw Hn) as (Hd & Hl & Hv).
  rewrite <- Hl at 1. rewrite (read_digits_app _ 0 rest Hd), Hv. reflexivity.
Qed.

(** * Dates and their ISO strings *)

(** ** The calendar *)

(** The date of a day is a date of the calendar, and the day of that
    date is the day. *)
Lemma civil_days z0 :
  let '(y, m, d) := civil_from_days z0 in
  1 <= m <= 12 /\ 1 <= d /\ days_from_civil y m d = z0.
Proof.
  unfold civil_from_days, days_from_civil.
  set (z := z0 + 719468). set (era := z / 146097). set (doe := z - era * 146097).
  set (yoe := (doe - doe / 1460 + doe / 36524 - doe / 146096) / 365).
  set (doy := doe - (365 * yoe + yoe / 4 - yoe / 100)).
  set (mp := (5 * doy + 2) / 153).
  assert (Hdoe : 0 <= doe < 146097) by (subst doe era; Z.div_mod_to_equations; lia).
  assert (Hy : 0 <= yoe < 400 /\ 0 <= doy <= 365) by (subst doy yoe; Z.div_mod_to_equations; lia).
  assert (Hmp : 0 <= mp <= 11) by (subst mp; Z.div_mod_to_equations; lia).
  destruct (mp <? 10) eqn:E1.
  - apply Z.ltb_lt in E1.
    replace (mp + 3 <=? 2) with false by (symmetry; apply Z.leb_gt; lia).
    replace (2 <? mp + 3) with true by (symmetry; apply Z.ltb_lt; lia).
    replace ((yoe + era * 400 + 0) / 400) with era by (Z.div_mod_to_equations; lia).
    split; [lia|]. split.
    + subst mp. Z.div_mod_to_equations; lia.
    + clear E1. subst mp doy yoe doe era z. Z.div_mod_to_equations; lia.
  - apply Z.ltb_ge in E1.
    replace (mp - 9 <=? 2) with true by (symmetry; apply Z.leb_le; lia).
    replace (2 <? mp - 9) with false by (symmetry; apply Z.ltb_ge; lia).
    replace ((yoe + era * 400 + 1 - 1) / 400) with era by (Z.div_mod_to_equations; lia).
    split; [lia|]. split.
    + subst mp. Z.div_mod_to_equations; lia.
    + clear E1. subst mp doy yoe doe era z. Z.div_mod_to_equations; lia.
Qed.

Lemma civil_day_in_month z0 :
  let '(y, m, d) := civil_from_days z0 in d <= days_in_month y m.
Proof.
  unfold civil_from_days, days_in_month, is_leap.
  set (z := z0 + 719468). set (era := z / 146097). set (doe := z - era * 146097).
  set (yoe := (doe - doe / 1460 + doe / 36524 - doe / 146096) / 365).
  set (doy := doe - (365 * yoe + yoe / 4 - yoe / 100)).
  set (mp := (5 * doy + 2) / 153).
  assert (Hdoe : 0 <= doe < 146097) by (subst doe era; Z.div_mod_to_equations; lia).
  assert (Hy : 0 <= yoe < 400 /\ 0 <= doy <= 365) by (subst doy yoe; Z.div_mod_to_equations; lia).
  assert (Hmp : 0 <= mp <= 11) by (subst mp; Z.div_mod_to_equations; lia).
  assert (Hd : doy - (153 * mp + 2) / 5 + 1 <= 31
               /\ (mp = 1 \/ mp = 3 \/ mp = 6 \/ mp = 8 -> doy - (153 * mp + 2) / 5 + 1 <= 30)
               /\ (mp = 11 -> doy - (153 * mp + 2) / 5 + 1 <= 29)
               /\ (mp = 11 -> doy - (153 * mp + 2) / 5 + 1 = 29 -> doy = 365)).
  { subst mp. Z.div_mod_to_equations. lia. }
  assert (Hleap : doy = 365 -> ((yoe + 1) mod 4 = 0 /\ (yoe + 1) mod 100 <> 0) \/ yoe = 399).
  { subst doy yoe. Z.div_mod_to_equations; lia. }
  destruct (mp <? 10) eqn:E1.
  - apply Z.ltb_lt in E1.
    replace (mp + 3 =? 2) with false by (symmetry; apply Z.eqb_neq; lia).
    destruct ((mp + 3 =? 4) || (mp + 3 =? 6) || (mp + 3 =? 9) || (mp + 3 =? 11)) eqn:E2; [|lia].
    apply (proj1 (proj2 Hd)).
    repeat (apply orb_true_iff in E2 as [E2|E2]); apply Z.eqb_eq in E2; lia.
  - apply Z.ltb_ge in E1.
    replace (mp - 9 <=? 2) with true by (symmetry; apply Z.leb_le; lia).
    destruct (mp - 9 =? 2) eqn:E2.
    + apply Z.eqb_eq in E2. assert (Hm : mp = 11) by lia.
      destruct Hd as (_ & _ & H29 & H365). specialize (H29 Hm). specialize (H365 Hm).
      match goal with |- _ <= (if ?b then 29 else 28) => destruct b eqn:Eb end; [lia|].
      assert (Hx : doy - (153 * mp + 2) / 5 + 1 = 29 \/ doy - (153 * mp + 2) / 5 + 1 <= 28) by lia.
      destruct Hx as [Hx|Hx]; [|lia]. exfalso.
      specialize (Hleap (H365 Hx)).
      apply orb_false_iff in Eb as [Eb1 Eb2]. apply Z.eqb_neq in Eb2.
      replace ((yoe + era * 400 + 1) mod 400) with ((yoe + 1) mod 400) in Eb2
        by (Z.div_mod_to_equations; lia).
      replace ((yoe + era * 400 + 1) mod 4) with ((yoe + 1) mod 4) in Eb1
        by (Z.div_mod_to_equations; lia).
      replace ((yoe + era * 400 + 1) mod 100) with ((yoe + 1) mod 100) in Eb1
        by (Z.div_mod_to_equations; lia).
      destruct Hleap as [[H4 H100]|H399].
      * rewrite H4 in Eb1. simpl in Eb1. apply negb_false_iff, Z.eqb_eq in Eb1. lia.
      * subst yoe. rewrite H399 in Eb2. apply Eb2. reflexivity.
    + replace ((mp - 9 =? 4) || (mp - 9 =? 6) || (mp - 9 =? 9) || (mp - 9 =? 11)) with false; [lia|].
      symmetry. repeat (apply orb_false_iff; split); apply Z.eqb_neq; lia.
Qed.

Lemma civil_year_range z0 :
  -100000000 <= z0 <= 100000000 ->
  let '(y, m, d) := civil_from_days z0 in -999999 <= y <= 999999.
Proof.
  intros Hz. unfold civil_from_days.
  set (z := z0 + 719468). set (era := z / 146097). set (doe := z - era * 146097).
  set (yoe := (doe - doe / 1460 + doe / 36524 - doe / 146096) / 365).
  assert (Hdoe : 0 <= doe < 146097) by (subst doe era; Z.div_mod_to_equations; lia).
  assert (Hy : 0 <= yoe < 400) by (subst yoe; Z.div_mod_to_equations; lia).
  assert (He : -700 <= era <= 700) by (subst era z; Z.div_mod_to_equations; lia).
  match goal with |- context [if ?b then 1 else 0] => destruct b end; lia.
Qed.

(** ** Reading an ISO string *)

Lemma append_assoc a b c : (a +:+ b) +:+ c = a +:+ (b +:+ c).
Proof.
  induction a as [|x a IH]; [reflexivity|].
  change (String x a +:+ b) with (String x (a +:+ b)).
  change (String x (a +:+ b) +:+ c) with (String x ((a +:+ b) +:+ c)).
  now rewrite IH.
Qed.

(** A digit is not a sign. *)
Lemma read_year_digits s rest :
  all_chars is_digit s = true -> String.length s = 4%nat ->
  read_year (s +:+ rest) = read_digits 4 0 (s +:+ rest).
Proof.
  destruct s as [|c s]; [discriminate|]. intros H _.
  change (String c s +:+ rest) with (String c (s +:+ rest)).
  simpl in H. apply andb_true_iff in H as [Hc _].
  destruct c as [[] [] [] [] [] [] [] []]; try discriminate Hc; reflexivity.
Qed.

(** The year as [toISOString] writes it, read back. *)
Lemma read_year_iso y rest :
  -999999 <= y <= 999999 ->
  read_year ((if (0 <=? y) && (y <=? 9999) then pad 4 y
              else (if y <? 0 then "-" else "+") +:+ pad 6 (Z.abs y)) +:+ rest)
  = Some (y, rest).
Proof.
  intros Hy. destruct ((0 <=? y) && (y <=? 9999)) eqn:E.
  - apply andb_true_iff in E as [E1 E2]. apply Z.leb_le in E1, E2.
    destruct (pad_spec 4 y ltac:(lia) ltac:(change (10 ^ Z.of_nat 4) with 10000; lia))
      as (Hd & Hl & _).
    rewrite (read_year_digits _ rest Hd Hl).
    apply read_pad; [lia|]. change (10 ^ Z.of_nat 4) with 10000. lia.
  - rewrite append_assoc.
    assert (Hpad : read_digits 6 0 (pad 6 (Z.abs y) +:+ rest) = Some (Z.abs y, rest)).
    { apply read_pad; [lia|]. change (10 ^ Z.of_nat 6) with 1000000. lia. }
    destruct (y <? 0) eqn:E1.
    + apply Z.ltb_lt in E1.
      change ("-" +:+ ?x) with (String "-" x). cbn [read_year]. rewrite Hpad.
      replace (Z.abs y =? 0) with false by (symmetry; apply Z.eqb_neq; lia).
      f_equal. f_equal. lia.
    + apply Z.ltb_ge in E1.
      change ("+" +:+ ?x) with (String "+" x). cbn [read_year]. rewrite Hpad.
      f_equal. f_equal. lia.
Qed.

Lemma read_pad2 n rest :
  0 <= n < 100 -> read_digits 2 0 (pad 2 n +:+ rest) = Some (n, rest).
Proof. intros Hn. apply read_pad; [lia|]. change (10 ^ Z.of_nat 2) with 100. lia. Qed.

Lemma read_pad3 n rest :
  0 <= n < 1000 -> read_digits 3 0 (pad 3 n +:+ rest) = Some (n, rest).
Proof. intros Hn. apply read_pad; [lia|]. change (10 ^ Z.of_nat 3) with 1000. lia. Qed.

(** The date part. *)
Lemma read_date_iso y m d rest :
  -999999 <= y <= 999999 -> 0 <= m < 100 -> 0 <= d < 100 ->
  read_date ((if (0 <=? y) && (y <=? 9999) then pad 4 y
              else (if y <? 0 then "-" else "+") +:+ pad 6 (Z.abs y))
             +:+ "-" +:+ pad 2 m +:+ "-" +:+ pad 2 d +:+ rest)
  = Some (y, m, d, rest).
Proof.
  intros Hy Hm Hd. unfold read_date. rewrite (read_year_iso y _ Hy).
  change ("-" +:+ ?x) with (String "-" x). cbv beta iota.
  rewrite (read_pad2 m _ Hm). cbv beta iota.
  change ("-" +:+ ?x) with (String "-" x). cbv beta iota.
  rewrite (read_pad2 d _ Hd). reflexivity.
Qed.

(** The time part, for the milliseconds [r] of a day. *)
Lemma read_time_iso r rest :
  0 <= r < msPerDay ->
  read_time (pad 2 (r / 3600000) +:+ ":" +:+ pad 2 ((r / 60000) mod 60) +:+ ":"
             +:+ pad 2 ((r / 1000) mod 60) +:+ "." +:+ pad 3 (r mod 1000) +:+ rest)
  = Some (r, rest).
Proof.
  unfold msPerDay. intros Hr. unfold read_time.
  rewrite read_pad2 by (Z.div_mod_to_equations; lia).
  change (":" +:+ ?x) with (String ":" x). cbv beta iota.
  rewrite read_pad2 by (Z.div_mod_to_equations; lia).
  change (":" +:+ ?x) with (String ":" x). cbv beta iota.
  rewrite read_pad2 by (Z.div_mod_to_equations; lia).
  change ("." +:+ ?x) with (String "." x). cbv beta iota.
  rewrite read_pad3 by (Z.div_mod_to_equations; lia).
  replace ((r / 3600000 <=? 23) && ((r / 60000) mod 60 <=? 59) && ((r / 1000) mod 60 <=? 59))
    with true.
  - cbn [orb]. f_equal. f_equal. Z.div_mod_to_equations. lia.
  - symmetry. rewrite !andb_true_iff. repeat split; apply Z.leb_le;
      Z.div_mod_to_equations; lia.
Qed.

(** [Date.parse] of what [toISOString] writes is the time value: the
    string is in the format of ECMAScript, whatever the time zone. *)
Lemma iso_parse_toISOString tz t :
  Z.abs t <= 8640000000000000 -> iso_parse tz (toISOString t) = IsoTime (Some t).
Proof.
  intros Ht. unfold toISOString.
  pose proof (civil_days (t / msPerDay)) as Hdays.
  pose proof (civil_day_in_month (t / msPerDay)) as Hmonth.
  pose proof (civil_year_range (t / msPerDay)
                ltac:(unfold msPerDay; Z.div_mod_to_equations; lia)) as Hyear.
  destruct (civil_from_days (t / msPerDay)) as [[y m] d].
  destruct Hdays as (Hm & Hd & Hday).
  assert (Hd31 : d <= 31).
  { unfold days_in_month in Hmonth.
    repeat match goal with H : context [if ?b then _ else _] |- _ => destruct b end; lia. }
  assert (Hr : 0 <= t mod msPerDay < msPerDay) by (apply Z.mod_pos_bound; reflexivity).
  unfold iso_parse. cbv zeta.
  rewrite (read_date_iso y m d _ Hyear ltac:(lia) ltac:(lia)).
  replace ((1 <=? m) && (m <=? 12) && (1 <=? d) && (d <=? days_in_month y m)) with true
    by (symmetry; rewrite !andb_true_iff; repeat split; apply Z.leb_le; lia).
  change ("T" +:+ ?x) with (String "T" x). cbv beta iota.
  rewrite (read_time_iso _ "Z" Hr). cbn [read_offset].
  rewrite Hday. unfold time_clip.
  replace (t / msPerDay * msPerDay + t mod msPerDay - 0) with t
    by (pose proof (Z.div_mod t msPerDay ltac:(discriminate)); lia).
  replace (Z.abs t <=? 8640000000000000) with true by (symmetry; apply Z.leb_le; lia).
  reflexivity.
Qed.

(** ** A date through the cache *)

Lemma zeros_plain k : is_plain (repeat_char "0" k) = true.
Proof. induction k; simpl; auto. Qed.

Lemma pad_plain width n : is_plain (pad width n) = true.
Proof. unfold pad. now rewrite is_plain_app, zeros_plain, of_Z_plain. Qed.

Lemma toISOString_plain t : is_plain (toISOString t) = true.
Proof.
  unfold toISOString. destruct (civil_from_days (t / msPerDay)) as [[y m] d].
  cbv zeta. rewrite !is_plain_app, !pad_plain.
  destruct ((0 <=? y) && (y <=? 9999)); [now rewrite pad_plain|].
  rewrite is_plain_app, pad_plain. now destruct (y <? 0).
Qed.

Lemma toISOString_not_empty t : toISOString t <> "".
Proof.
  intros H. apply (f_equal String.length) in H. unfold toISOString in H.
  destruct (civil_from_days (t / msPerDay)) as [[y m] d]. cbv zeta in H.
  rewrite !length_append in H. simpl in H. lia.
Qed.

(** A valid date is written to the cache as its ISO string and read back
    as the date. *)
Lemma restore_date_valid w t :
  Z.abs t <= 8640000000000000 ->
  restore_date (JSON_stringify (VDate (Some t))) w = (Returned (VDate (Some t)), w).
Proof.
  intros Ht. unfold restore_date, JSON_parse, mbind, M_bind, lift, ask. simpl JSON_stringify.
  rewrite (parse_quoted_plain _ (toISOString_plain t)). cbv beta iota.
  assert (Htruthy : truthy (Some (JStr (toISOString t))) = true).
  { apply negb_true_iff, String.eqb_neq, toISOString_not_empty. }
  rewrite Htruthy. unfold new_Date, Date_parse.
  rewrite (iso_parse_toISOString (tz w) t Ht). reflexivity.
Qed.

(** An Invalid Date is written as [null], which reads back as no data. *)
Lemma restore_date_invalid w :
  restore_date (JSON_stringify (VDate None)) w = (Returned (VStr "Нет данных"), w).
Proof. reflexivity. Qed.

Section CachedValidDate.

Context (f : string -> M Value) (key : string -> string) (ttl : Z)
        (resolve : string -> M Value).
Hypothesis f_caches :
  caches f key ttl resolve (fun r => r) (fun r => Returned (JSON_stringify r)) restore_date.
Hypothesis resolve_world : forall ticker url w,
  securities_url ticker = Returned url ->
  snd (resolve ticker w) = with_requests (url :: requests w) w.
Hypothesis resolve_url : forall ticker w v,
  fst (resolve ticker w) = Returned v -> exists url, securities_url ticker = Returned url.
Hypothesis f_miss_throws : forall ticker w e,
  blank ticker = false -> cache w !! key ticker = None ->
  fst (resolve ticker w) = Thrown e -> fst (f ticker w) = Thrown e.

Lemma cached_date_again ticker w d :
  blank ticker = false -> cache w !! key ticker = None ->
  fst (f ticker w) = Returned (VDate d) ->
  exists url,
    securities_url ticker = Returned url
    /\ snd (f ticker w)
       = with_cache (<[key ticker := (JSON_stringify (VDate d), ttl)]> (cache w))
           (with_requests (url :: requests w) w)
    /\ f ticker (snd (f ticker w))
       = restore_date (JSON_stringify (VDate d)) (snd (f ticker w)).
Proof.
  intros Hb Hc Hr.
  destruct (resolve ticker w) as [[r|x] w1] eqn:Hres.
  - pose proof (proj2 (f_caches ticker w Hb) Hc r w1 _ Hres eq_refl) as Hf.
    rewrite Hf in Hr |- *. cbn [fst snd] in *. injection Hr as ->.
    destruct (resolve_url ticker w (VDate d)) as [url Hurl]; [now rewrite Hres|].
    pose proof (resolve_world ticker url w Hurl) as Hw. rewrite Hres in Hw. cbn in Hw. subst w1.
    exists url. split; [exact Hurl|]. split; [reflexivity|].
    apply (proj1 (f_caches ticker _ Hb) _ ttl). cbn. apply lookup_insert_eq.
  - pose proof (f_miss_throws ticker w x Hb Hc) as Hf. rewrite Hres in Hf.
    rewrite (Hf eq_refl) in Hr. discriminate.
Qed.

End CachedValidDate.

(** What GET_NEXT_COUPON and GET_MATURITY_DATE return on a miss, they
    return again on the hit that follows when it is a valid date: the
    date is kept as its ISO string, and [new Date] of that string is the
    date; no request is made.  An Invalid Date is kept as [null] and
    comes back as the text "Нет данных". *)
Theorem cached_date_round_trip ticker w :
  blank ticker = false ->
  (cache w !! (ticker +:+ "_coupon") = None ->
   let w' := snd (GET_NEXT_COUPON ticker w) in
   (forall t, Z.abs t <= 8640000000000000 ->
      fst (GET_NEXT_COUPON ticker w) = Returned (VDate (Some t)) ->
      GET_NEXT_COUPON ticker w' = (Returned (VDate (Some t)), w'))
   /\ (fst (GET_NEXT_COUPON ticker w) = Returned (VDate None) ->
       GET_NEXT_COUPON ticker w' = (Returned (VStr "Нет данных"), w')))
  /\ (cache w !! (ticker +:+ "_maturity") = None ->
      let w' := snd (GET_MATURITY_DATE ticker w) in
      (forall t, Z.abs t <= 8640000000000000 ->
         fst (GET_MATURITY_DATE ticker w) = Returned (VDate (Some t)) ->
         GET_MATURITY_DATE ticker w' = (Returned (VDate (Some t)), w'))
      /\ (fst (GET_MATURITY_DATE ticker w) = Returned (VDate None) ->
          GET_MATURITY_DATE ticker w' = (Returned (VStr "Нет данных"), w'))).
Proof.
  intros Hb. split; intros Hc w'; subst w'.
  - split; [intros t Ht Hr | intros Hr];
      destruct (cached_date_again _ _ _ _ GET_NEXT_COUPON_caches fetchNextCouponInternal_world
                  (fun t w v => resolver_url t _ w v) GET_NEXT_COUPON_miss_throws
                  ticker w _ Hb Hc Hr) as (url & _ & _ & ->);
      [now apply restore_date_valid | apply restore_date_invalid].
  - split; [intros t Ht Hr | intros Hr];
      destruct (cached_date_again _ _ _ _ GET_MATURITY_DATE_caches
                  fetchMaturityDateInternal_world
                  (fun t w v => resolver_url t _ w v) GET_MATURITY_DATE_miss_throws
                  ticker w _ Hb Hc Hr) as (url & _ & _ & ->);
      [now apply restore_date_valid | apply restore_date_invalid].
Qed.

(** The next coupon of [Sample.bond_world], 2025-12-03, asked for twice. *)
Lemma cached_date_round_trip_witness :
  fst (GET_NEXT_COUPON "SU26207RMFS9" Sample.bond_world)
  = Returned (VDate (Some 1764720000000))
  /\ fst (GET_NEXT_COUPON "SU26207RMFS9" (snd (GET_NEXT_COUPON "SU26207RMFS9" Sample.bond_world)))
     = Returned (VDate (Some 1764720000000)).
Proof.
  assert (H : fst (GET_NEXT_COUPON "SU26207RMFS9" Sample.bond_world)
              = Returned (VDate (Some 1764720000000))) by (vm_compute; reflexivity).
  split; [exact H|].
  rewrite (proj1 (proj1 (cached_date_round_trip "SU26207RMFS9" Sample.bond_world eq_refl)
                    eq_refl) 1764720000000 ltac:(lia) H).
  reflexivity.
Defined.

(** * A text through the cache *)

Lemma plain_text_number n : plain_text (VNum n).
Proof. intros s H. discriminate H. Qed.

Ltac plain_leaf :=
  first [ apply plain_text_number
        | intros ? [= <-]; first [ reflexivity | rewrite is_plain_app, of_Z_plain; reflexivity ] ].

(** Every text the price resolver returns is plain. *)
Lemma fetchSinglePriceInternal_plain ticker :
  results_in plain_text (fetchSinglePriceInternal ticker).
Proof. unfold fetchSinglePriceInternal. results_with plain_leaf. Qed.

(** The JSON text of a plain text, read back. *)
Lemma restore_json_plain w s :
  is_plain s = true -> restore_json (JSON_stringify (VStr s)) w = (Returned (VStr s), w).
Proof.
  intros H. unfold restore_json, JSON_parse, mbind, M_bind, lift. simpl JSON_stringify.
  rewrite (parse_quoted_plain s H). reflexivity.
Qed.

Section CachedAgain.

Context {R : Type} (f : string -> M Value) (key : string -> string) (ttl : Z)
        (resolve : string -> M R) (to_value : R -> Value) (serialize : R -> Outcome string)
        (restore : string -> M Value).
Hypothesis f_caches : caches f key ttl resolve to_value serialize restore.
Hypothesis f_miss :
  forall ticker w, blank ticker = false -> cache w !! key ticker = None ->
    f ticker w = (result ← resolve ticker;
                  text ← lift (serialize result);
                  _ ← cache_put (key ticker) text ttl;
                  mret (to_value result)) w.

(** After a miss that returned, the next call is a hit on what was
    written. *)
Lemma resolved_then_cached ticker w v :
  blank ticker = false -> cache w !! key ticker = None ->
  fst (f ticker w) = Returned v ->
  exists r text,
    to_value r = v /\ serialize r = Returned text
    /\ f ticker (snd (f ticker w)) = restore text (snd (f ticker w)).
Proof.
  intros Hb Hc Hr. rewrite (f_miss ticker w Hb Hc) in Hr |- *.
  unfold mbind, M_bind, lift, cache_put in Hr |- *.
  destruct (resolve ticker w) as [[r|x] w1]; [|discriminate Hr].
  destruct (serialize r) as [text|x] eqn:Hs; [|discriminate Hr].
  cbn in Hr |- *. injection Hr as <-.
  exists r, text. split; [reflexivity|]. split; [exact Hs|].
  apply (proj1 (f_caches ticker _ Hb) text ttl). cbn. apply lookup_insert_eq.
Qed.

End CachedAgain.

(** A text that [GET_MOEX_PRICE] or [GET_MOEX_NAME] returns on a miss is
    what the hit that follows returns, without a request: the price keeps
    the text as JSON, and every text its resolver returns comes back from
    JSON as it was; the name keeps it as it is.  The same holds of
    [GET_COUPON_VALUE] for a plain text (one without quotes, backslashes
    and control characters). *)
Theorem cached_text_round_trip ticker w s :
  blank ticker = false ->
  (cache w !! ticker = None ->
   fst (GET_MOEX_PRICE ticker w) = Returned (VStr s) ->
   let w' := snd (GET_MOEX_PRICE ticker w) in
   GET_MOEX_PRICE ticker w' = (Returned (VStr s), w'))
  /\ (cache w !! (ticker +:+ "_name") = None ->
      fst (GET_MOEX_NAME ticker w) = Returned (VStr s) ->
      let w' := snd (GET_MOEX_NAME ticker w) in
      GET_MOEX_NAME ticker w' = (Returned (VStr s), w'))
  /\ (cache w !! (ticker +:+ "_coupon_value_v3") = None ->
      fst (GET_COUPON_VALUE ticker w) = Returned (VStr s) -> is_plain s = true ->
      let w' := snd (GET_COUPON_VALUE ticker w) in
      GET_COUPON_VALUE ticker w' = (Returned (VStr s), w')).
Proof.
  intros Hb. split; [|split].
  - intros Hc Hr w'. subst w'.
    assert (Hplain : is_plain s = true).
    { revert Hr. unfold GET_MOEX_PRICE. run_lookup Hb. rewrite Hc. cbn.
      pose proof (fetchSinglePriceInternal_plain ticker w) as Hp.
      destruct (fetchSinglePriceInternal ticker w) as [[v|e] w1]; cbn; [|discriminate].
      intros [= ->]. exact (Hp _ eq_refl s eq_refl). }
    destruct (resolved_then_cached _ _ _ _ _ _ _ GET_MOEX_PRICE_caches
                ltac:(intros t w0 Hb0 Hc0; unfold GET_MOEX_PRICE; run_lookup Hb0;
                      rewrite Hc0; reflexivity)
                ticker w _ Hb Hc Hr) as (r & text & -> & [= <-] & ->).
    now apply restore_json_plain.
  - intros Hc Hr w'. subst w'.
    destruct (resolved_then_cached _ _ _ _ _ _ _ GET_MOEX_NAME_caches
                ltac:(intros t w0 Hb0 Hc0; unfold GET_MOEX_NAME; run_lookup Hb0;
                      rewrite Hc0; reflexivity)
                ticker w _ Hb Hc Hr) as (r & text & Hv & Hs & ->).
    injection Hv as ->. cbn in Hs. injection Hs as <-. reflexivity.
  - intros Hc Hr Hplain w'. subst w'.
    destruct (resolved_then_cached _ _ _ _ _ _ _ GET_COUPON_VALUE_caches
                ltac:(intros t w0 Hb0 Hc0; unfold GET_COUPON_VALUE; run_lookup Hb0;
                      rewrite Hc0; reflexivity)
                ticker w _ Hb Hc Hr) as (r & text & -> & [= <-] & ->).
    now apply restore_json_plain.
Qed.

(** The API does not know NOSUCHBOND: the price is the message, twice,
    and the second time nothing is asked. *)
Lemma cached_text_round_trip_witness :
  let w' := snd (GET_MOEX_PRICE "NOSUCHBOND" Sample.unknown_world) in
  GET_MOEX_PRICE "NOSUCHBOND" w'
  = (Returned (VStr "Тикер не найден или API вернул неполные данные"), w').
Proof.
  apply (proj1 (cached_text_round_trip "NOSUCHBOND" Sample.unknown_world _ eq_refl) eq_refl).
  vm_compute. reflexivity.
Defined.

(** * The forced recalculation *)

(** ** The cells found *)

Lemma scan_row_found upper i row (f : nat -> string) j n acc :
  row = map f (seq j n) ->
  scan_row upper i (Z.of_nat j) row acc
  = (acc ++ List.filter (fun cell => hasCustomFunction upper (f (Z.to_nat (snd cell - 1))))
                        (map (fun k => (i + 1, Z.of_nat k + 1)) (seq j n)))%list.
Proof.
  revert row j acc. induction n as [|n IH]; intros row j acc ->; simpl.
  - now rewrite app_nil_r.
  - replace (Z.of_nat j + 1) with (Z.of_nat (S j)) by lia.
    rewrite (IH _ (S j) _ eq_refl).
    replace (Z.to_nat (Z.of_nat (S j) - 1)) with j by lia.
    destruct (hasCustomFunction upper (f j)); [|reflexivity].
    now rewrite <- app_assoc.
Qed.

Lemma scan_rows_found upper (F : Z -> Z -> string) columns i n acc :
  scan_rows upper (Z.of_nat i)
    (map (fun r => map (fun c => F (Z.of_nat r + 1) (Z.of_nat c + 1)) (seq 0 columns))
         (seq i n)) acc
  = (acc ++ List.filter (fun cell => hasCustomFunction upper (F (fst cell) (snd cell)))
                        (flat_map (fun r => map (fun c => (Z.of_nat r + 1, Z.of_nat c + 1))
                                                (seq 0 columns))
                                  (seq i n)))%list.
Proof.
  revert i acc. induction n as [|n IH]; intros i acc; simpl.
  - now rewrite app_nil_r.
  - pose proof (scan_row_found upper (Z.of_nat i) _
                  (fun c => F (Z.of_nat i + 1) (Z.of_nat c + 1)) 0 columns acc eq_refl) as Hrow.
    change (Z.of_nat 0) with 0 in Hrow. rewrite Hrow. clear Hrow.
    replace (Z.of_nat i + 1) with (Z.of_nat (S i)) at 1 by lia.
    rewrite (IH (S i)).
    rewrite List.filter_app, <- app_assoc. f_equal. f_equal.
    apply List.filter_ext_in. intros [r c] Hin. apply in_map_iff in Hin as (k & [= <- <-] & _).
    cbn [fst snd]. do 2 f_equal. lia.
Qed.

(** The cells that [forceRecalculatePrices] collects are the cells of
    the data range that hold a custom function, row by row. *)
Lemma scan_targets d :
  scan_rows (upper_case d) 0 (fst (getFormulas d)) [] = targets d.
Proof.
  unfold getFormulas, targets, data_cells. cbn [fst].
  exact (scan_rows_found (upper_case d) (formula_of d) (lastColumn d) 0 (lastRow d) []).
Qed.

(** ** The cells rewritten *)

(** Recalculating cells one after the other: every formula is in the end
    what it was, and the calls are those of each cell in turn. *)
Lemma forEach_recalculation d0 cells d :
  same_sheet d0 d -> upper_case d = upper_case d0 ->
  let d' := snd (forEach cells
                   (fun cell =>
                      originalFormula ← getFormula cell;
                      _ ← clearContent cell;
                      _ ← effect Flush;
                      _ ← setFormula cell originalFormula;
                      effect (Sleep DELAY_MS)) d) in
  same_sheet d0 d' /\ upper_case d' = upper_case d0
  /\ effects d' = (effects d ++ flat_map (recalculation d0) cells)%list.
Proof.
  revert d. induction cells as [|[r c] cells IH]; intros d Hsame Hupper; cbn zeta.
  - simpl. rewrite app_nil_r. auto.
  - cbn [forEach]. unfold mbind at 1. unfold Script_bind at 1.
    set (step := (getFormula (r, c) ≫= _) d).
    assert (Hstep : step
              = (tt, {| formula_of := fun r' c' =>
                          if (r' =? r) && (c' =? c) then formula_of d r c
                          else if (r' =? r) && (c' =? c) then "" else formula_of d r' c';
                        lastRow := lastRow d; lastColumn := lastColumn d;
                        upper_case := upper_case d;
                        effects := ((((effects d ++ [ClearContent r c]) ++ [Flush])
                                     ++ [SetFormula r c (formula_of d r c)])
                                    ++ [Sleep DELAY_MS])%list |})) by reflexivity.
    rewrite Hstep. clear step Hstep. cbv beta iota.
    destruct Hsame as (Hf & Hr & Hc).
    match goal with |- context [forEach cells ?f ?dd] => specialize (IH dd) end.
    cbn zeta in IH. destruct IH as (Hsame' & Hupper' & Heffects').
    + split; [|split; [exact Hr|exact Hc]]. intros r' c'. cbn.
      destruct ((r' =? r) && (c' =? c)) eqn:E; [|apply Hf].
      apply andb_true_iff in E as [E1 E2]. apply Z.eqb_eq in E1, E2. subst. apply Hf.
    + exact Hupper.
    + split; [exact Hsame'|]. split; [exact Hupper'|].
      etransitivity; [exact Heffects'|].
      cbn [effects flat_map recalculation fst snd].
      rewrite (Hf r c).
      rewrite <- !app_assoc. reflexivity.
Qed.

Lemma slept_app a b : slept (a ++ b) = slept a + slept b.
Proof.
  induction a as [|e a IH]; [reflexivity|]. simpl. destruct e; rewrite ?IH; lia.
Qed.

Lemma slept_recalculation d cells :
  slept (flat_map (recalculation d) cells) = DELAY_MS * Z.of_nat (length cells).
Proof.
  induction cells as [|cell cells IH]; [reflexivity|].
  cbn [flat_map length]. rewrite slept_app, IH. cbn [recalculation slept]. lia.
Qed.

Lemma forceRecalculatePrices_run d :
  forceRecalculatePrices d
  = let targetCells := targets d in
    let count := JSString.of_Z (Z.of_nat (length targetCells)) in
    if (length targetCells =? 0)%nat then
      effect (Alert ("На листе не найдено ячеек с функциями: "
                     +:+ JSON.join ", " CUSTOM_FUNCTIONS)) d
    else
      (_ ← effect (AlertButtons ("Найдено " +:+ count +:+ " ячеек. Начинаю обновление...")
                     "OK");
       _ ← effect (Toast ("Обновление " +:+ count +:+ " ячеек..."));
       _ ← forEach targetCells
             (fun cell =>
                originalFormula ← getFormula cell;
                _ ← clearContent cell;
                _ ← effect Flush;
                _ ← setFormula cell originalFormula;
                effect (Sleep DELAY_MS));
       effect (ToastTitled "Обновление данных завершено!" "Готово" 5)) d.
Proof.
  unfold forceRecalculatePrices.
  unfold mbind at 1 2. unfold Script_bind at 1 2.
  change (getFormulas d) with (fst (getFormulas d), d). cbv beta iota zeta.
  rewrite (scan_targets d). destruct (length (targets d) =? 0)%nat; reflexivity.
Qed.

(** What a run leaves of the sheet, and the calls it makes. *)
Lemma forceRecalculatePrices_effects d :
  let d' := snd (forceRecalculatePrices d) in
  let count := JSString.of_Z (Z.of_nat (length (targets d))) in
  same_sheet d d'
  /\ effects d'
     = (effects d
        ++ match targets d with
           | [] =>
               [ Alert ("На листе не найдено ячеек с функциями: GET_MOEX_PRICE, "
                        +:+ "GET_NEXT_COUPON, GET_MOEX_NAME, GET_COUPON_VALUE, "
                        +:+ "GET_MATURITY_DATE, GET_NEAREST_OPTION_DATE") ]
           | cells =>
               [ AlertButtons ("Найдено " +:+ count +:+ " ячеек. Начинаю обновление...") "OK";
                 Toast ("Обновление " +:+ count +:+ " ячеек...") ]
               ++ flat_map (recalculation d) cells
               ++ [ ToastTitled "Обновление данных завершено!" "Готово" 5 ]
           end)%list.
Proof.
  cbv zeta. rewrite forceRecalculatePrices_run. cbv zeta.
  destruct (targets d) as [|cell cells] eqn:Ht.
  - cbn. split; [repeat split | reflexivity].
  - change (length (cell :: cells) =? 0)%nat with false. cbv beta iota.
    match goal with |- context [snd ?r] => set (run := r) end.
    assert (Hrun : exists d2,
               snd run = {| formula_of := formula_of d2; lastRow := lastRow d2;
                            lastColumn := lastColumn d2; upper_case := upper_case d2;
                            effects := (effects d2
                                        ++ [ToastTitled "Обновление данных завершено!"
                                              "Готово" 5])%list |}
               /\ same_sheet d d2
               /\ effects d2
                  = ((effects d
                      ++ [AlertButtons
                            ("Найдено "
                             +:+ JSString.of_Z (Z.of_nat (length (cell :: cells)))
                             +:+ " ячеек. Начинаю обновление...") "OK"])
                     ++ [Toast ("Обновление "
                                +:+ JSString.of_Z (Z.of_nat (length (cell :: cells)))
                                +:+ " ячеек...")]
                     ++ flat_map (recalculation d) (cell :: cells))%list).
    { unfold run. unfold mbind at 1 2 3. unfold Script_bind at 1 2 3.
      cbn [effect]. cbv beta iota.
      match goal with
      | |- context [forEach ?l ?f ?dd] =>
          pose proof (forEach_recalculation d l dd) as Hloop
      end.
      cbn zeta in Hloop.
      destruct Hloop as (Hsame & Hupper & Heffects);
        [repeat split | reflexivity |].
      match goal with
      | |- context [forEach ?l ?f ?dd] => destruct (forEach l f dd) as [[] d2]
      end.
      exists d2. cbn [snd] in *. split; [reflexivity|]. split; [exact Hsame|].
      rewrite Heffects. cbn [effects]. now rewrite <- !app_assoc. }
    destruct Hrun as (d2 & -> & (Hf & Hr & Hc) & He).
    split; [repeat split; assumption|]. cbn [effects]. rewrite He.
    rewrite <- !app_assoc. reflexivity.
Qed.


(** [forceRecalculatePrices] leaves every formula of the sheet as it
    was.  Where no cell of the data range holds a custom function it
    shows one alert that names the six functions; elsewhere it announces
    the number of cells in an alert and a toast, recalculates the cells
    one after the other, row by row (the cell is emptied, the sheet
    flushed, the formula the cell had is written back, and the script
    waits 400 ms), and ends with a toast: it sleeps 400 ms per cell. *)
Theorem forced_recalculation d :
  let d' := snd (forceRecalculatePrices d) in
  let count := JSString.of_Z (Z.of_nat (length (targets d))) in
  same_sheet d d'
  /\ effects d'
     = (effects d
        ++ match targets d with
           | [] =>
               [ Alert ("На листе не найдено ячеек с функциями: GET_MOEX_PRICE, "
                        +:+ "GET_NEXT_COUPON, GET_MOEX_NAME, GET_COUPON_VALUE, "
                        +:+ "GET_MATURITY_DATE, GET_NEAREST_OPTION_DATE") ]
           | cells =>
               [ AlertButtons ("Найдено " +:+ count +:+ " ячеек. Начинаю обновление...") "OK";
                 Toast ("Обновление " +:+ count +:+ " ячеек...") ]
               ++ flat_map (recalculation d) cells
               ++ [ ToastTitled "Обновление данных завершено!" "Готово" 5 ]
           end)%list
  /\ slept (effects d') = slept (effects d) + 400 * Z.of_nat (length (targets d)).
Proof.
  cbv zeta. pose proof (forceRecalculatePrices_effects d) as H. cbv zeta in H.
  destruct H as [Hsame He]. split; [exact Hsame|]. split; [exact He|].
  rewrite He, slept_app. destruct (targets d) as [|cell cells].
  - cbn. lia.
  - rewrite !slept_app, slept_recalculation. cbn [slept]. unfold DELAY_MS. lia.
Qed.

(** ** The cells recalculated *)

Lemma in_data_cells d row column :
  In (row, column) (data_cells d)
  <-> 1 <= row <= Z.of_nat (lastRow d) /\ 1 <= column <= Z.of_nat (lastColumn d).
Proof.
  unfold data_cells. rewrite in_flat_map. split.
  - intros (i & Hi & Hin). apply in_map_iff in Hin as (j & [= <- <-] & Hj).
    apply in_seq in Hi, Hj. lia.
  - intros [Hr Hc]. exists (Z.to_nat (row - 1)). split; [apply in_seq; lia|].
    apply in_map_iff. exists (Z.to_nat (column - 1)). split; [f_equal; lia|apply in_seq; lia].
Qed.

Lemma NoDup_rows columns i n :
  List.NoDup (flat_map (fun r => map (fun c => (Z.of_nat r + 1, Z.of_nat c + 1))
                                     (seq 0 columns))
                       (seq i n)).
Proof.
  revert i. induction n as [|n IH]; intros i; simpl; [constructor|].
  apply NoDup_ListNoDup, NoDup_app. split; [|split].
  - apply NoDup_ListNoDup, Finite.Injective_map_NoDup; [|apply seq_NoDup].
    intros a b [= H]. lia.
  - intros [r c] Hin Hin'. apply list_elem_of_In, in_map_iff in Hin as (j & [= <- <-] & _).
    apply list_elem_of_In, in_flat_map in Hin' as (k & Hk & Hin').
    apply in_map_iff in Hin' as (j' & [= H _] & _). apply in_seq in Hk. lia.
  - apply NoDup_ListNoDup, IH.
Qed.

Lemma cells_cleared_app a b :
  cells_cleared (a ++ b) = (cells_cleared a ++ cells_cleared b)%list.
Proof.
  induction a as [|e a IH]; [reflexivity|]. destruct e; simpl; now rewrite IH.
Qed.

Lemma cells_written_app a b :
  cells_written (a ++ b) = (cells_written a ++ cells_written b)%list.
Proof.
  induction a as [|e a IH]; [reflexivity|]. destruct e; simpl; now rewrite IH.
Qed.

Lemma cells_cleared_recalculation d cells :
  cells_cleared (flat_map (recalculation d) cells) = cells.
Proof.
  induction cells as [|[r c] cells IH]; [reflexivity|].
  cbn [flat_map]. rewrite cells_cleared_app, IH. reflexivity.
Qed.

Lemma cells_written_recalculation d cells :
  cells_written (flat_map (recalculation d) cells)
  = map (fun cell => (cell, formula_of d (fst cell) (snd cell))) cells.
Proof.
  induction cells as [|[r c] cells IH]; [reflexivity|].
  cbn [flat_map]. rewrite cells_written_app, IH. reflexivity.
Qed.

(** The cells that a run of [forceRecalculatePrices] empties are the
    cells of the data range whose formula holds a custom function, each
    of them once; the cells it writes are these cells, in the same order,
    each with the formula it had before the run.  No other cell is
    emptied or written. *)
Theorem recalculated_cells d :
  exists run,
    effects (snd (forceRecalculatePrices d)) = (effects d ++ run)%list
    /\ (forall row column,
          In (row, column) (cells_cleared run)
          <-> 1 <= row <= Z.of_nat (lastRow d) /\ 1 <= column <= Z.of_nat (lastColumn d)
              /\ hasCustomFunction (upper_case d) (formula_of d row column) = true)
    /\ List.NoDup (cells_cleared run)
    /\ cells_written run
       = map (fun cell => (cell, formula_of d (fst cell) (snd cell))) (cells_cleared run).
Proof.
  pose proof (forceRecalculatePrices_effects d) as H. cbv zeta in H. destruct H as [_ He].
  eexists. split; [exact He|].
  match goal with |- context [cells_cleared ?r] => set (run := r) end.
  assert (Hc : cells_cleared run = targets d).
  { unfold run. destruct (targets d) as [|cell cells]; [reflexivity|].
    rewrite !cells_cleared_app, cells_cleared_recalculation. cbn. now rewrite app_nil_r. }
  assert (Hw : cells_written run
               = map (fun cell => (cell, formula_of d (fst cell) (snd cell))) (targets d)).
  { unfold run. destruct (targets d) as [|cell cells]; [reflexivity|].
    rewrite !cells_written_app, cells_written_recalculation. cbn. now rewrite app_nil_r. }
  rewrite Hc, Hw. split; [|split; [|reflexivity]].
  - intros row column. unfold targets. rewrite filter_In, in_data_cells. cbn [fst snd]. tauto.
  - apply List.NoDup_filter, NoDup_rows.
Qed.

(** ** Letter case *)

Import JSText.

Lemma append_nil_l s : "" +:+ s = s.
Proof. reflexivity. Qed.

Lemma strip_prefix_app n y : strip_prefix n (n +:+ y) = Some y.
Proof.
  induction n as [|c n IH]; [reflexivity|].
  change (String c n +:+ y) with (String c (n +:+ y)). simpl.
  now rewrite Ascii.eqb_refl.
Qed.

(** A string includes what stands in it. *)
Lemma includes_app x n y : includes (x +:+ n +:+ y) n = true.
Proof.
  induction x as [|c x IH].
  - change ("" +:+ n +:+ y) with (n +:+ y).
    destruct (n +:+ y) eqn:E; simpl; rewrite <- E, strip_prefix_app; reflexivity.
  - change (String c x +:+ n +:+ y) with (String c (x +:+ n +:+ y)).
    cbn [includes]. rewrite IH. now destruct (strip_prefix n _).
Qed.

(** Upper case goes through ASCII text character by character. *)
Lemma toUpperCase_from_ascii upper pending s rest :
  all_chars is_ascii s = true -> s <> "" ->
  toUpperCase_from upper pending (s +:+ rest)
  = written upper pending +:+ map_chars ascii_upper s +:+ toUpperCase_from upper "" rest.
Proof.
  revert pending. induction s as [|c s IH]; intros pending Hs Hne; [contradiction|].
  change (String c s +:+ rest) with (String c (s +:+ rest)).
  simpl in Hs. apply andb_true_iff in Hs as [Hc Hs]. unfold is_ascii in Hc.
  cbn [toUpperCase_from map_chars]. rewrite Hc. f_equal.
  change (String (ascii_upper c) (map_chars ascii_upper s) +:+ toUpperCase_from upper "" rest)
    with (String (ascii_upper c) (map_chars ascii_upper s +:+ toUpperCase_from upper "" rest)).
  f_equal. destruct s as [|c' s']; [reflexivity|].
  rewrite (IH "" Hs ltac:(discriminate)). reflexivity.
Qed.

Lemma toUpperCase_from_within upper pending pre s rest :
  all_chars is_ascii s = true -> s <> "" ->
  exists before,
    toUpperCase_from upper pending (pre +:+ s +:+ rest)
    = before +:+ map_chars ascii_upper s +:+ toUpperCase_from upper "" rest.
Proof.
  intros Hs Hne. revert pending. induction pre as [|c pre IH]; intros pending.
  - exists (written upper pending).
    change ("" +:+ s +:+ rest) with (s +:+ rest). now apply toUpperCase_from_ascii.
  - change (String c pre +:+ s +:+ rest) with (String c (pre +:+ s +:+ rest)).
    cbn [toUpperCase_from].
    destruct (byte c <? 128); [|destruct (byte c <? 192)].
    + destruct (IH "") as [before ->].
      exists (written upper pending +:+ String (ascii_upper c) before).
      rewrite append_assoc. reflexivity.
    + apply IH.
    + destruct (IH (String c "")) as [before ->].
      exists (written upper pending +:+ before). now rewrite append_assoc.
Qed.

Lemma ascii_upper_ascii c : is_ascii (ascii_upper c) = true -> is_ascii c = true.
Proof.
  unfold ascii_upper, is_ascii.
  destruct ((97 <=? byte c) && (byte c <=? 122)) eqn:E; [|trivial].
  intros _. apply andb_true_iff in E as [_ E]. apply Z.leb_le in E. apply Z.ltb_lt. lia.
Qed.

Lemma map_upper_ascii s :
  all_chars is_ascii (map_chars ascii_upper s) = true -> all_chars is_ascii s = true.
Proof.
  induction s as [|c s IH]; [trivial|]. simpl. intros H.
  apply andb_true_iff in H as [Hc Hs]. now rewrite (ascii_upper_ascii c Hc), IH.
Qed.

(** A formula is found when it holds the name of a custom function
    anywhere, in letters of either case, whatever stands around the name
    and whatever the engine does to characters outside ASCII: so also a
    name inside a longer word, or inside a text. *)
Theorem function_found_in_any_case upper before spelled after name :
  In name CUSTOM_FUNCTIONS -> map_chars ascii_upper spelled = name ->
  hasCustomFunction upper (before +:+ spelled +:+ after) = true.
Proof.
  intros Hname Hspelled.
  assert (Hascii : all_chars is_ascii name = true).
  { simpl in Hname. repeat (destruct Hname as [<-|Hname]; [reflexivity|]). destruct Hname. }
  assert (Hne : spelled <> "").
  { intros ->. simpl in Hspelled. subst name. simpl in Hname.
    repeat (destruct Hname as [Hname|Hname]; [discriminate Hname|]). exact Hname. }
  rewrite <- Hspelled in Hascii. apply map_upper_ascii in Hascii.
  unfold hasCustomFunction. apply andb_true_iff. split.
  - apply negb_true_iff, String.eqb_neq. intros H.
    apply (f_equal String.length) in H. rewrite !length_append in H.
    destruct spelled; [contradiction|]. simpl in H. lia.
  - cbv zeta. unfold toUpperCase.
    destruct (toUpperCase_from_within upper "" before spelled after Hascii Hne) as [x ->].
    rewrite Hspelled. apply existsb_exists. exists name. split; [exact Hname|].
    apply includes_app.
Qed.

(** A formula in lower case, with a Cyrillic sheet name before it. *)
Lemma function_found_in_any_case_witness :
  hasCustomFunction (fun s => s) "=Лист1!A1+get_moex_price(B2)" = true.
Proof.
  apply (function_found_in_any_case (fun s => s) "=Лист1!A1+" "get_moex_price" "(B2)"
           "GET_MOEX_PRICE"); [simpl; tauto | reflexivity].
Defined.

(** * A number through the cache *)

(** ** The normal form of a decimal *)

Lemma strip_zeros_spec fuel : forall m e,
  m <> 0 -> Z.log2 (Z.abs m) <= Z.of_nat fuel ->
  let '(m', e') := strip_zeros fuel m e in
  m' mod 10 <> 0 /\ e <= e' /\ m = m' * 10 ^ (e' - e).
Proof.
  induction fuel as [|k IH]; intros m e Hm Hlog.
  - simpl. assert (Z.abs m < 2).
    { destruct (Z_lt_ge_dec (Z.abs m) 2) as [H|H]; [exact H|].
      pose proof (Z.log2_le_mono 2 (Z.abs m) ltac:(lia)) as H1.
      change (Z.log2 2) with 1 in H1. simpl in Hlog. lia. }
    assert (Hc : m = 1 \/ m = -1) by lia.
    rewrite Z.sub_diag. destruct Hc as [-> | ->]; (split; [discriminate | lia]).
  - cbn [strip_zeros]. destruct (m mod 10 =? 0) eqn:Hd.
    + apply Z.eqb_eq in Hd.
      assert (Hq : m = 10 * (m / 10)) by (pose proof (Z.div_mod m 10 ltac:(lia)); lia).
      assert (Hq0 : m / 10 <> 0) by lia.
      assert (Hlq : Z.log2 (Z.abs (m / 10)) <= Z.of_nat k).
      { pose proof (Z.log2_mul_pow2 (Z.abs (m / 10)) 3 ltac:(lia) ltac:(lia)) as H1.
        pose proof (Z.log2_le_mono (Z.abs (m / 10) * 2 ^ 3) (Z.abs m)
                      ltac:(change (2 ^ 3) with 8; lia)) as H2.
        lia. }
      specialize (IH (m / 10) (e + 1) Hq0 Hlq).
      destruct (strip_zeros k (m / 10) (e + 1)) as [m' e'].
      destruct IH as (H1 & H2 & H3). split; [exact H1|]. split; [lia|].
      replace (e' - e) with (1 + (e' - (e + 1))) by lia.
      rewrite Z.pow_add_r by lia. change (10 ^ 1) with 10. lia.
    + apply Z.eqb_neq in Hd. rewrite Z.sub_diag. split; [exact Hd|lia].
Qed.

Lemma normal_spec m e :
  m <> 0 ->
  let '(m', e') := normal m e in
  m' mod 10 <> 0 /\ e <= e' /\ m = m' * 10 ^ (e' - e).
Proof.
  intros Hm. unfold normal. destruct (m =? 0) eqn:H0; [apply Z.eqb_eq in H0; contradiction|].
  apply strip_zeros_spec; [exact Hm|].
  rewrite Z2Nat.id by apply Z.log2_nonneg. lia.
Qed.

Lemma normal_fixed m e : m mod 10 <> 0 -> normal m e = (m, e).
Proof.
  intros Hm. unfold normal.
  destruct (m =? 0) eqn:H0; [apply Z.eqb_eq in H0; subst m; now contradiction Hm|].
  apply Z.eqb_neq in Hm. destruct (Z.to_nat _); simpl; [reflexivity|now rewrite Hm].
Qed.

(** A decimal has one normal form. *)
Lemma normal_form_unique m1 m2 a b :
  0 <= a -> 0 <= b -> m1 mod 10 <> 0 -> m2 mod 10 <> 0 ->
  m1 * 10 ^ a = m2 * 10 ^ b -> m1 = m2 /\ a = b.
Proof.
  intros Ha Hb H1 H2 H.
  assert (Hlt : forall x y c d, 0 <= c < d -> x mod 10 <> 0 -> x * 10 ^ c = y * 10 ^ d -> False).
  { intros x y c d Hcd Hx Hxy.
    replace d with (c + (1 + (d - c - 1))) in Hxy by lia.
    rewrite !Z.pow_add_r in Hxy by lia. change (10 ^ 1) with 10 in Hxy.
    assert (Hp : 0 < 10 ^ c) by (apply Z.pow_pos_nonneg; lia).
    assert (Hx' : x = 10 * (y * 10 ^ (d - c - 1))) by nia.
    apply Hx. rewrite Hx', Z.mul_comm. apply Z.mod_mul. lia. }
  destruct (Z.lt_trichotomy a b) as [Hab|[Hab|Hab]].
  - exfalso. exact (Hlt m1 m2 a b ltac:(lia) H1 H).
  - subst b. split; [|reflexivity].
    assert (Hp : 0 < 10 ^ a) by (apply Z.pow_pos_nonneg; lia). nia.
  - exfalso. exact (Hlt m2 m1 b a ltac:(lia) H2 (eq_sym H)).
Qed.

Lemma overflows_scaled a d e :
  0 <= d -> overflows (a * 10 ^ d) e = overflows a (e + d).
Proof.
  intros Hd. unfold overflows. generalize overflow_threshold as T. intros T.
  assert (Hp : forall x, 0 <= x -> 0 < 10 ^ x) by (intros; apply Z.pow_pos_nonneg; lia).
  destruct (0 <=? e) eqn:He; [apply Z.leb_le in He | apply Z.leb_gt in He].
  - replace (0 <=? e + d) with true by (symmetry; apply Z.leb_le; lia).
    now rewrite <- Z.mul_assoc, <- Z.pow_add_r, (Z.add_comm d e) by lia.
  - destruct (0 <=? e + d) eqn:Hed; [apply Z.leb_le in Hed | apply Z.leb_gt in Hed].
    + replace d with ((e + d) + (- e)) at 1 by lia. rewrite Z.pow_add_r by lia.
      pose proof (Hp (- e) ltac:(lia)). apply eq_iff_eq_true. rewrite !Z.leb_le. nia.
    + replace (- e) with (- (e + d) + d) by lia. rewrite Z.pow_add_r by lia.
      pose proof (Hp d Hd). apply eq_iff_eq_true. rewrite !Z.leb_le. nia.
Qed.

Lemma underflows_scaled a d e :
  0 <= d -> underflows (a * 10 ^ d) e = false -> underflows a (e + d) = false.
Proof.
  intros Hd. unfold underflows. generalize (2 ^ 1075) as B. intros B.
  assert (Hp : forall x, 0 <= x -> 0 < 10 ^ x) by (intros; apply Z.pow_pos_nonneg; lia).
  destruct (0 <=? e) eqn:He; [apply Z.leb_le in He | apply Z.leb_gt in He].
  - intros _. replace (0 <=? e + d) with true by (symmetry; apply Z.leb_le; lia). reflexivity.
  - destruct (0 <=? e + d) eqn:Hed; [reflexivity | apply Z.leb_gt in Hed].
    replace (- e) with (- (e + d) + d) by lia. rewrite Z.pow_add_r by lia.
    pose proof (Hp d Hd). rewrite !Z.leb_gt. nia.
Qed.

(** What [make] gives is canonical. *)
Lemma make_canonical m e : canonical (make m e).
Proof.
  unfold make. destruct (m =? 0) eqn:H0; [left; split; reflexivity|].
  apply Z.eqb_neq in H0.
  destruct (overflows (Z.abs m) e) eqn:Ho; [exact I|].
  destruct (underflows (Z.abs m) e) eqn:Hu; [left; split; reflexivity|].
  pose proof (normal_spec m e H0) as Hn. destruct (normal m e) as [m' e'].
  destruct Hn as (H1 & H2 & H3). right. split; [exact H1|].
  assert (Ha : Z.abs m = Z.abs m' * 10 ^ (e' - e)).
  { rewrite H3 at 1. rewrite Z.abs_mul. f_equal. apply Z.abs_eq, Z.pow_nonneg. lia. }
  rewrite Ha in Ho, Hu. rewrite overflows_scaled in Ho by lia.
  apply underflows_scaled in Hu; [|lia].
  replace (e + (e' - e)) with e' in Ho, Hu by lia. split; assumption.
Qed.

(** A canonical number is what [make] gives of it. *)
Lemma canonical_make m e : canonical (Finite m e) -> forall sg,
  sg = (if m <? 0 then -1 else 1) -> make (sg * Z.abs m) e = Finite m e.
Proof.
  intros [[-> ->]|(H1 & H2 & H3)] sg ->; [reflexivity|].
  assert (Hm : (if m <? 0 then -1 else 1) * Z.abs m = m) by (destruct (Z.ltb_spec m 0); lia).
  rewrite Hm. unfold make.
  destruct (m =? 0) eqn:H0; [apply Z.eqb_eq in H0; subst m; now contradiction H1|].
  now rewrite H2, H3, normal_fixed.
Qed.

(** The digits of a canonical number followed by zeros. *)
Lemma canonical_make_zeros m e sg :
  canonical (Finite m e) -> m <> 0 -> 0 <= e -> sg = (if m <? 0 then -1 else 1) ->
  make (sg * (Z.abs m * 10 ^ e)) 0 = Finite m e.
Proof.
  intros [[-> ->]|(H1 & H2 & H3)] Hm He ->; [contradiction|].
  assert (Hs : (if m <? 0 then -1 else 1) * (Z.abs m * 10 ^ e) = m * 10 ^ e)
    by (destruct (Z.ltb_spec m 0); lia).
  rewrite Hs. assert (Hp : 0 < 10 ^ e) by (apply Z.pow_pos_nonneg; lia).
  assert (Hne : m * 10 ^ e <> 0) by nia.
  unfold make. destruct (m * 10 ^ e =? 0) eqn:H0; [apply Z.eqb_eq in H0; contradiction|].
  rewrite Z.abs_mul, (Z.abs_eq (10 ^ e)) by lia.
  rewrite overflows_scaled, Z.add_0_l, H2 by lia.
  replace (underflows (Z.abs m * 10 ^ e) 0) with false by reflexivity.
  pose proof (normal_spec (m * 10 ^ e) 0 Hne) as Hn.
  destruct (normal (m * 10 ^ e) 0) as [m' e']. destruct Hn as (Hn1 & Hn2 & Hn3).
  rewrite Z.sub_0_r in Hn3.
  destruct (normal_form_unique m m' e e' He Hn2 H1 Hn1 Hn3) as [-> ->]. reflexivity.
Qed.

(** ** Digits in a text *)

Lemma span_digits_app s rest :
  all_chars is_digit s = true -> no_digit_head rest -> span_digits (s +:+ rest) = (s, rest).
Proof.
  intros Hs Hr. induction s as [|c s IH].
  - change ("" +:+ rest) with rest. destruct rest as [|c r]; [reflexivity|].
    simpl in Hr |- *. now rewrite Hr.
  - change (String c s +:+ rest) with (String c (s +:+ rest)).
    simpl in Hs. apply andb_true_iff in Hs as [Hc Hs].
    cbn [span_digits]. now rewrite Hc, (IH Hs).
Qed.

Lemma span_digits_all s : all_chars is_digit s = true -> span_digits s = (s, "").
Proof.
  intros Hs. rewrite <- (append_empty_r s) at 1. now apply span_digits_app.
Qed.

Lemma zeros_value_from acc k :
  digits_value_from acc (repeat_char "0" k) = acc * 10 ^ Z.of_nat k.
Proof.
  revert acc. induction k as [|k IH]; intros acc; [simpl; lia|].
  cbn [repeat_char digits_value_from]. rewrite IH.
  change (digit_val "0") with 0. rewrite Nat2Z.inj_succ, Z.pow_succ_r by lia. lia.
Qed.

(** The decimal digits of a positive number start with a digit that is
    not zero. *)
Lemma of_Z_head p :
  exists c r, JSString.of_Z (Z.pos p) = String c r /\ is_digit c = true /\ c <> "0"%char.
Proof.
  rewrite of_Z_pos. pose proof (to_uint_head p) as H.
  destruct (Pos.to_uint p); [destruct H | destruct H | ..];
    (eexists; eexists; split; [reflexivity|split; [reflexivity|discriminate]]).
Qed.

Lemma substring_all s : String.substring 0 (String.length s) s = s.
Proof. induction s as [|c s IH]; [reflexivity|]. simpl. now rewrite IH. Qed.

Lemma substring_none s : String.substring 0 0 s = "".
Proof. now destruct s. Qed.

Lemma substring_split n : forall s,
  (n <= String.length s)%nat ->
  String.substring 0 n s +:+ String.substring n (String.length s - n) s = s.
Proof.
  induction n as [|n IH]; intros s Hn.
  - rewrite substring_none, Nat.sub_0_r, substring_all. reflexivity.
  - destruct s as [|c s]; [simpl in Hn; lia|]. simpl in Hn.
    cbn [String.substring String.length Nat.sub].
    change (String c ?a +:+ ?b) with (String c (a +:+ b)).
    now rewrite (IH s ltac:(lia)).
Qed.

Lemma substring_length n : forall s,
  (n <= String.length s)%nat -> String.length (String.substring 0 n s) = n.
Proof.
  induction n as [|n IH]; intros s Hn; [now rewrite substring_none|].
  destruct s as [|c s]; [simpl in Hn; lia|]. simpl in Hn |- *. now rewrite IH by lia.
Qed.

Lemma take_drop n s : 0 <= n <= len s -> take n s +:+ drop n s = s.
Proof.
  intros Hn. unfold take, drop, len in *. apply substring_split. lia.
Qed.

Lemma take_length n s : 0 <= n <= len s -> len (take n s) = n.
Proof.
  intros Hn. unfold take, len in *. rewrite substring_length by lia. lia.
Qed.

Lemma drop_length n s : 0 <= n <= len s -> len (drop n s) = len s - n.
Proof.
  intros Hn. pose proof (take_drop n s Hn) as H.
  apply (f_equal String.length) in H. rewrite length_append in H.
  pose proof (take_length n s Hn). unfold len in *. lia.
Qed.

Lemma take_head n c r : 1 <= n -> exists t, take n (String c r) = String c t.
Proof.
  intros Hn. unfold take. destruct (Z.to_nat n) as [|k] eqn:E; [lia|].
  simpl. eexists. reflexivity.
Qed.

Lemma len_empty s : len s = 0 -> s = "".
Proof. destruct s; [reflexivity|]. unfold len. simpl. lia. Qed.

(** ** The sign *)

Lemma read_number_negative r : JSON.read_number (String "-" r) = read_unsigned (-1) r.
Proof. reflexivity. Qed.

Lemma read_number_digit c r :
  is_digit c = true -> JSON.read_number (String c r) = read_unsigned 1 (String c r).
Proof.
  intros Hc.
  destruct c as [[] [] [] [] [] [] [] []];
    first [ discriminate Hc | reflexivity ].
Qed.

Lemma int_ok_head c r : c <> "0"%char -> int_ok (String c r) = true.
Proof.
  intros Hc. destruct r as [|d r].
  - destruct c as [[] [] [] [] [] [] [] []]; reflexivity.
  - destruct c as [[] [] [] [] [] [] [] []]; first [ reflexivity | now contradiction Hc ].
Qed.

(** ** The exponent *)

Lemma read_exponent_written x :
  x <> 0 ->
  read_exponent ("e" +:+ (if 0 <=? x then "+" else "-") +:+ JSString.of_Z (Z.abs x))
  = Some (x, "").
Proof.
  intros Hx. destruct (Z.abs x) as [|p|p] eqn:Ha; [lia| |lia].
  pose proof (of_Z_digits (Z.pos p) ltac:(lia)) as Hd.
  pose proof (of_Z_value (Z.pos p) ltac:(lia)) as Hv.
  destruct (of_Z_head p) as (c & r & Hs & Hc & _).
  destruct (0 <=? x) eqn:Hsg; [apply Z.leb_le in Hsg | apply Z.leb_gt in Hsg].
  - change ("e" +:+ "+" +:+ ?s) with (String "e" (String "+" s)).
    cbn [read_exponent Ascii.eqb Bool.eqb orb read_sign].
    rewrite (span_digits_all _ Hd), Hv, Hs. cbn [String.eqb]. f_equal. f_equal. lia.
  - change ("e" +:+ "-" +:+ ?s) with (String "e" (String "-" s)).
    cbn [read_exponent Ascii.eqb Bool.eqb orb read_sign].
    rewrite (span_digits_all _ Hd), Hv, Hs. cbn [String.eqb]. f_equal. f_equal. lia.
Qed.

Lemma read_exponent_e x :
  x <> 0 ->
  read_exponent (String "e" ((if 0 <=? x then "+" else "-") +:+ JSString.of_Z (Z.abs x)))
  = Some (x, "").
Proof. exact (read_exponent_written x). Qed.

Lemma not_empty s : 0 < len s -> String.eqb s "" = false.
Proof. destruct s; [unfold len; simpl; lia | reflexivity]. Qed.

(** ** The four ways a number is written, read back *)

Lemma read_unsigned_written sg p e :
  let s := JSString.of_Z (Z.pos p) in
  let k := len s in
  let n := k + e in
  read_unsigned sg
    (if (k <=? n) && (n <=? 21) then s +:+ repeat_char "0" (Z.to_nat (n - k))
     else if (0 <? n) && (n <=? 21) then take n s +:+ "." +:+ drop n s
     else if (-6 <? n) && (n <=? 0) then "0." +:+ repeat_char "0" (Z.to_nat (- n)) +:+ s
     else
       let x := n - 1 in
       let es := (if 0 <=? x then "+" else "-") +:+ JSString.of_Z (Z.abs x) in
       if k =? 1 then s +:+ "e" +:+ es
       else take 1 s +:+ "." +:+ drop 1 s +:+ "e" +:+ es)
  = Some (if (0 <=? e) && (len (JSString.of_Z (Z.pos p)) + e <=? 21)
          then make (sg * (Z.pos p * 10 ^ e)) 0 else make (sg * Z.pos p) e, "").
Proof.
  intros s k n.
  pose proof (of_Z_digits (Z.pos p) ltac:(lia)) as Hd.
  pose proof (of_Z_value (Z.pos p) ltac:(lia)) as Hv.
  pose proof (of_Z_size p) as Hk. cbv zeta in Hk. destruct Hk as [Hk _].
  destruct (of_Z_head p) as (c & r & Hs & Hc & Hc0).
  fold s in Hd, Hv, Hs, Hk. fold (len s) in Hk. fold k in Hk.
  unfold digits_value in Hv.
  replace (0 <=? e) with (k <=? n)
    by (subst n; destruct (Z.leb_spec k (k + e)), (Z.leb_spec 0 e); lia || reflexivity).
  fold s. fold k. fold n.
  destruct ((k <=? n) && (n <=? 21)) eqn:F1.
  { apply andb_true_iff in F1 as [F1 _]. apply Z.leb_le in F1.
    assert (Hall : all_chars is_digit (s +:+ repeat_char "0" (Z.to_nat (n - k))) = true)
      by now rewrite all_chars_app, Hd, zeros_digits.
    unfold read_unsigned. rewrite (span_digits_all _ Hall).
    assert (Hok : int_ok (s +:+ repeat_char "0" (Z.to_nat (n - k))) = true).
    { rewrite Hs. change (String c r +:+ ?z) with (String c (r +:+ z)).
      now apply int_ok_head. }
    rewrite Hok. cbv beta iota zeta. cbn [negb].
    rewrite append_empty_r. unfold digits_value.
    rewrite digits_value_from_app, Hv, zeros_value_from.
    replace (Z.of_nat (Z.to_nat (n - k))) with e by (subst n; lia). reflexivity. }
  destruct ((0 <? n) && (n <=? 21)) eqn:F2.
  { apply andb_true_iff in F2 as [F2 F2']. rewrite F2', andb_true_r in F1.
    apply Z.ltb_lt in F2. apply Z.leb_le in F2'. apply Z.leb_gt in F1.
    assert (Hn : 0 <= n <= len s) by (fold k; lia).
    pose proof (take_drop n s Hn) as Htd.
    assert (Hparts : all_chars is_digit (take n s) = true
                     /\ all_chars is_digit (drop n s) = true).
    { rewrite <- Htd, all_chars_app in Hd. now apply andb_true_iff in Hd. }
    destruct Hparts as [Ht Hdr].
    change (take n s +:+ "." +:+ drop n s) with (take n s +:+ String "." (drop n s)).
    unfold read_unsigned. rewrite (span_digits_app _ _ Ht) by reflexivity.
    assert (Hok : int_ok (take n s) = true).
    { rewrite Hs. destruct (take_head n c r ltac:(lia)) as [t ->]. now apply int_ok_head. }
    rewrite Hok. cbv beta iota zeta. cbn [negb].
    rewrite (span_digits_all _ Hdr).
    rewrite (not_empty (drop n s)) by (rewrite drop_length by exact Hn; fold k; lia).
    cbv beta iota zeta. rewrite Htd. unfold digits_value. rewrite Hv.
    rewrite drop_length by exact Hn. fold k.
    replace (- (k - n)) with e by (subst n; lia). reflexivity. }
  destruct ((-6 <? n) && (n <=? 0)) eqn:F3.
  { apply andb_true_iff in F3 as [F3 F3']. apply Z.ltb_lt in F3. apply Z.leb_le in F3'.
    set (z := repeat_char "0" (Z.to_nat (- n))).
    change ("0." +:+ z +:+ s) with (String "0" (String "." (z +:+ s))).
    assert (Hall : all_chars is_digit (z +:+ s) = true)
      by (subst z; now rewrite all_chars_app, Hd, zeros_digits).
    unfold read_unsigned.
    change (span_digits (String "0" (String "." (z +:+ s))))
      with ("0", String "." (z +:+ s)).
    cbv beta iota zeta. change (negb (int_ok "0")) with false. cbv iota.
    rewrite (span_digits_all _ Hall).
    rewrite (not_empty (z +:+ s))
      by (unfold len; rewrite length_append, Nat2Z.inj_add; fold (len s); fold k; lia).
    cbv beta iota zeta.
    change ("0" +:+ z +:+ s) with (String "0" (z +:+ s)).
    unfold digits_value. cbn [digits_value_from]. change (10 * 0 + digit_val "0") with 0.
    subst z. rewrite digits_value_from_app, zeros_value, Hv.
    replace (- len (repeat_char "0" (Z.to_nat (- n)) +:+ s)) with e; [reflexivity|].
    unfold len. rewrite length_append, zeros_length, Nat2Z.inj_add.
    fold (len s). fold k. subst n. lia. }
  cbv zeta.
  assert (Hx : n - 1 <> 0).
  { destruct (Z.leb_spec k n), (Z.leb_spec n 21), (Z.ltb_spec 0 n),
      (Z.ltb_spec (-6) n), (Z.leb_spec n 0); simpl in F1, F2, F3; try discriminate; lia. }
  pose proof (read_exponent_e (n - 1) Hx) as He.
  set (es := (if 0 <=? n - 1 then "+" else "-") +:+ JSString.of_Z (Z.abs (n - 1))) in *.
  destruct (k =? 1) eqn:K1; [apply Z.eqb_eq in K1 | apply Z.eqb_neq in K1].
  - change (s +:+ "e" +:+ es) with (s +:+ String "e" es).
    unfold read_unsigned. rewrite (span_digits_app _ _ Hd) by reflexivity.
    assert (Hok : int_ok s = true) by (rewrite Hs; now apply int_ok_head).
    rewrite Hok. cbv beta iota zeta. cbn [negb Ascii.eqb Bool.eqb orb].
    rewrite He. rewrite append_empty_r. unfold digits_value. rewrite Hv.
    replace (n - 1 - len "") with e by (change (len "") with 0; subst n; lia).
    reflexivity.
  - assert (Hn : 0 <= 1 <= len s) by (fold k; lia).
    pose proof (take_drop 1 s Hn) as Htd.
    assert (Hparts : all_chars is_digit (take 1 s) = true
                     /\ all_chars is_digit (drop 1 s) = true).
    { rewrite <- Htd, all_chars_app in Hd. now apply andb_true_iff in Hd. }
    destruct Hparts as [Ht Hdr].
    change (take 1 s +:+ "." +:+ drop 1 s +:+ "e" +:+ es)
      with (take 1 s +:+ String "." (drop 1 s +:+ String "e" es)).
    unfold read_unsigned. rewrite (span_digits_app _ _ Ht) by reflexivity.
    assert (Hok : int_ok (take 1 s) = true).
    { rewrite Hs. destruct (take_head 1 c r ltac:(lia)) as [t ->]. now apply int_ok_head. }
    rewrite Hok. cbv beta iota zeta. cbn [negb].
    rewrite (span_digits_app _ _ Hdr) by reflexivity.
    rewrite (not_empty (drop 1 s)) by (rewrite drop_length by exact Hn; fold k; lia).
    cbv beta iota zeta. cbn [Ascii.eqb Bool.eqb orb].
    rewrite He, Htd. unfold digits_value. rewrite Hv.
    rewrite drop_length by exact Hn. fold k.
    replace (n - 1 - (k - 1)) with e by (subst n; lia). reflexivity.
Qed.

(** What [read_unsigned] reads starts with a digit. *)
Lemma read_unsigned_head sg body v :
  read_unsigned sg body = Some v -> exists c r, body = String c r /\ is_digit c = true.
Proof.
  unfold read_unsigned. destruct body as [|c r]; [discriminate|].
  destruct (is_digit c) eqn:Hc; [intros _; now exists c, r|].
  cbn [span_digits]. rewrite Hc. discriminate.
Qed.

(** A canonical number is read back from the text it is written as. *)
Lemma read_number_toString m e :
  canonical (Finite m e) ->
  JSON.read_number (JSNumber.toString (Finite m e)) = Some (Finite m e, "")
  /\ exists c r, JSNumber.toString (Finite m e) = String c r
                 /\ (c = "-"%char \/ is_digit c = true).
Proof.
  intros Hc. pose proof Hc as [[-> ->]|(H1 & H2 & H3)].
  { split; [reflexivity|]. exists "0"%char, "". split; [reflexivity|now right]. }
  assert (Hm : m <> 0) by (intros ->; now contradiction H1).
  unfold JSNumber.toString. rewrite (normal_fixed m e H1).
  destruct (m =? 0) eqn:H0; [apply Z.eqb_eq in H0; contradiction|]. cbv zeta.
  assert (Hres : forall sg p, Z.abs m = Z.pos p -> sg = (if m <? 0 then -1 else 1) ->
            Some (if (0 <=? e) && (len (JSString.of_Z (Z.pos p)) + e <=? 21)
                  then make (sg * (Z.pos p * 10 ^ e)) 0 else make (sg * Z.pos p) e, "")
            = Some (Finite m e, "")).
  { intros sg p Hp Hsg. rewrite <- Hp. destruct (0 <=? e) eqn:He; cbn [andb].
    - apply Z.leb_le in He. rewrite (canonical_make m e Hc sg Hsg).
      rewrite (canonical_make_zeros m e sg Hc Hm He Hsg). now destruct (_ <=? 21).
    - now rewrite (canonical_make m e Hc sg Hsg). }
  destruct m as [|p|p]; [contradiction| |].
  - change (Z.abs (Z.pos p)) with (Z.pos p). change (Z.pos p <? 0) with false. cbv iota.
    pose proof (read_unsigned_written 1 p e) as Hw. cbv zeta in Hw.
    rewrite (Hres 1 p eq_refl eq_refl) in Hw.
    match type of Hw with read_unsigned 1 ?b = _ => set (body := b) in * end.
    change ("" +:+ body) with body.
    destruct (read_unsigned_head _ _ _ Hw) as (c & r & Hb & Hd). rewrite Hb in Hw |- *.
    split; [now rewrite (read_number_digit c r Hd)|]. exists c, r. now split; [|right].
  - change (Z.abs (Z.neg p)) with (Z.pos p). change (Z.neg p <? 0) with true. cbv iota.
    pose proof (read_unsigned_written (-1) p e) as Hw. cbv zeta in Hw.
    rewrite (Hres (-1) p eq_refl eq_refl) in Hw.
    match type of Hw with read_unsigned (-1) ?b = _ => set (body := b) in * end.
    change ("-" +:+ body) with (String "-" body).
    split; [now rewrite read_number_negative|]. exists "-"%char, body. now split; [|left].
Qed.

(** A text that starts as a number is read by [read_number]. *)
Lemma read_value_number fuel c r n rest :
  c = "-"%char \/ is_digit c = true ->
  JSON.read_number (String c r) = Some (n, rest) ->
  JSON.read_value (S fuel) (String c r) = Some (JNum n, rest).
Proof.
  intros Hc Hn.
  assert (Hv : JSON.read_value (S fuel) (String c r)
               = match JSON.read_number (String c r) with
                 | Some (n, rest) => Some (JNum n, rest)
                 | None => None
                 end).
  { destruct Hc as [-> | Hc]; [reflexivity|].
    destruct c as [[] [] [] [] [] [] [] []]; first [ discriminate Hc | reflexivity ]. }
  now rewrite Hv, Hn.
Qed.

Lemma parse_toString m e :
  canonical (Finite m e) -> JSON.parse (JSNumber.toString (Finite m e)) = Some (JNum (Finite m e)).
Proof.
  intros Hc. destruct (read_number_toString m e Hc) as (Hn & c & r & Hs & Hh).
  unfold JSON.parse. rewrite Hs in Hn |- *.
  replace (2 * String.length (String c r) + 2)%nat
    with (S (2 * String.length (String c r) + 1)) by lia.
  rewrite (read_value_number _ c r _ _ Hh Hn). reflexivity.
Qed.

(** The JSON text of a number that a resolver returns, read back. *)
Lemma restore_json_number w n :
  canonical n -> restore_json (JSON_stringify (VNum n)) w = (Returned (through_json n), w).
Proof.
  intros Hc. unfold restore_json, JSON_parse, mbind, M_bind, lift, through_json.
  cbn [JSON_stringify VNum JSON.stringify].
  destruct n as [| neg | m e]; cbn [is_finite]; [reflexivity..|].
  now rewrite (parse_toString m e Hc).
Qed.

(** ** The numbers the resolvers return *)

Lemma parseFloat_canonical v n : parseFloat v = Returned n -> canonical n.
Proof.
  unfold parseFloat. destruct (JS.toString v) as [s|x]; [|discriminate]. cbn.
  intros [= <-]. unfold parseFloat_string.
  destruct (read_sign (trimStart s)) as [sg r].
  destruct (strip_prefix "Infinity" r); [exact I|].
  destruct (read_decimal r) as [[m e]|]; [apply make_canonical | exact I].
Qed.

Lemma canonical_number_text s : canonical_number (VStr s).
Proof. intros n H. discriminate H. Qed.

Lemma results_ask_bind {B} (P : B -> Prop) (k : World -> M B) :
  (forall w, results_in P (k w)) -> results_in P (ask ≫= k).
Proof. intros H w v. unfold mbind, M_bind, ask. cbn. apply H. Qed.

(** As [results_with]; what is lifted into the computation is kept as an
    equation for the leaves. *)
Ltac results_from leaf :=
  repeat first
    [ apply results_ret; leaf
    | match goal with
      | |- results_in _ (ask ≫= _) => apply results_ask_bind; intros ?
      | |- results_in _ (lift _ ≫= _) => apply results_lift_bind; intros ? ?
      end
    | apply results_bind; intros ?
    | apply results_try_catch; [|intros ?]
    | match goal with
      | |- results_in _ (if ?b then _ else _) => destruct b
      | |- results_in _ (match ?x with _ => _ end) => destruct x
      | |- results_in _ (let _ := _ in _) => cbv zeta
      end ].

Ltac canonical_leaf :=
  first [ apply canonical_number_text
        | intros ? [= <-]; eapply parseFloat_canonical; eassumption ].

Lemma fetchSinglePriceInternal_canonical ticker :
  results_in canonical_number (fetchSinglePriceInternal ticker).
Proof. unfold fetchSinglePriceInternal. results_from canonical_leaf. Qed.

Lemma bind_returned {A B} (o : Outcome A) (k : A -> Outcome B) b :
  o ≫= k = Returned b -> exists a, o = Returned a /\ k a = Returned b.
Proof. destruct o as [a|x]; [intros H; now exists a | discriminate]. Qed.

Lemma coupon_of_row_canonical w dateIdx valueIdx valueRubIdx r c :
  coupon_of_row w dateIdx valueIdx valueRubIdx r = Returned c -> canonical_coupon c.
Proof.
  unfold coupon_of_row. intros H.
  apply bind_returned in H as (val & _ & H).
  apply bind_returned in H as (cell_date & _ & H).
  apply bind_returned in H as (d & _ & H).
  apply bind_returned in H as (value & Hvalue & H).
  injection H as <-. intros n Hn. cbn in Hn. subst value.
  destruct (negb (is_null val)); [|discriminate Hvalue].
  apply bind_returned in Hvalue as (n' & Hn' & [= <-]).
  exact (parseFloat_canonical _ _ Hn').
Qed.

Lemma map_outcome_Forall {A B} (P : B -> Prop) (f : A -> Outcome B) items :
  (forall x y, f x = Returned y -> P y) ->
  forall mapped, map_outcome f items = Returned mapped -> Forall P mapped.
Proof.
  intros Hf. induction items as [|x items IH]; intros mapped; simpl.
  - intros [= <-]. constructor.
  - destruct (f x) as [y|e] eqn:Hy; [|discriminate]. cbn.
    destruct (map_outcome f items) as [ys|e]; [|discriminate]. cbn.
    intros [= <-]. constructor; [exact (Hf x y Hy) | now apply IH].
Qed.

Lemma coupon_loop_canonical today coupons known :
  Forall canonical_coupon coupons ->
  (forall k, known = Some k -> canonical k) ->
  match coupon_loop today coupons known with
  | inl v => canonical v
  | inr (Some k) => canonical k
  | inr None => True
  end.
Proof.
  intros Hall. revert known. induction Hall as [|c rest Hc Hrest IH]; intros known Hknown; simpl.
  - destruct known as [k|]; [now apply Hknown | exact I].
  - destruct (JSDate.ge (Coupon.date c) today).
    + destruct (Coupon.value c) as [v|] eqn:Hv.
      * destruct (meaningful (Some v)); [now apply Hc|].
        destruct known as [k|]; [now apply Hknown | exact I].
      * destruct known as [k|]; [now apply Hknown | exact I].
    + apply IH. intros k. destruct (meaningful (Coupon.value c)); [apply Hc | apply Hknown].
Qed.

Lemma scan_coupons_canonical today coupons :
  Forall canonical_coupon coupons -> canonical_number (scan_coupons today coupons).
Proof.
  intros Hall. unfold scan_coupons.
  pose proof (coupon_loop_canonical today coupons None Hall ltac:(discriminate)) as H.
  destruct (coupon_loop today coupons None) as [v|[k|]]; intros n [= <-]; exact H.
Qed.

Ltac coupon_leaf :=
  first [ apply canonical_number_text
        | apply scan_coupons_canonical;
          eapply Permutation_Forall; [apply (Array_sort_permutation Coupon.date)|];
          eapply map_outcome_Forall; [|eassumption];
          intros ? ?; apply coupon_of_row_canonical ].

Lemma fetchCouponFromBondization_canonical ticker :
  results_in canonical_number (fetchCouponFromBondization ticker).
Proof. unfold fetchCouponFromBondization. results_from coupon_leaf. Qed.

Lemma fetchCouponValueInternal_canonical ticker :
  results_in canonical_number (fetchCouponValueInternal ticker).
Proof.
  unfold fetchCouponValueInternal.
  apply results_bind; intros url. apply results_try_catch;
    [|intros e; apply results_ret, canonical_number_text].
  apply results_bind; intros response.
  destruct (negb _); [apply results_ret, canonical_number_text|].
  apply results_bind; intros parsed. cbv zeta.
  apply results_bind; intros missing.
  destruct missing; [apply results_ret, canonical_number_text|].
  apply results_bind; intros columns. apply results_bind; intros row.
  apply results_bind; intros couponValueIndex.
  apply results_lift_bind. intros [val|] Hstage1.
  - apply results_ret. intros n [= <-].
    destruct (negb (couponValueIndex =? -1)); [|discriminate].
    destruct (index row couponValueIndex) as [couponValue|]; [|discriminate].
    cbn in Hstage1. destruct (negb (is_nullish couponValue)); [|discriminate].
    destruct (parseFloat couponValue) as [x|] eqn:Hx; [|discriminate]. cbn in Hstage1.
    destruct (is_zero x); [discriminate|]. cbn in Hstage1.
    injection Hstage1 as <-. exact (parseFloat_canonical _ _ Hx).
  - apply fetchCouponFromBondization_canonical.
Qed.

(** A number that [GET_MOEX_PRICE] or [GET_COUPON_VALUE] returns on a miss
    is what the hit that follows returns, without a request, when it is
    finite: its JSON text reads back as the same number.  NaN and the
    infinities (a price or a coupon that does not read as a number, or
    one beyond the doubles) are kept as [null]: the hit returns null.
    The numbers are those of at most 15 significant digits in the range
    of the normal doubles, which a double gives back digit for digit;
    the model keeps the digits of a longer numeral where the program
    rounds them, and nothing is said of those. *)
Theorem cached_number_round_trip ticker w n :
  blank ticker = false -> double_exact n ->
  (cache w !! ticker = None ->
   fst (GET_MOEX_PRICE ticker w) = Returned (VNum n) ->
   let w' := snd (GET_MOEX_PRICE ticker w) in
   GET_MOEX_PRICE ticker w' = (Returned (if is_finite n then VNum n else VNull), w'))
  /\ (cache w !! (ticker +:+ "_coupon_value_v3") = None ->
      fst (GET_COUPON_VALUE ticker w) = Returned (VNum n) ->
      let w' := snd (GET_COUPON_VALUE ticker w) in
      GET_COUPON_VALUE ticker w' = (Returned (if is_finite n then VNum n else VNull), w')).
Proof.
  intros Hb _. split.
  - intros Hc Hr w'. subst w'.
    assert (Hcan : canonical n).
    { revert Hr. unfold GET_MOEX_PRICE. run_lookup Hb. rewrite Hc. cbn.
      pose proof (fetchSinglePriceInternal_canonical ticker w) as Hp.
      destruct (fetchSinglePriceInternal ticker w) as [[v|e] w1]; cbn; [|discriminate].
      intros [= ->]. exact (Hp _ eq_refl n eq_refl). }
    destruct (resolved_then_cached _ _ _ _ _ _ _ GET_MOEX_PRICE_caches
                ltac:(intros t w0 Hb0 Hc0; unfold GET_MOEX_PRICE; run_lookup Hb0;
                      rewrite Hc0; reflexivity)
                ticker w _ Hb Hc Hr) as (r & text & -> & [= <-] & ->).
    exact (restore_json_number _ n Hcan).
  - intros Hc Hr w'. subst w'.
    assert (Hcan : canonical n).
    { revert Hr. unfold GET_COUPON_VALUE. run_lookup Hb. rewrite Hc. cbn.
      pose proof (fetchCouponValueInternal_canonical ticker w) as Hp.
      destruct (fetchCouponValueInternal ticker w) as [[v|e] w1]; cbn; [|discriminate].
      intros [= ->]. exact (Hp _ eq_refl n eq_refl). }
    destruct (resolved_then_cached _ _ _ _ _ _ _ GET_COUPON_VALUE_caches
                ltac:(intros t w0 Hb0 Hc0; unfold GET_COUPON_VALUE; run_lookup Hb0;
                      rewrite Hc0; reflexivity)
                ticker w _ Hb Hc Hr) as (r & text & -> & [= <-] & ->).
    exact (restore_json_number _ n Hcan).
Qed.

(** The price 101.5 of [Sample.price_world] comes back from the cache as
    it was; in [dash_world], where the last price is a dash, the price is
    NaN at first and null from the cache. *)
Lemma cached_number_round_trip_witness :
  (let w' := snd (GET_MOEX_PRICE "SU26207RMFS9" Sample.price_world) in
   fst (GET_MOEX_PRICE "SU26207RMFS9" Sample.price_world) = Returned (VNum (make 1015 (-1)))
   /\ GET_MOEX_PRICE "SU26207RMFS9" w' = (Returned (VNum (make 1015 (-1))), w'))
  /\ (let w' := snd (GET_MOEX_PRICE "SU26207RMFS9" dash_world) in
      fst (GET_MOEX_PRICE "SU26207RMFS9" dash_world) = Returned (VNum NaN)
      /\ GET_MOEX_PRICE "SU26207RMFS9" w' = (Returned VNull, w')).
Proof.
  split; intros w'; subst w'.
  - assert (H : fst (GET_MOEX_PRICE "SU26207RMFS9" Sample.price_world)
                = Returned (VNum (make 1015 (-1)))) by (vm_compute; reflexivity).
    split; [exact H|].
    exact (proj1 (cached_number_round_trip "SU26207RMFS9" Sample.price_world
                    (make 1015 (-1)) eq_refl ltac:(vm_compute; intuition discriminate))
             eq_refl H).
  - assert (H : fst (GET_MOEX_PRICE "SU26207RMFS9" dash_world) = Returned (VNum NaN))
      by (vm_compute; reflexivity).
    split; [exact H|].
    exact (proj1 (cached_number_round_trip "SU26207RMFS9" dash_world NaN eq_refl I)
             eq_refl H).
Defined.

(** On [sample_sheet] the one cell B1 is recalculated. *)
Lemma forced_recalculation_witness :
  effects (snd (forceRecalculatePrices sample_sheet))
  = [ AlertButtons "Найдено 1 ячеек. Начинаю обновление..." "OK";
      Toast "Обновление 1 ячеек...";
      ClearContent 1 2; Flush; SetFormula 1 2 "=get_moex_price(A1)"; Sleep 400;
      ToastTitled "Обновление данных завершено!" "Готово" 5 ]
  /\ slept (effects (snd (forceRecalculatePrices sample_sheet))) = 400.
Proof.
  destruct (forced_recalculation sample_sheet) as (_ & Heffects & Hslept).
  split; [rewrite Heffects | rewrite Hslept]; vm_compute; reflexivity.
Defined.

(** A run on [sample_sheet] empties B1 and leaves B2, a sum, alone. *)
Lemma recalculated_cells_witness :
  In (1, 2) (cells_cleared (effects (snd (forceRecalculatePrices sample_sheet))))
  /\ ~ In (2, 2) (cells_cleared (effects (snd (forceRecalculatePrices sample_sheet)))).
Proof.
  destruct (recalculated_cells sample_sheet) as (run & He & Hin & _ & _).
  rewrite He. change (effects sample_sheet ++ run)%list with run. split.
  - apply Hin. vm_compute. intuition discriminate.
  - intros H. apply Hin in H as (_ & _ & H). vm_compute in H. discriminate H.
Defined.
